(** * Bulk option add / remove routes: a shallow embedding

    The repository holds two Remix routes of a Shopify admin app:

    - [app/routes/app.additional.jsx] adds a named option to every product
      that lacks it (module [Additional] below);
    - [app/routes/index.jsx] removes a named option from every product that
      has it (module [Index] below).

    Both routes read the whole catalog through a cursor-paginated GraphQL
    query and then issue one or two mutations per product.  The remote API
    is modelled as a script of responses consumed one per request, together
    with the log of the requests sent; the JavaScript of the loaders and
    actions is translated statement by statement into a state-and-exception
    monad over that world.  Authentication ([authenticate.admin]), the
    [console] output and the React component of each route are left out. *)

From Stdlib Require Import List String Ascii Bool Arith ZArith Lia DecimalString.
Import ListNotations.

Local Open Scope string_scope.
Local Open Scope list_scope.

(** ** JavaScript strings

    A string is a sequence of code units; the model keeps the code units
    0..255 (Basic Latin and Latin-1 Supplement), which is what [ascii]
    holds.  The three [String.prototype] methods the routes call are
    written out on that range. *)

Module JS.

(** White space and line terminators stripped by [trim]: TAB, LF, VT, FF,
    CR, SPACE and NO-BREAK SPACE (the others lie above U+00FF). *)
Definition isWhiteSpace (c : ascii) : bool :=
  let n := nat_of_ascii c in
  (((9 <=? n) && (n <=? 13)) || (n =? 32) || (n =? 160))%nat.

Fixpoint trimStart (s : string) : string :=
  match s with
  | EmptyString => EmptyString
  | String c s' => if isWhiteSpace c then trimStart s' else s
  end.

Fixpoint trimEnd (s : string) : string :=
  match s with
  | EmptyString => EmptyString
  | String c s' =>
      match trimEnd s' with
      | EmptyString => if isWhiteSpace c then EmptyString else String c EmptyString
      | t => String c t
      end
  end.

(** [s.trim()] *)
Definition trim (s : string) : string := trimEnd (trimStart s).

(** Lower-case mapping of one code unit: A-Z, and the Latin-1 capitals
    U+00C0..U+00DE except the multiplication sign U+00D7, move up by 32. *)
Definition lowerChar (c : ascii) : ascii :=
  let n := nat_of_ascii c in
  if (((65 <=? n) && (n <=? 90))
      || ((192 <=? n) && (n <=? 222) && negb (n =? 215)))%nat
  then ascii_of_nat (n + 32)
  else c.

(** [s.toLowerCase()] *)
Fixpoint toLowerCase (s : string) : string :=
  match s with
  | EmptyString => EmptyString
  | String c s' => String (lowerChar c) (toLowerCase s')
  end.

(** [s.startsWith(t)], the test [includes] makes at each position. *)
Fixpoint startsWith (s t : string) : bool :=
  match t, s with
  | EmptyString, _ => true
  | String _ _, EmptyString => false
  | String b t', String a s' => Ascii.eqb a b && startsWith s' t'
  end.

(** [s.includes(t)]: [t] occurs in [s] at some position. *)
Fixpoint includes (s t : string) : bool :=
  startsWith s t ||
  match s with
  | EmptyString => false
  | String _ s' => includes s' t
  end.

(** Truthiness of a string: [!s] holds exactly for the empty string. *)
Definition truthy (s : string) : bool :=
  match s with EmptyString => false | _ => true end.

(** [arr.join(sep)] on an array of strings. *)
Fixpoint join (sep : string) (l : list string) : string :=
  match l with
  | [] => EmptyString
  | [x] => x
  | x :: rest => (x ++ sep ++ join sep rest)%string
  end.

(** [arr[i]] for an integer index: [undefined] (here [None]) outside
    [0 .. length-1]. *)
Definition index {A} (arr : list A) (i : Z) : option A :=
  if (i <? 0)%Z then None else nth_error arr (Z.to_nat i).

(** [arr.at(i)]: a negative index counts from the end. *)
Definition at_ {A} (arr : list A) (i : Z) : option A :=
  let len := Z.of_nat (List.length arr) in
  let k := if (0 <=? i)%Z then i else (len + i)%Z in
  if ((k <? 0) || (len <=? k))%Z then None else nth_error arr (Z.to_nat k).

(** [arr.slice(1)] *)
Definition slice1 {A} (arr : list A) : list A := tl arr.

(** [arr.find(p)] is [List.find]; [arr.some(p)] is [existsb];
    [arr.filter(p)] is [filter]; [arr.map(f)] is [map]. *)

End JS.

(** ** JSON values and [JSON.parse]

    [JSON.parse] is a recursive-descent parser of the JSON grammar
    (ECMA-404).  String values are kept as lists of code units, so that a
    [\uXXXX] escape can denote any of them.  A number is kept as the decimal
    it is written as, [(-1)^neg * mantissa * 10^exp10], where JavaScript
    rounds it to a double: no property below looks inside a number. *)

Module JSON.

#[warnings="-register-all"] Inductive value : Type :=
  | Null
  | Bool (b : bool)
  | Number (neg : bool) (mantissa : N) (exp10 : Z)
  | Str (s : list N)
  | Array (elements : list value)
  | Object (members : list (list N * value)).

(** Outcome of a parsing function: a value and the unread input, a syntax
    error, or the bound on the nesting of calls reached. *)
Inductive parsed (A : Type) : Type :=
  | Parsed (a : A) (rest : string)
  | SyntaxError
  | OutOfFuel.
Arguments Parsed {A} a rest.
Arguments SyntaxError {A}.
Arguments OutOfFuel {A}.

Definition codeUnits (s : string) : list N :=
  map N_of_ascii (list_ascii_of_string s).

(** JSON white space: space, TAB, LF, CR. *)
Definition isWs (c : ascii) : bool :=
  let n := nat_of_ascii c in
  ((n =? 32) || (n =? 9) || (n =? 10) || (n =? 13))%nat.

Fixpoint skipWs (s : string) : string :=
  match s with
  | EmptyString => EmptyString
  | String c s' => if isWs c then skipWs s' else s
  end.

Definition digit (c : ascii) : option N :=
  let n := N_of_ascii c in
  if ((48 <=? n) && (n <=? 57))%N then Some (n - 48)%N else None.

Definition hexDigit (c : ascii) : option N :=
  let n := N_of_ascii c in
  if ((48 <=? n) && (n <=? 57))%N then Some (n - 48)%N
  else if ((65 <=? n) && (n <=? 70))%N then Some (n - 55)%N
  else if ((97 <=? n) && (n <=? 102))%N then Some (n - 87)%N
  else None.

(** Reads the longest run of decimal digits: the number read after [acc],
    how many digits were read, and the rest. *)
Fixpoint digits (s : string) (acc : N) (count : nat) : N * nat * string :=
  match s with
  | EmptyString => (acc, count, s)
  | String c s' =>
      match digit c with
      | Some d => digits s' (10 * acc + d)%N (S count)
      | None => (acc, count, s)
      end
  end.

(** The fraction and exponent parts that may follow the integer part. *)
Definition fraction (m : N) (s : string) : option (N * Z * string) :=
  match s with
  | String c s' =>
      if Ascii.eqb c "." then
        match digits s' m 0 with
        | (_, O, _) => None
        | (m', k, rest) => Some (m', (- Z.of_nat k)%Z, rest)
        end
      else Some (m, 0%Z, s)
  | EmptyString => Some (m, 0%Z, s)
  end.

Definition unsignedExponent (sign : Z) (s : string) : option (Z * string) :=
  match digits s 0 0 with
  | (_, O, _) => None
  | (e, _, rest) => Some ((sign * Z.of_N e)%Z, rest)
  end.

Definition exponent (s : string) : option (Z * string) :=
  match s with
  | String c s' =>
      if (Ascii.eqb c "e" || Ascii.eqb c "E")%bool then
        match s' with
        | String d s'' =>
            if Ascii.eqb d "+" then unsignedExponent 1%Z s''
            else if Ascii.eqb d "-" then unsignedExponent (-1)%Z s''
            else unsignedExponent 1%Z s'
        | EmptyString => None
        end
      else Some (0%Z, s)
  | EmptyString => Some (0%Z, s)
  end.

(** The integer part: [0], or a run of digits that does not start with
    [0]. *)
Definition integerPart (s : string) : option (N * string) :=
  match s with
  | String c s' =>
      if Ascii.eqb c "0" then Some (0%N, s')
      else
        match digit c with
        | Some d => let '(m, _, rest) := digits s' d 0 in Some (m, rest)
        | None => None
        end
  | EmptyString => None
  end.

(** A number after its optional minus sign. *)
Definition number (neg : bool) (s : string) : parsed value :=
  match integerPart s with
  | None => SyntaxError
  | Some (m, rest) =>
      match fraction m rest with
      | None => SyntaxError
      | Some (m', e1, rest') =>
          match exponent rest' with
          | None => SyntaxError
          | Some (e2, rest'') => Parsed (Number neg m' (e1 + e2)%Z) rest''
          end
      end
  end.

(** The code unit a one-letter escape denotes. *)
Definition escape (e : ascii) : option N :=
  if Ascii.eqb e "034" then Some 34%N
  else if Ascii.eqb e "092" then Some 92%N
  else if Ascii.eqb e "/" then Some 47%N
  else if Ascii.eqb e "b" then Some 8%N
  else if Ascii.eqb e "f" then Some 12%N
  else if Ascii.eqb e "n" then Some 10%N
  else if Ascii.eqb e "r" then Some 13%N
  else if Ascii.eqb e "t" then Some 9%N
  else None.

Definition hex4 (h1 h2 h3 h4 : ascii) : option N :=
  match hexDigit h1, hexDigit h2, hexDigit h3, hexDigit h4 with
  | Some a, Some b, Some c, Some d => Some (4096 * a + 256 * b + 16 * c + d)%N
  | _, _, _, _ => None
  end.

Definition consUnit (n : N) (r : parsed (list N)) : parsed (list N) :=
  match r with
  | Parsed u rest => Parsed (n :: u) rest
  | SyntaxError => SyntaxError
  | OutOfFuel => OutOfFuel
  end.

(** The characters of a string after its opening quote, up to and
    including the closing one: a backslash starts an escape, a control
    character is an error. *)
Fixpoint stringBody (s : string) : parsed (list N) :=
  match s with
  | EmptyString => SyntaxError
  | String c rest =>
      if Ascii.eqb c "034" then Parsed [] rest
      else if Ascii.eqb c "092" then
        match rest with
        | EmptyString => SyntaxError
        | String e rest' =>
            if Ascii.eqb e "u" then
              match rest' with
              | String h1 (String h2 (String h3 (String h4 rest''))) =>
                  match hex4 h1 h2 h3 h4 with
                  | Some n => consUnit n (stringBody rest'')
                  | None => SyntaxError
                  end
              | _ => SyntaxError
              end
            else
              match escape e with
              | Some n => consUnit n (stringBody rest')
              | None => SyntaxError
              end
        end
      else if (N_of_ascii c <? 32)%N then SyntaxError
      else consUnit (N_of_ascii c) (stringBody rest)
  end.

(** [stripPrefix p s]: [s] without its prefix [p], when it has it. *)
Fixpoint stripPrefix (p s : string) : option string :=
  match p, s with
  | EmptyString, _ => Some s
  | String a p', String b s' => if Ascii.eqb a b then stripPrefix p' s' else None
  | String _ _, EmptyString => None
  end.

Definition literal (word : string) (v : value) (s : string) : parsed value :=
  match stripPrefix word s with
  | Some rest => Parsed v rest
  | None => SyntaxError
  end.

(** Whether the input, after white space, starts with [c], and what
    follows it. *)
Definition expect (c : ascii) (s : string) : option string :=
  match skipWs s with
  | String a rest => if Ascii.eqb a c then Some rest else None
  | EmptyString => None
  end.

(** The value at the head of [s], after white space.  [fuel] bounds the
    nesting of the calls; [parse_fuel_enough] shows that the bound
    [JSON.parse] starts from is never reached. *)
Fixpoint parseValue (fuel : nat) (s : string) : parsed value :=
  match fuel with
  | O => OutOfFuel
  | S fuel' =>
      match skipWs s with
      | EmptyString => SyntaxError
      | String c rest =>
          if Ascii.eqb c "[" then
            match expect "]" rest with
            | Some rest' => Parsed (Array []) rest'
            | None => parseElements fuel' rest []
            end
          else if Ascii.eqb c "{" then
            match expect "}" rest with
            | Some rest' => Parsed (Object []) rest'
            | None => parseMembers fuel' rest []
            end
          else if Ascii.eqb c "034" then
            match stringBody rest with
            | Parsed u rest' => Parsed (Str u) rest'
            | SyntaxError => SyntaxError
            | OutOfFuel => OutOfFuel
            end
          else if Ascii.eqb c "-" then number true rest
          else if Ascii.eqb c "t" then literal "true" (Bool true) (String c rest)
          else if Ascii.eqb c "f" then literal "false" (Bool false) (String c rest)
          else if Ascii.eqb c "n" then literal "null" Null (String c rest)
          else number false (String c rest)
      end
  end

(** The elements of an array after [acc] (held in reverse), up to and
    including the closing bracket. *)
with parseElements (fuel : nat) (s : string) (acc : list value) : parsed value :=
  match fuel with
  | O => OutOfFuel
  | S fuel' =>
      match parseValue fuel' s with
      | Parsed v rest =>
          match expect "," rest with
          | Some rest' => parseElements fuel' rest' (v :: acc)
          | None =>
              match expect "]" rest with
              | Some rest' => Parsed (Array (rev (v :: acc))) rest'
              | None => SyntaxError
              end
          end
      | r => r
      end
  end

(** The members of an object after [acc] (held in reverse), up to and
    including the closing brace. *)
with parseMembers (fuel : nat) (s : string) (acc : list (list N * value)) : parsed value :=
  match fuel with
  | O => OutOfFuel
  | S fuel' =>
      match expect "034" s with
      | None => SyntaxError
      | Some rest =>
          match stringBody rest with
          | Parsed key rest' =>
              match expect ":" rest' with
              | None => SyntaxError
              | Some rest'' =>
                  match parseValue fuel' rest'' with
                  | Parsed v rest3 =>
                      match expect "," rest3 with
                      | Some rest4 => parseMembers fuel' rest4 ((key, v) :: acc)
                      | None =>
                          match expect "}" rest3 with
                          | Some rest4 => Parsed (Object (rev ((key, v) :: acc))) rest4
                          | None => SyntaxError
                          end
                      end
                  | r => r
                  end
              end
          | SyntaxError => SyntaxError
          | OutOfFuel => OutOfFuel
          end
      end
  end.

(** [JSON.parse(text)]: [None] stands for the [SyntaxError] it throws. *)
Definition parse (text : string) : option value :=
  match parseValue (2 * String.length text + 1) text with
  | Parsed v rest =>
      match skipWs rest with
      | EmptyString => Some v
      | _ => None
      end
  | _ => None
  end.

End JSON.

(** The text the page submits for the three values Red, Green, Yellow:
    [JSON.stringify(["Red","Green","Yellow"])]. *)
Definition quoted (s : string) : string :=
  (String "034" s ++ String "034" EmptyString)%string.

Definition redGreenYellow : string :=
  ("[" ++ quoted "Red" ++ "," ++ quoted "Green" ++ "," ++ quoted "Yellow" ++ "]")%string.

(** ** The remote API and the effects of a route

    [admin.graphql(QUERY, { variables })] sends one request and awaits its
    response.  The world of a loader or action is the script of responses
    the remote will give, in order, and the log of the requests sent so
    far.  A request sent when the script is exhausted gets no response:
    [admin.graphql] throws, which the routes never catch.  Responses follow
    the GraphQL schema of the operation they answer (a node has an id, a
    title and options; [userErrors] is a list); reading the field of an
    operation out of the response to another one reads a property of
    [undefined], a [TypeError]. *)

Record UserError : Type := {
  field : option (list string);
  message : string;
  code : option string
}.

(** [{ name: v }], one entry of [OptionCreateInput.values]. *)
Record OptionValueCreateInput : Type := { value_name : JSON.value }.

Record OptionCreateInput : Type := {
  create_name : string;
  create_values : list OptionValueCreateInput
}.

Record OptionUpdateInput : Type := {
  update_id : string;
  update_name : string;
  update_position : Z
}.

(** The four operations of the two routes, with their variables. *)
Inductive Request : Type :=
  | AllProducts (first : Z) (after : option string)
  | AddOption (productId : string) (options : list OptionCreateInput)
  | UpdateOptionValues (productId : string) (option : OptionUpdateInput)
      (optionValuesToDelete : list string)
  | DeleteOptions (productId : string) (options : list string).

Inductive Exception : Type :=
  | TypeError
  | FetchError.

(** How an async function ends: it returns, it throws, or (for the model of
    a [while] loop only) its bound on the number of iterations is reached. *)
Inductive Outcome (A : Type) : Type :=
  | Returned (a : A)
  | Thrown (e : Exception)
  | Diverged.
Arguments Returned {A} a.
Arguments Thrown {A} e.
Arguments Diverged {A}.

Section Remote.

Context {Node : Type}.

Record Edge : Type := { cursor : string; node : Node }.

Inductive Response : Type :=
  | Products (edges : list Edge) (hasNextPage : bool)
  | ProductOptionsCreate (userErrors : list UserError)
  | ProductOptionUpdate (userErrors : list UserError)
  | ProductOptionsDelete (deletedOptionsIds : list string) (userErrors : list UserError).

Record World : Type := { script : list Response; log : list Request }.

Definition M (A : Type) : Type := World -> Outcome A * World.

Definition ret {A} (a : A) : M A := fun w => (Returned a, w).

Definition throw {A} (e : Exception) : M A := fun w => (Thrown e, w).

Definition bind {A B} (c : M A) (k : A -> M B) : M B :=
  fun w =>
    match c w with
    | (Returned a, w') => k a w'
    | (Thrown e, w') => (Thrown e, w')
    | (Diverged, w') => (Diverged, w')
    end.

(** [await admin.graphql(...)] followed by [await resp.json()]. *)
Definition graphql (req : Request) : M Response :=
  fun w =>
    match script w with
    | [] => (Thrown FetchError, {| script := []; log := log w ++ [req] |})
    | resp :: rest => (Returned resp, {| script := rest; log := log w ++ [req] |})
    end.

(** [data.products], destructured into [edges] and [pageInfo.hasNextPage]. *)
Definition data_products (resp : Response) : M (list Edge * bool) :=
  match resp with
  | Products edges hasNextPage => ret (edges, hasNextPage)
  | _ => throw TypeError
  end.

(** [result.data.productOptionsCreate.userErrors] *)
Definition data_productOptionsCreate (resp : Response) : M (list UserError) :=
  match resp with
  | ProductOptionsCreate userErrors => ret userErrors
  | _ => throw TypeError
  end.

(** [updRes.data.productOptionUpdate.userErrors] *)
Definition data_productOptionUpdate (resp : Response) : M (list UserError) :=
  match resp with
  | ProductOptionUpdate userErrors => ret userErrors
  | _ => throw TypeError
  end.

(** [delRes.data.productOptionsDelete.userErrors] *)
Definition data_productOptionsDelete (resp : Response) : M (list UserError) :=
  match resp with
  | ProductOptionsDelete _ userErrors => ret userErrors
  | _ => throw TypeError
  end.

End Remote.

Arguments Edge : clear implicits.
Arguments Response : clear implicits.
Arguments World : clear implicits.
Arguments M : clear implicits.

Declare Scope route_scope.
Delimit Scope route_scope with route.
Notation "x <- c ;; k" := (bind c (fun x => k))
  (at level 61, c at next level, right associativity) : route_scope.
Notation "' pat <- c ;; k" := (bind c (fun x => match x with pat => k end))
  (at level 61, pat pattern, c at next level, right associativity) : route_scope.
Local Open Scope route_scope.

(** What an action hands to [json(...)]: [success], and [error] or
    [addedCount] when the object has that property. *)
Record ActionData : Type := {
  success : bool;
  error : option string;
  addedCount : option nat
}.

(** [request.formData()]: [form.get(key)] is [null] (here [None]) for a
    key the form lacks. *)
Record FormData : Type := {
  form_optionName : option string;
  form_values : option string
}.

(** ** The pagination loop

    The loop is written four times in the sources (the loader and the
    action of each route), each time as

    [[
      while (hasNext) {
        resp = await admin.graphql(PRODUCTS_QUERY, { variables: { first: 250, after: cursor } });
        edges.forEach(({ node }) => all.push(node));
        hasNext = pageInfo.hasNextPage;
        cursor = hasNext ? <last edge>.cursor : null;
      }
    ]]

    and the texts differ only in the expression for the last edge:
    [edges.at(-1)] in app.additional.jsx, [edges[edges.length - 1]] in
    index.jsx.  [whileHasNext] takes that expression as [lastEdge]; it is
    entered with [hasNext = true], so one call is one iteration.  Every
    iteration that ends normally has consumed a response, so the length of
    the script bounds the iterations. *)

Section Pagination.

Context {Node : Type}.
Variable lastEdge : list (Edge Node) -> option (Edge Node).

Fixpoint whileHasNext (fuel : nat) (all : list Node) (cursor_ : option string)
  : M Node (list Node) :=
  match fuel with
  | O => fun w => (Diverged, w)
  | S fuel' =>
      resp <- graphql (AllProducts 250 cursor_) ;;
      '(edges, hasNextPage) <- data_products resp ;;
      let all := all ++ map node edges in
      if hasNextPage then
        match lastEdge edges with
        | Some e => whileHasNext fuel' all (Some (cursor e))
        | None => throw TypeError
        end
      else ret all
  end.

(** [const all = []; let hasNext = true; let cursor = null; while ...] *)
Definition fetchAllProducts : M Node (list Node) :=
  fun w => whileHasNext (S (List.length (script w))) [] None w.

End Pagination.

(** ** app/routes/app.additional.jsx: add an option to the products lacking it *)

Module Additional.

(** A node of [PRODUCTS_QUERY]: [id title options { id name }]. *)
Record ProductOption : Type := { optionId : string; name : string }.

Record Product : Type := {
  id : string;
  title : string;
  options : list ProductOption
}.

(** [data.products.edges.at(-1)] *)
Definition lastEdge (edges : list (Edge Product)) : option (Edge Product) :=
  JS.at_ edges (-1).

(** [loader]: the whole catalog, handed to [json({ products: all })]. *)
Definition loader : M Product (list Product) := fetchAllProducts lastEdge.

(** [p.options.some(o => o.name.toLowerCase() === optionName.toLowerCase())] *)
Definition hasOption (optionName : string) (p : Product) : bool :=
  existsb (fun o => String.eqb (JS.toLowerCase (name o)) (JS.toLowerCase optionName))
          (options p).

(** [all.filter(p => !p.options.some(...))] *)
Definition toAdd (optionName : string) (all : list Product) : list Product :=
  filter (fun p => negb (hasOption optionName p)) all.

(** [values.map(v => ({ name: v }))]: only an array has a [map] method;
    on any other parsed value the call throws a [TypeError]. *)
Definition mapValues (values : JSON.value) : M Product (list OptionValueCreateInput) :=
  match values with
  | JSON.Array vs => ret (map (fun v => {| value_name := v |}) vs)
  | _ => throw TypeError
  end.

(** [for (const prod of toAdd) { ... }], with [errors] as it stands when
    the remaining products are entered. *)
Fixpoint addLoop (optionName : string) (values : JSON.value)
    (prods : list Product) (errors : list string) : M Product (list string) :=
  match prods with
  | [] => ret errors
  | prod :: rest =>
      vs <- mapValues values ;;
      let optionInput := [{| create_name := optionName; create_values := vs |}] in
      resp <- graphql (AddOption (id prod) optionInput) ;;
      userErrors <- data_productOptionsCreate resp ;;
      let errors :=
        if (0 <? List.length userErrors)%nat
        then errors ++ map message userErrors
        else errors in
      addLoop optionName values rest errors
  end.

Definition failure (msg : string) : ActionData :=
  {| success := false; error := Some msg; addedCount := None |}.

Definition action (form : FormData) : M Product ActionData :=
  let optionName :=
    match form_optionName form with
    | Some s => JS.trim s
    | None => EmptyString
    end in
  let valuesJSON :=
    match form_values form with
    | Some s => s
    | None => EmptyString
    end in
  if negb (JS.truthy optionName) then
    ret (failure "Please enter an option name.")
  else if negb (JS.truthy valuesJSON) then
    ret (failure "Please provide three values.")
  else
    match JSON.parse valuesJSON with
    | None => ret (failure "Invalid values format.")
    | Some values =>
        all <- fetchAllProducts lastEdge ;;
        let toAdd := toAdd optionName all in
        errors <- addLoop optionName values toAdd [] ;;
        if (0 <? List.length errors)%nat then
          ret (failure (JS.join "; " errors))
        else
          ret {| success := true; error := None;
                 addedCount := Some (List.length toAdd) |}
    end.

End Additional.

(** ** app/routes/index.jsx: remove an option from the products having it *)

Module Index.

(** A node of [PRODUCTS_QUERY]:
    [id title options { id name position optionValues { id name } }]. *)
Record OptionValue : Type := { valueId : string; valueName : string }.

Record ProductOption : Type := {
  optionId : string;
  name : string;
  position : Z;
  optionValues : list OptionValue
}.

Record Product : Type := {
  id : string;
  title : string;
  options : list ProductOption
}.

(** [edges[edges.length - 1]] *)
Definition lastEdge (edges : list (Edge Product)) : option (Edge Product) :=
  JS.index edges (Z.of_nat (List.length edges) - 1).

Definition loader : M Product (list Product) := fetchAllProducts lastEdge.

(** [o.name.toLowerCase().includes(optionName.toLowerCase())] *)
Definition matches (optionName : string) (o : ProductOption) : bool :=
  JS.includes (JS.toLowerCase (name o)) (JS.toLowerCase optionName).

(** [prod.options.find(o => ...)] *)
Definition findOption (optionName : string) (prod : Product) : option ProductOption :=
  find (matches optionName) (options prod).

(** [opt.optionValues.map(v => v.id).slice(1)] *)
Definition toDelete (opt : ProductOption) : list string :=
  JS.slice1 (map valueId (optionValues opt)).

Definition updateRequest (prod : Product) (opt : ProductOption) : Request :=
  UpdateOptionValues (id prod)
    {| update_id := optionId opt; update_name := name opt;
       update_position := position opt |}
    (toDelete opt).

Definition deleteRequest (prod : Product) (opt : ProductOption) : Request :=
  DeleteOptions (id prod) [optionId opt].

(** The second half of the loop body: delete the single-value option. *)
Definition deleteOption (prod : Product) (opt : ProductOption) (errors : list string)
  : M Product (list string) :=
  resp <- graphql (deleteRequest prod opt) ;;
  userErrors <- data_productOptionsDelete resp ;;
  if (0 <? List.length userErrors)%nat
  then ret (errors ++ map message userErrors)
  else ret errors.

(** One iteration of [for (const prod of allProducts) { ... }]; the two
    [continue] statements are the two branches that return without calling
    [deleteOption]. *)
Definition removeFrom (optionName : string) (prod : Product) (errors : list string)
  : M Product (list string) :=
  match findOption optionName prod with
  | None => ret errors
  | Some opt =>
      if (1 <? List.length (optionValues opt))%nat then
        resp <- graphql (updateRequest prod opt) ;;
        ue <- data_productOptionUpdate resp ;;
        if (0 <? List.length ue)%nat
        then ret (errors ++ map message ue)
        else deleteOption prod opt errors
      else deleteOption prod opt errors
  end.

Fixpoint removeLoop (optionName : string) (prods : list Product) (errors : list string)
  : M Product (list string) :=
  match prods with
  | [] => ret errors
  | prod :: rest =>
      errors' <- removeFrom optionName prod errors ;;
      removeLoop optionName rest errors'
  end.

Definition failure (msg : string) : ActionData :=
  {| success := false; error := Some msg; addedCount := None |}.

Definition action (form : FormData) : M Product ActionData :=
  let optionName :=
    match form_optionName form with
    | Some s => JS.trim s
    | None => EmptyString
    end in
  if negb (JS.truthy optionName) then
    ret (failure "Please enter an option name.")
  else
    allProducts <- fetchAllProducts lastEdge ;;
    errors <- removeLoop optionName allProducts [] ;;
    if (0 <? List.length errors)%nat then
      ret (failure (JS.join "; " errors))
    else
      ret {| success := true; error := None; addedCount := None |}.

End Index.

(** * Vocabulary of the properties *)

(** ** Reading the catalog *)

(** A page of the product listing, as the claims speak of it. *)
Record Page (Node : Type) : Type := {
  page_edges : list (Edge Node);
  page_hasNextPage : bool
}.
Arguments page_edges {Node} p.
Arguments page_hasNextPage {Node} p.

Definition respond {Node} (p : Page Node) : Response Node :=
  Products (page_edges p) (page_hasNextPage p).

Definition pageNodes {Node} (p : Page Node) : list Node :=
  map node (page_edges p).

(** The last element of a list, if any. *)
Fixpoint lastOf {A} (l : list A) : option A :=
  match l with
  | [] => None
  | [x] => Some x
  | _ :: l' => lastOf l'
  end.

(** A page that announces a next page and has an edge to take its cursor
    from. *)
Definition continues {Node} (p : Page Node) : bool :=
  page_hasNextPage p && (0 <? List.length (page_edges p))%nat.

(** The requests a reader that starts with [after] sends for [pages]:
    each page's request carries the cursor of the last edge of the page
    before it. *)
Fixpoint requestsFor {Node} (after : option string) (pages : list (Page Node))
  : list Request :=
  match pages with
  | [] => []
  | p :: ps =>
      AllProducts 250 after
        :: requestsFor (option_map cursor (lastOf (page_edges p))) ps
  end.

Definition cursorAfter {Node} (after : option string) (pages : list (Page Node))
  : option string :=
  fold_left (fun _ p => option_map cursor (lastOf (page_edges p))) pages after.

Definition pageSize {Node} (p : Page Node) : nat := List.length (page_edges p).

(** ** Sample data for the scenarios *)

Definition decimal (n : nat) : string := NilEmpty.string_of_uint (Nat.to_uint n).

Definition gid (kind : string) (n : nat) : string :=
  ("gid://shopify/" ++ kind ++ "/" ++ decimal n)%string.

Module AdditionalSamples.
Import Additional.

(** Product number [n], with the options named in [names]. *)
Definition product (n : nat) (names : list string) : Product :=
  {| id := gid "Product" n;
     title := ("Product " ++ decimal n)%string;
     options := map (fun nm => {| optionId := gid "ProductOption" n; name := nm |}) names |}.

Definition edge (n : nat) (names : list string) : Edge Product :=
  {| cursor := ("cursor-" ++ decimal n)%string; node := product n names |}.

(** A page of the products [from .. from+size-1], each with a Size option. *)
Definition page (from size : nat) (hasNext : bool) : Page Product :=
  {| page_edges := map (fun n => edge n ["Size"]) (seq from size);
     page_hasNextPage := hasNext |}.

End AdditionalSamples.

Module IndexSamples.
Import Index.

Definition value (n : nat) (nm : string) : OptionValue :=
  {| valueId := gid "ProductOptionValue" n; valueName := nm |}.

(** Option number [n] named [nm], its values numbered from [10 * n]. *)
Definition productOption (n : nat) (nm : string) (values : list string) : ProductOption :=
  {| optionId := gid "ProductOption" n;
     name := nm;
     position := Z.of_nat n;
     optionValues := map (fun '(k, v) => value (10 * n + k) v)
                         (combine (seq 0 (List.length values)) values) |}.

Definition product (n : nat) (opts : list ProductOption) : Product :=
  {| id := gid "Product" n;
     title := ("Product " ++ decimal n)%string;
     options := opts |}.

Definition edge (n : nat) (opts : list ProductOption) : Edge Product :=
  {| cursor := ("cursor-" ++ decimal n)%string; node := product n opts |}.

Definition page (from size : nat) (hasNext : bool) : Page Product :=
  {| page_edges := map (fun n => edge n [productOption 1 "Size" ["S"; "M"]]) (seq from size);
     page_hasNextPage := hasNext |}.

End IndexSamples.

(** ** Vocabulary for the request log *)

(** Whatever its outcome, a computation leaves the log as it found it,
    followed by requests that all satisfy [P]. *)
Definition sends {Node A} (P : Request -> Prop) (c : M Node A) : Prop :=
  forall w out w', c w = (out, w') ->
    exists more, log w' = log w ++ more /\ Forall P more.

(** A computation only ever appends to the log of requests. *)
Definition appends {Node A} (c : M Node A) : Prop :=
  forall w out w', c w = (out, w') -> exists more, log w' = log w ++ more.

(** The fields of a form that pass the checks at the head of the add
    action: the option name is not empty once trimmed, the values field is
    not empty and parses to [values]. *)
Definition addFormPasses (form : FormData) (optionName : string) (values : JSON.value)
  : Prop :=
  exists rawName rawValues,
    form_optionName form = Some rawName
    /\ form_values form = Some rawValues
    /\ optionName = JS.trim rawName
    /\ JS.truthy optionName = true
    /\ JS.truthy rawValues = true
    /\ JSON.parse rawValues = Some values.

(** The same for the remove action, which reads the option name only. *)
Definition removeFormPasses (form : FormData) (optionName : string) : Prop :=
  exists rawName,
    form_optionName form = Some rawName
    /\ optionName = JS.trim rawName
    /\ JS.truthy optionName = true.

(** ** Vocabulary for the cursor of the pagination loop *)

(** In a route with loader [loader] and action [action]: when the reader
    has been given pages that continue, the last of them ending with the
    edge [e], the next request it sends carries the cursor of [e]. *)
Definition cursorReadFromLastEdge {Node} (loader : M Node (list Node))
    (action : M Node ActionData) : Prop :=
  forall (before : list (Page Node)) (p : Page Node) es e rest sent,
    forallb continues before = true ->
    page_hasNextPage p = true ->
    page_edges p = es ++ [e] ->
    let w := {| script := map respond (before ++ [p]) ++ rest; log := sent |} in
    let requests :=
      sent ++ requestsFor None (before ++ [p]) ++ [AllProducts 250 (Some (cursor e))] in
    (exists out w' more, loader w = (out, w') /\ log w' = requests ++ more)
    /\ (exists out w' more, action w = (out, w') /\ log w' = requests ++ more).

(** In a route with loader [loader] and action [action]: a response with
    [hasNextPage = true] and no edge, after pages that continue, makes both
    throw a [TypeError] once that response is read; nothing is requested
    after it. *)
Definition emptyPageAborts {Node} (loader : M Node (list Node))
    (action : M Node ActionData) : Prop :=
  forall (before : list (Page Node)) rest sent,
    forallb continues before = true ->
    let w := {| script := map respond before ++ Products [] true :: rest;
                log := sent |} in
    let w' := {| script := rest;
                 log := sent ++ requestsFor None before
                             ++ [AllProducts 250 (cursorAfter None before)] |} in
    loader w = (Thrown TypeError, w') /\ action w = (Thrown TypeError, w').

(** The forms of the scenarios: add Color with three values; remove the
    options whose name contains "pack weight". *)
Definition colorForm : FormData :=
  {| form_optionName := Some " Color "; form_values := Some redGreenYellow |}.

Definition colorValues : JSON.value :=
  JSON.Array [JSON.Str (JSON.codeUnits "Red");
              JSON.Str (JSON.codeUnits "Green");
              JSON.Str (JSON.codeUnits "Yellow")].

Definition packWeightForm : FormData :=
  {| form_optionName := Some "pack weight"; form_values := None |}.

(** ** Vocabulary for the add workflow *)

(** The create-option request the add loop sends for [prod]. *)
Definition createRequest (optionName : string) (vs : list JSON.value)
    (prod : Additional.Product) : Request :=
  AddOption (Additional.id prod)
    [{| create_name := optionName;
        create_values := map (fun v => {| value_name := v |}) vs |}].

(** [prod] has an option named [optionName], letter case aside. *)
Definition hasOptionNamed (optionName : string) (prod : Additional.Product) : Prop :=
  exists o, In o (Additional.options prod)
            /\ JS.toLowerCase (Additional.name o) = JS.toLowerCase optionName.

(** How many of the answered calls reported user errors. *)
Definition reporting (answers : list (list UserError)) : nat :=
  List.length (filter (fun ue => (0 <? List.length ue)%nat) answers).

(** The catalog of the add scenario: three products, of which the second
    has a Color option already (written in capitals). *)
Definition threeProducts : Page Additional.Product :=
  {| page_edges := [AdditionalSamples.edge 1 ["Size"];
                    AdditionalSamples.edge 2 ["Size"; "COLOR"];
                    AdditionalSamples.edge 3 []];
     page_hasNextPage := false |}.

(** ** Vocabulary for the remove workflow *)

(** [t] occurs in [s], letter case aside. *)
Definition containsIgnoringCase (s t : string) : Prop :=
  exists pre post,
    JS.toLowerCase s = (pre ++ JS.toLowerCase t ++ post)%string.

(** The first request the remove loop sends for the option [opt] of
    [prod]: a value trim when the option has several values, else the
    deletion of the option. *)
Definition firstRequest (prod : Index.Product) (opt : Index.ProductOption) : Request :=
  if (1 <? List.length (Index.optionValues opt))%nat
  then Index.updateRequest prod opt
  else Index.deleteRequest prod opt.

(** A request leaves the options of [catalog] a value: if it is an
    update-option request, it is the one built for an option of a product
    of [catalog], and its delete list is the ids of that option's values
    but the first, fewer than the option has values.  Requests of the other
    operations delete no value. *)
Definition leavesAValue (catalog : list Index.Product) (r : Request) : Prop :=
  match r with
  | UpdateOptionValues productId option_ optionValuesToDelete =>
      exists prod opt,
        In prod catalog
        /\ In opt (Index.options prod)
        /\ productId = Index.id prod
        /\ update_id option_ = Index.optionId opt
        /\ optionValuesToDelete = map Index.valueId (tl (Index.optionValues opt))
        /\ List.length optionValuesToDelete < List.length (Index.optionValues opt)
  | _ => True
  end.

(** A request that is not an update-option request: it lists no value to
    delete. *)
Definition deletesNoValue (r : Request) : Prop :=
  match r with
  | UpdateOptionValues _ _ _ => False
  | _ => True
  end.





(** The product of the remove scenario: its second option, Pack weight,
    has three values; its third matches the search term too. *)
Definition packWeight : Index.ProductOption :=
  IndexSamples.productOption 2 "Pack Weight" ["1 kg"; "2 kg"; "5 kg"].

Definition packProduct : Index.Product :=
  IndexSamples.product 1
    [IndexSamples.productOption 1 "Size" ["S"; "M"];
     packWeight;
     IndexSamples.productOption 3 "Gift pack weight" ["none"]].

Definition packPage : Page Index.Product :=
  {| page_edges := [{| cursor := "cursor-1"; node := packProduct |}];
     page_hasNextPage := false |}.

Definition rejection : UserError :=
  {| field := Some ["optionValuesToDelete"];
     message := "Cannot delete option values";
     code := Some "INVALID" |}.

(** The user errors a mutation response carries. *)
Definition userErrorsOf {Node} (resp : Response Node) : list UserError :=
  match resp with
  | Products _ _ => []
  | ProductOptionsCreate userErrors => userErrors
  | ProductOptionUpdate userErrors => userErrors
  | ProductOptionsDelete _ userErrors => userErrors
  end.

(** [resp] is a response to the operation of [req]. *)
Definition answersTo {Node} (req : Request) (resp : Response Node) : bool :=
  match req, resp with
  | AllProducts _ _, Products _ _ => true
  | AddOption _ _, ProductOptionsCreate _ => true
  | UpdateOptionValues _ _ _, ProductOptionUpdate _ => true
  | DeleteOptions _ _, ProductOptionsDelete _ _ => true
  | _, _ => false
  end.

(** The removal protocol in the words of the specification, for a remote
    that answers each request with [remote]: skip a product with no
    matching option; for a matched option with more than one value send
    the update, and skip the deletion if the update reports errors;
    otherwise send the deletion. *)
Definition removalRequests (remote : Request -> Response Index.Product)
    (optionName : string) (prod : Index.Product) : list Request :=
  match Index.findOption optionName prod with
  | None => []
  | Some opt =>
      if (1 <? List.length (Index.optionValues opt))%nat then
        if (0 <? List.length (userErrorsOf (remote (Index.updateRequest prod opt))))%nat
        then [Index.updateRequest prod opt]
        else [Index.updateRequest prod opt; Index.deleteRequest prod opt]
      else [Index.deleteRequest prod opt]
  end.

Definition removalPlan (remote : Request -> Response Index.Product)
    (optionName : string) (prods : list Index.Product) : list Request :=
  flat_map (removalRequests remote optionName) prods.

(** A remote that rejects every value trim and accepts the rest. *)
Definition rejectingRemote (req : Request) : Response Index.Product :=
  match req with
  | AllProducts _ _ => Products [] false
  | AddOption _ _ => ProductOptionsCreate []
  | UpdateOptionValues _ _ _ => ProductOptionUpdate [rejection]
  | DeleteOptions _ ids => ProductOptionsDelete ids []
  end.

(** ** Vocabulary for the aggregation of errors *)

(** The messages of the user errors of all answers, in call order. *)
Definition aggregate (answers : list (list UserError)) : list string :=
  map message (List.concat answers).

(** The user errors with which [remote] answers the requests of [plan]. *)
Definition answersOf {Node} (remote : Request -> Response Node) (plan : list Request)
  : list (list UserError) :=
  map (fun req => userErrorsOf (remote req)) plan.

Definition invalidName : UserError :=
  {| field := Some ["options"; "0"; "name"];
     message := "Option name is invalid";
     code := None |}.

Definition tooManyOptions : UserError :=
  {| field := Some ["options"];
     message := "Cannot create more than 3 options";
     code := None |}.


(** Forms for the validation properties. *)
Definition blankNameForm : FormData :=
  {| form_optionName := Some "   "; form_values := Some redGreenYellow |}.

Definition noValuesForm : FormData :=
  {| form_optionName := Some "Color"; form_values := None |}.

Definition unparseableForm : FormData :=
  {| form_optionName := Some "Color"; form_values := Some "Red, Green, Yellow" |}.

Definition emptyListForm : FormData :=
  {| form_optionName := Some "Color"; form_values := Some "[]" |}.

Definition fiveForm : FormData :=
  {| form_optionName := Some "Color"; form_values := Some "5" |}.

(** The world of the add scenario: the catalog on one page, and an
    accepting answer for each of the two products lacking Color. *)
Definition addWorld : World Additional.Product :=
  {| script := [respond threeProducts; ProductOptionsCreate []; ProductOptionsCreate []];
     log := [] |}.

Definition removeWorld : World Index.Product :=
  {| script := [respond packPage; ProductOptionUpdate [];
                ProductOptionsDelete [gid "ProductOption" 2] []];
     log := [] |}.

(** A computation ends, by returning or by throwing, in every world. *)
Definition terminates {Node A} (c : M Node A) : Prop :=
  forall w, fst (c w) <> Diverged.

(** * The pages of the two routes

    The default export of each route file is a React component.  Its
    state ([useState], [useRef]) is a record, the values it derives with
    [useMemo] are functions of that record, and its event handlers are
    functions from state to state, or to what they hand to
    [fetcher.submit]. *)

(** ** [JSON.stringify] of an array of strings

    The add page sends its values as [JSON.stringify(values)].  On an
    array of strings this writes the quoted strings between brackets,
    separated by commas; quoting escapes the quote, the backslash and the
    control characters (QuoteJSONString of ECMA-262). *)

Module Stringify.

Definition hexLower (n : N) : ascii :=
  if (n <? 10)%N then ascii_of_N (48 + n) else ascii_of_N (87 + n).

(** [\u00XY] for a code unit below 256. *)
Definition unicodeEscape (n : N) : string :=
  String "092" (String "u" (String "0" (String "0"
    (String (hexLower (n / 16)) (String (hexLower (n mod 16)) EmptyString))))).

Definition quoteChar (c : ascii) : string :=
  let n := N_of_ascii c in
  if (n =? 8)%N then String "092" "b"
  else if (n =? 9)%N then String "092" "t"
  else if (n =? 10)%N then String "092" "n"
  else if (n =? 12)%N then String "092" "f"
  else if (n =? 13)%N then String "092" "r"
  else if (n =? 34)%N then String "092" (String "034" EmptyString)
  else if (n =? 92)%N then String "092" (String "092" EmptyString)
  else if (n <? 32)%N then unicodeEscape n
  else String c EmptyString.

Fixpoint quoteBody (s : string) : string :=
  match s with
  | EmptyString => EmptyString
  | String c s' => (quoteChar c ++ quoteBody s')%string
  end.

Definition quote (s : string) : string :=
  String "034" (quoteBody s ++ String "034" EmptyString)%string.

(** [JSON.stringify(values)] for an array of strings. *)
Definition strings (values : list string) : string :=
  ("[" ++ JS.join "," (map quote values) ++ "]")%string.

End Stringify.

(** ** The page of app/routes/app.additional.jsx *)

Module AdditionalPage.

(** [const [optionName, setOptionName] = useState("")] and
    [const [values, setValues] = useState(["", "", ""])]. *)
Record State : Type := {
  optionName : string;
  values : list string
}.

Definition initial : State :=
  {| optionName := EmptyString; values := [EmptyString; EmptyString; EmptyString] |}.

(** The [missing] memo: the products the banner counts and the list
    shows. *)
Definition missing (products : list Additional.Product) (st : State)
  : list Additional.Product :=
  if negb (JS.truthy (JS.trim (optionName st))) then []
  else filter (fun p => negb (Additional.hasOption (optionName st) p)) products.

(** [missing.length > 0 && (...)]: the value fields and the button are
    rendered. *)
Definition buttonShown (products : list Additional.Product) (st : State) : bool :=
  (0 <? List.length (missing products st))%nat.

(** [disabled={fetcher.state === "submitting" || values.some(v => !v)}] *)
Definition buttonDisabled (submitting : bool) (st : State) : bool :=
  submitting || existsb (fun v => negb (JS.truthy v)) (values st).

(** The button can be clicked. *)
Definition canSubmit (products : list Additional.Product) (submitting : bool)
    (st : State) : bool :=
  buttonShown products st && negb (buttonDisabled submitting st).

(** [fetcher.submit({ optionName, values: JSON.stringify(values) }, ...)] *)
Definition submit (st : State) : FormData :=
  {| form_optionName := Some (optionName st);
     form_values := Some (Stringify.strings (values st)) |}.

(** [const next = [...values]; next[i] = v;] for an index within the
    array or just after it.  Beyond that JavaScript leaves holes, which a
    list of strings does not hold: [None]. *)
Fixpoint assign (arr : list string) (i : nat) (v : string) : option (list string) :=
  match i, arr with
  | O, [] => Some [v]
  | O, _ :: rest => Some (v :: rest)
  | S _, [] => None
  | S i', x :: rest => option_map (cons x) (assign rest i' v)
  end.

(** What happens on the page: the name field changes or is cleared, the
    value field [i] changes ([i] is one of the [[0, 1, 2]] the fields are
    rendered from), or the action has answered with success. *)
Inductive Event : Type :=
  | OptionNameChanged (v : string)
  | OptionNameCleared
  | ValueChanged (i : nat) (v : string)
  | Added.

Definition allowed (ev : Event) : bool :=
  match ev with
  | ValueChanged i _ => existsb (Nat.eqb i) [0; 1; 2]
  | _ => true
  end.

(** The handlers, and the effect that resets the state after a success. *)
Definition handle (st : State) (ev : Event) : option State :=
  match ev with
  | OptionNameChanged v => Some {| optionName := v; values := values st |}
  | OptionNameCleared => Some {| optionName := EmptyString; values := values st |}
  | ValueChanged i v =>
      option_map (fun next => {| optionName := optionName st; values := next |})
                 (assign (values st) i v)
  | Added => Some initial
  end.

(** The states the page goes through. *)
Inductive reachable : State -> Prop :=
  | reachable_initial : reachable initial
  | reachable_handle st ev st' :
      reachable st -> allowed ev = true -> handle st ev = Some st' ->
      reachable st'.

End AdditionalPage.

(** ** The page of app/routes/index.jsx *)

Module IndexPage.

(** [localProducts], [searchTerm] and the ref [lastTerm]. *)
Record State : Type := {
  localProducts : list Index.Product;
  searchTerm : string;
  lastTerm : string
}.

(** [useState(products)], [useState("")], [useRef("")]. *)
Definition initial (products : list Index.Product) : State :=
  {| localProducts := products; searchTerm := EmptyString; lastTerm := EmptyString |}.

(** [p.options.some(o => o.name.toLowerCase().includes(term.toLowerCase()))] *)
Definition hasMatch (term : string) (p : Index.Product) : bool :=
  existsb (Index.matches term) (Index.options p).

(** The [filtered] memo: the products the banner and the button count. *)
Definition filtered (st : State) : list Index.Product :=
  if negb (JS.truthy (JS.trim (searchTerm st))) then localProducts st
  else filter (hasMatch (searchTerm st)) (localProducts st).

(** What a click on the button does: a toast, or a submission. *)
Inductive Clicked : Type :=
  | ToastError (msg : string)
  | Submitted (form : FormData).

(** The [onClick] of the button. *)
Definition onClick (st : State) : State * Clicked :=
  let term := JS.trim (searchTerm st) in
  if negb (JS.truthy term) then
    (st, ToastError "Enter an option name first")
  else
    ({| localProducts := localProducts st; searchTerm := searchTerm st;
        lastTerm := term |},
     Submitted {| form_optionName := Some term; form_values := None |}).

(** [{ ...p, options: p.options.filter(o => !o.name.toLowerCase().includes(term.toLowerCase())) }] *)
Definition withoutOption (term : string) (p : Index.Product) : Index.Product :=
  {| Index.id := Index.id p;
     Index.title := Index.title p;
     Index.options := filter (fun o => negb (Index.matches term o)) (Index.options p) |}.

(** The effect run when the action has answered with success: the option
    is removed from the local products and the search term is reset. *)
Definition onSuccess (st : State) : State :=
  {| localProducts := map (withoutOption (lastTerm st)) (localProducts st);
     searchTerm := EmptyString;
     lastTerm := lastTerm st |}.

End IndexPage.

(** ** Vocabulary for the further properties *)

(** A product listing of 250 products per page. *)
Definition isListing (r : Request) : Prop :=
  exists after, r = AllProducts 250 after.

(** A create-option request for the one option [optionName]. *)
Definition createsOption (optionName : string) (r : Request) : Prop :=
  exists productId vs,
    r = AddOption productId [{| create_name := optionName; create_values := vs |}].

(** A request of the removal protocol: an update of one option or the
    deletion of one option. *)
Definition trimsOrDeletes (r : Request) : Prop :=
  match r with
  | UpdateOptionValues _ _ _ => True
  | DeleteOptions _ [_] => True
  | _ => False
  end.

(** The request names the option [optionId], to update it or to delete
    it. *)
Definition mentionsOption (optionId : string) (r : Request) : Prop :=
  match r with
  | UpdateOptionValues _ o _ => update_id o = optionId
  | DeleteOptions _ ids => In optionId ids
  | _ => False
  end.

(** The option name the add and remove actions work with: the form field
    trimmed, or the empty string when the form lacks the field. *)
Definition trimmedName (form : FormData) : string :=
  match form_optionName form with
  | Some s => JS.trim s
  | None => EmptyString
  end.

(** No option name of the catalog has white space around it. *)
Definition namesTrimmed (products : list Additional.Product) : Prop :=
  forall p o, In p products -> In o (Additional.options p) ->
    JS.trim (Additional.name o) = Additional.name o.

(** States of the pages for the scenarios. *)
Definition typedColor : AdditionalPage.State :=
  {| AdditionalPage.optionName := "Color";
     AdditionalPage.values := ["Red"; "Green"; "Yellow"] |}.

Definition typedPaddedColor : AdditionalPage.State :=
  {| AdditionalPage.optionName := " Color";
     AdditionalPage.values := ["Red"; "Green"; "Yellow"] |}.

(** The search term typed with a space after it, and the state after the
    action has answered a removal of "pack" with success. *)
Definition searchingPack : IndexPage.State :=
  {| IndexPage.localProducts := [packProduct];
     IndexPage.searchTerm := "Pack ";
     IndexPage.lastTerm := EmptyString |}.

Definition removedPack : IndexPage.State :=
  {| IndexPage.localProducts := [packProduct];
     IndexPage.searchTerm := "Pack ";
     IndexPage.lastTerm := "Pack" |}.

Definition giftPackWeight : Index.ProductOption :=
  IndexSamples.productOption 3 "Gift pack weight" ["none"].

(** Whatever its outcome, a computation appends at most [n] requests to
    the log. *)
Definition sendsAtMost {Node A} (n : nat) (c : M Node A) : Prop :=
  forall w out w', c w = (out, w') ->
    exists more, log w' = log w ++ more /\ List.length more <= n.

(** An empty catalog: one page without edges that announces no other. *)
Definition emptyPage {Node} : Page Node :=
  {| page_edges := []; page_hasNextPage := false |}.

(** A remote that accepts every mutation. *)
Definition acceptingRemote (req : Request) : Response Index.Product :=
  match req with
  | AllProducts _ _ => Products [] false
  | AddOption _ _ => ProductOptionsCreate []
  | UpdateOptionValues _ _ _ => ProductOptionUpdate []
  | DeleteOptions _ ids => ProductOptionsDelete ids []
  end.


(** * Properties *)

(** ** Sanity checks of the JavaScript library model *)

Example trim_ex : JS.trim "  Pack weight  " = "Pack weight".
Proof. reflexivity. Qed.

Example lower_ex : JS.toLowerCase "CoLoR" = "color".
Proof. reflexivity. Qed.

Example includes_ex : JS.includes "pack weight" "weig" = true.
Proof. reflexivity. Qed.

Example includes_ex2 : JS.includes "pack weight" "wait" = false.
Proof. reflexivity. Qed.

Example join_ex : JS.join "; " ["a"; "b"; "c"] = "a; b; c".
Proof. reflexivity. Qed.

Example at_ex : JS.at_ [1; 2; 3] (-1) = Some 3 /\ JS.at_ (@nil nat) (-1) = None.
Proof. split; reflexivity. Qed.

Example parse_values :
  JSON.parse redGreenYellow
  = Some (JSON.Array [JSON.Str (JSON.codeUnits "Red");
                      JSON.Str (JSON.codeUnits "Green");
                      JSON.Str (JSON.codeUnits "Yellow")]).
Proof. reflexivity. Qed.

Example parse_number : JSON.parse "5" = Some (JSON.Number false 5 0).
Proof. reflexivity. Qed.

Example parse_nested :
  JSON.parse (" { " ++ quoted "a" ++ " : [1.50e2, true, null, {}] } ")%string
  = Some (JSON.Object
            [(JSON.codeUnits "a",
              JSON.Array [JSON.Number false 150 0; JSON.Bool true;
                          JSON.Null; JSON.Object []])]).
Proof. reflexivity. Qed.

Example parse_errors :
  JSON.parse EmptyString = None /\ JSON.parse "[1,]" = None /\ JSON.parse "01" = None
  /\ JSON.parse "Red" = None /\ JSON.parse "[1] x" = None.
Proof. repeat split; reflexivity. Qed.

(** ** [JSON.parse] never reaches its bound *)

Module JSONFacts.
Import JSON.

Lemma skipWs_length s : String.length (skipWs s) <= String.length s.
Proof.
  induction s as [|c s IH]; [reflexivity|].
  cbn [skipWs]. destruct (isWs c); cbn [String.length]; lia.
Qed.

Lemma expect_length c s rest :
  expect c s = Some rest -> String.length rest < String.length s.
Proof.
  unfold expect. pose proof (skipWs_length s) as H.
  destruct (skipWs s) as [|a r]; [discriminate|].
  destruct (Ascii.eqb a c); [|discriminate].
  intros E. inversion E; subst. cbn [String.length] in H. lia.
Qed.

Lemma digits_length s :
  forall acc n m k rest,
  digits s acc n = (m, k, rest) -> String.length rest <= String.length s.
Proof.
  induction s as [|c s IH]; intros acc n m k rest; cbn [digits].
  - intros E. inversion E. reflexivity.
  - destruct (digit c).
    + intros E. apply IH in E. cbn [String.length]. lia.
    + intros E. inversion E. reflexivity.
Qed.

Lemma stripPrefix_length p :
  forall s rest,
  stripPrefix p s = Some rest ->
  String.length s = String.length p + String.length rest.
Proof.
  induction p as [|a p IH]; intros s rest; cbn [stripPrefix].
  - intros E. inversion E. reflexivity.
  - destruct s as [|b s]; [discriminate|].
    destruct (Ascii.eqb a b); [|discriminate].
    intros E. apply IH in E. cbn [String.length]. lia.
Qed.

Lemma integerPart_length s m rest :
  integerPart s = Some (m, rest) -> String.length rest < String.length s.
Proof.
  unfold integerPart. destruct s as [|c s]; [discriminate|].
  destruct (Ascii.eqb c "0").
  - intros E. inversion E. cbn [String.length]. lia.
  - destruct (digit c) as [d|]; [|discriminate].
    destruct (digits s d 0) as [[m' k] r] eqn:Ed.
    intros E. inversion E; subst. apply digits_length in Ed.
    cbn [String.length]. lia.
Qed.

Lemma fraction_length m s m' e rest :
  fraction m s = Some (m', e, rest) -> String.length rest <= String.length s.
Proof.
  unfold fraction. destruct s as [|c s].
  - intros E. inversion E. reflexivity.
  - destruct (Ascii.eqb c ".").
    + destruct (digits s m 0) as [[m1 k] r] eqn:Ed. apply digits_length in Ed.
      destruct k; [discriminate|]. intros E. inversion E; subst.
      cbn [String.length]. lia.
    + intros E. inversion E. reflexivity.
Qed.

Lemma unsignedExponent_length sign s e rest :
  unsignedExponent sign s = Some (e, rest) ->
  String.length rest <= String.length s.
Proof.
  unfold unsignedExponent. destruct (digits s 0 0) as [[m k] r] eqn:Ed.
  apply digits_length in Ed. destruct k; [discriminate|].
  intros E. inversion E; subst. exact Ed.
Qed.

Lemma exponent_length s e rest :
  exponent s = Some (e, rest) -> String.length rest <= String.length s.
Proof.
  unfold exponent. destruct s as [|c s].
  - intros E. inversion E. reflexivity.
  - destruct (Ascii.eqb c "e" || Ascii.eqb c "E")%bool.
    + destruct s as [|d s]; [discriminate|].
      destruct (Ascii.eqb d "+"); [|destruct (Ascii.eqb d "-")];
        intros E; apply unsignedExponent_length in E;
        cbn [String.length] in *; lia.
    + intros E. inversion E. reflexivity.
Qed.

Lemma number_length neg s v rest :
  number neg s = Parsed v rest -> String.length rest < String.length s.
Proof.
  unfold number.
  destruct (integerPart s) as [[m r]|] eqn:Ei; [|discriminate].
  destruct (fraction m r) as [[[m' e1] r']|] eqn:Ef; [|discriminate].
  destruct (exponent r') as [[e2 r'']|] eqn:Ee; [|discriminate].
  intros E. inversion E; subst.
  apply integerPart_length in Ei. apply fraction_length in Ef.
  apply exponent_length in Ee. lia.
Qed.

Lemma number_fuel neg s : number neg s <> OutOfFuel.
Proof.
  unfold number.
  destruct (integerPart s) as [[m r]|]; [|discriminate].
  destruct (fraction m r) as [[[m' e1] r']|]; [|discriminate].
  destruct (exponent r') as [[e2 r'']|]; discriminate.
Qed.

Lemma literal_length word v s v' rest :
  literal word v s = Parsed v' rest ->
  String.length s = String.length word + String.length rest.
Proof.
  unfold literal. destruct (stripPrefix word s) as [r|] eqn:E; [|discriminate].
  intros H. inversion H; subst. now apply stripPrefix_length.
Qed.

Lemma literal_fuel word v s : literal word v s <> OutOfFuel.
Proof. unfold literal. destruct (stripPrefix word s); discriminate. Qed.

Lemma consUnit_parsed n r u rest :
  consUnit n r = Parsed u rest -> exists u', r = Parsed u' rest.
Proof. destruct r; try discriminate. intros E. inversion E. now exists a. Qed.

Lemma stringBody_bounded n :
  forall s, String.length s <= n ->
  stringBody s <> OutOfFuel
  /\ forall u rest, stringBody s = Parsed u rest ->
       String.length rest < String.length s.
Proof.
  induction n as [|n IH]; intros s Hn.
  - destruct s; [|cbn in Hn; lia]. split; [discriminate|discriminate].
  - destruct s as [|c s]; [split; discriminate|].
    cbn [String.length] in Hn. cbn [stringBody].
    destruct (Ascii.eqb c "034").
    { split; [discriminate|]. intros u rest E. inversion E. cbn. lia. }
    destruct (Ascii.eqb c "092").
    { destruct s as [|e s]; [split; discriminate|].
      cbn [String.length] in Hn.
      destruct (Ascii.eqb e "u").
      - destruct s as [|h1 [|h2 [|h3 [|h4 s]]]]; try (split; discriminate).
        destruct (hex4 h1 h2 h3 h4); [|split; discriminate].
        cbn [String.length] in *.
        destruct (IH s ltac:(lia)) as [Hf Hl]. split.
        + destruct (stringBody s); [discriminate|discriminate|contradiction].
        + intros u rest E. apply consUnit_parsed in E as [u' E].
          apply Hl in E. lia.
      - destruct (escape e); [|split; discriminate].
        destruct (IH s ltac:(lia)) as [Hf Hl]. split.
        + destruct (stringBody s); [discriminate|discriminate|contradiction].
        + intros u rest E. apply consUnit_parsed in E as [u' E].
          apply Hl in E. cbn [String.length]. lia. }
    destruct (N_of_ascii c <? 32)%N; [split; discriminate|].
    destruct (IH s ltac:(lia)) as [Hf Hl]. split.
    + destruct (stringBody s); [discriminate|discriminate|contradiction].
    + intros u rest E. apply consUnit_parsed in E as [u' E].
      apply Hl in E. cbn [String.length]. lia.
Qed.

Lemma stringBody_length s u rest :
  stringBody s = Parsed u rest -> String.length rest < String.length s.
Proof. apply (stringBody_bounded (String.length s) s (le_n _)). Qed.

Lemma stringBody_fuel s : stringBody s <> OutOfFuel.
Proof. apply (stringBody_bounded (String.length s) s (le_n _)). Qed.

(** What a parsing function leaves unread is shorter than its input. *)
Lemma parse_consumes fuel :
  (forall s v rest, parseValue fuel s = Parsed v rest ->
     String.length rest < String.length s)
  /\ (forall s acc v rest, parseElements fuel s acc = Parsed v rest ->
        String.length rest < String.length s)
  /\ (forall s acc v rest, parseMembers fuel s acc = Parsed v rest ->
        String.length rest < String.length s).
Proof.
  induction fuel as [|fuel (IHv & IHe & IHm)].
  - repeat split; discriminate.
  - split; [|split].
    + intros s v rest. cbn [parseValue].
      pose proof (skipWs_length s) as Hs.
      destruct (skipWs s) as [|c r]; [discriminate|].
      cbn [String.length] in Hs.
      destruct (Ascii.eqb c "[").
      { destruct (expect "]" r) as [r'|] eqn:E.
        - intros H. inversion H; subst. apply expect_length in E. lia.
        - intros H. apply IHe in H. lia. }
      destruct (Ascii.eqb c "{").
      { destruct (expect "}" r) as [r'|] eqn:E.
        - intros H. inversion H; subst. apply expect_length in E. lia.
        - intros H. apply IHm in H. lia. }
      destruct (Ascii.eqb c "034").
      { destruct (stringBody r) as [u r'| |] eqn:E; try discriminate.
        intros H. inversion H; subst. apply stringBody_length in E. lia. }
      destruct (Ascii.eqb c "-").
      { intros H. apply number_length in H. lia. }
      destruct (Ascii.eqb c "t").
      { intros H. apply literal_length in H. cbn [String.length] in H. lia. }
      destruct (Ascii.eqb c "f").
      { intros H. apply literal_length in H. cbn [String.length] in H. lia. }
      destruct (Ascii.eqb c "n").
      { intros H. apply literal_length in H. cbn [String.length] in H. lia. }
      intros H. apply number_length in H. cbn [String.length] in H. lia.
    + intros s acc v rest. cbn [parseElements].
      destruct (parseValue fuel s) as [v1 r1| |] eqn:Ev; try discriminate.
      apply IHv in Ev.
      destruct (expect "," r1) as [r2|] eqn:Ec.
      { apply expect_length in Ec. intros H. apply IHe in H. lia. }
      destruct (expect "]" r1) as [r2|] eqn:Eb; [|discriminate].
      apply expect_length in Eb. intros H. inversion H; subst. lia.
    + intros s acc v rest. cbn [parseMembers].
      destruct (expect "034" s) as [r0|] eqn:Eq; [|discriminate].
      apply expect_length in Eq.
      destruct (stringBody r0) as [key r1| |] eqn:Ek; try discriminate.
      apply stringBody_length in Ek.
      destruct (expect ":" r1) as [r2|] eqn:Ecol; [|discriminate].
      apply expect_length in Ecol.
      destruct (parseValue fuel r2) as [v1 r3| |] eqn:Ev; try discriminate.
      apply IHv in Ev.
      destruct (expect "," r3) as [r4|] eqn:Ec.
      { apply expect_length in Ec. intros H. apply IHm in H. lia. }
      destruct (expect "}" r3) as [r4|] eqn:Eb; [|discriminate].
      apply expect_length in Eb. intros H. inversion H; subst. lia.
Qed.

(** Two units of fuel per character are enough. *)
Lemma parse_fuel fuel :
  (forall s, 2 * String.length s + 1 <= fuel -> parseValue fuel s <> OutOfFuel)
  /\ (forall s acc, 2 * String.length s + 2 <= fuel ->
        parseElements fuel s acc <> OutOfFuel)
  /\ (forall s acc, 2 * String.length s + 2 <= fuel ->
        parseMembers fuel s acc <> OutOfFuel).
Proof.
  induction fuel as [|fuel (IHv & IHe & IHm)].
  - repeat split; intros; lia.
  - destruct (parse_consumes fuel) as (Cv & Ce & Cm).
    split; [|split].
    + intros s Hf. cbn [parseValue].
      pose proof (skipWs_length s) as Hs.
      destruct (skipWs s) as [|c r]; [discriminate|].
      cbn [String.length] in Hs.
      destruct (Ascii.eqb c "[").
      { destruct (expect "]" r); [discriminate|]. apply IHe. lia. }
      destruct (Ascii.eqb c "{").
      { destruct (expect "}" r); [discriminate|]. apply IHm. lia. }
      destruct (Ascii.eqb c "034").
      { pose proof (stringBody_fuel r).
        destruct (stringBody r); [discriminate|discriminate|contradiction]. }
      destruct (Ascii.eqb c "-"); [apply number_fuel|].
      destruct (Ascii.eqb c "t"); [apply literal_fuel|].
      destruct (Ascii.eqb c "f"); [apply literal_fuel|].
      destruct (Ascii.eqb c "n"); [apply literal_fuel|].
      apply number_fuel.
    + intros s acc Hf. cbn [parseElements].
      pose proof (IHv s ltac:(lia)) as Hv.
      destruct (parseValue fuel s) as [v1 r1| |] eqn:Ev;
        [|discriminate|contradiction].
      apply Cv in Ev.
      destruct (expect "," r1) as [r2|] eqn:Ec.
      { apply expect_length in Ec. apply IHe. lia. }
      destruct (expect "]" r1); discriminate.
    + intros s acc Hf. cbn [parseMembers].
      destruct (expect "034" s) as [r0|] eqn:Eq; [|discriminate].
      apply expect_length in Eq.
      pose proof (stringBody_fuel r0) as Hk.
      destruct (stringBody r0) as [key r1| |] eqn:Ek;
        [|discriminate|contradiction].
      apply stringBody_length in Ek.
      destruct (expect ":" r1) as [r2|] eqn:Ecol; [|discriminate].
      apply expect_length in Ecol.
      pose proof (IHv r2 ltac:(lia)) as Hv.
      destruct (parseValue fuel r2) as [v1 r3| |] eqn:Ev;
        [|discriminate|contradiction].
      apply Cv in Ev.
      destruct (expect "," r3) as [r4|] eqn:Ec.
      { apply expect_length in Ec. apply IHm. lia. }
      destruct (expect "}" r3); discriminate.
Qed.

(** [JSON.parse] decides its answer without reaching the bound. *)
Lemma parse_fuel_enough text :
  parseValue (2 * String.length text + 1) text <> OutOfFuel.
Proof. apply parse_fuel. lia. Qed.

End JSONFacts.

(** ** The last edge *)

Lemma lastOf_app {A} (l : list A) (x : A) : lastOf (l ++ [x]) = Some x.
Proof.
  induction l as [|a l IH]; [reflexivity|].
  simpl. rewrite IH. destruct (l ++ [x]) eqn:E; [|reflexivity].
  destruct l; discriminate.
Qed.

Lemma lastOf_nth_error {A} (l : list A) :
  lastOf l = nth_error l (List.length l - 1).
Proof.
  induction l as [|a [|b l] IH]; try reflexivity.
  change (lastOf (a :: b :: l)) with (lastOf (b :: l)). rewrite IH.
  simpl. now rewrite Nat.sub_0_r.
Qed.

Lemma lastOf_None {A} (l : list A) : lastOf l = None <-> l = [].
Proof.
  split; [|intros ->; reflexivity].
  induction l as [|a [|b l] IH]; [reflexivity|discriminate|].
  intros H. apply IH in H. discriminate.
Qed.

Lemma additional_lastEdge edges : Additional.lastEdge edges = lastOf edges.
Proof.
  unfold Additional.lastEdge, JS.at_. rewrite lastOf_nth_error.
  destruct edges as [|e edges]; [reflexivity|].
  cbn [List.length]. 
  replace (0 <=? -1)%Z with false by reflexivity.
  destruct (Z.ltb_spec (Z.of_nat (S (List.length edges)) + -1) 0); [lia|].
  destruct (Z.leb_spec (Z.of_nat (S (List.length edges)))
                       (Z.of_nat (S (List.length edges)) + -1)); [lia|].
  cbn [orb]. f_equal. lia.
Qed.

Lemma index_lastEdge edges : Index.lastEdge edges = lastOf edges.
Proof.
  unfold Index.lastEdge, JS.index. rewrite lastOf_nth_error.
  destruct edges as [|e edges]; [reflexivity|].
  cbn [List.length].
  destruct (Z.ltb_spec (Z.of_nat (S (List.length edges)) - 1) 0); [lia|].
  f_equal. lia.
Qed.

(** ** The pagination loop *)

Lemma requestsFor_app {Node} (pages : list (Page Node)) (p : Page Node) :
  forall after,
  requestsFor after (pages ++ [p])
  = requestsFor after pages ++ [AllProducts 250 (cursorAfter after pages)].
Proof.
  induction pages as [|q pages IH]; intros after; [reflexivity|].
  cbn [requestsFor cursorAfter fold_left app]. f_equal. apply IH.
Qed.

Lemma requestsFor_length {Node} (pages : list (Page Node)) :
  forall after, List.length (requestsFor after pages) = List.length pages.
Proof.
  induction pages as [|q pages IH]; intros after; [reflexivity|].
  cbn. f_equal. apply IH.
Qed.

Section PaginationFacts.

Context {Node : Type}.
Variable lastEdge : list (Edge Node) -> option (Edge Node).
Hypothesis lastEdge_spec : forall edges, lastEdge edges = lastOf edges.

(** One iteration on a page that continues. *)
Lemma whileHasNext_continue fuel all after (p : Page Node) rest sent :
  continues p = true ->
  whileHasNext lastEdge (S fuel) all after
    {| script := respond p :: rest; log := sent |}
  = whileHasNext lastEdge fuel (all ++ pageNodes p)
      (option_map cursor (lastOf (page_edges p)))
      {| script := rest; log := sent ++ [AllProducts 250 after] |}.
Proof.
  unfold continues. intros H. apply andb_prop in H as [Hnext Hlen].
  cbn [whileHasNext]. unfold bind, graphql, respond. cbn.
  rewrite Hnext, lastEdge_spec.
  destruct (lastOf (page_edges p)) as [e|] eqn:E; [reflexivity|].
  apply lastOf_None in E. rewrite E in Hlen. discriminate.
Qed.

(** One iteration on a page that reports no next page. *)
Lemma whileHasNext_final fuel all after (p : Page Node) rest sent :
  page_hasNextPage p = false ->
  whileHasNext lastEdge (S fuel) all after
    {| script := respond p :: rest; log := sent |}
  = (Returned (all ++ pageNodes p),
     {| script := rest; log := sent ++ [AllProducts 250 after] |}).
Proof.
  intros H. cbn [whileHasNext]. unfold bind, graphql, respond. cbn.
  now rewrite H.
Qed.

(** One iteration on a page that announces a next page but has no edge:
    reading [.cursor] of the missing last edge throws. *)
Lemma whileHasNext_empty fuel all after rest sent :
  whileHasNext lastEdge (S fuel) all after
    {| script := Products [] true :: rest; log := sent |}
  = (Thrown TypeError,
     {| script := rest; log := sent ++ [AllProducts 250 after] |}).
Proof.
  cbn [whileHasNext]. unfold bind, graphql. cbn.
  now rewrite lastEdge_spec.
Qed.

(** The iterations over a run of pages that all continue. *)
Lemma whileHasNext_pages (pages : list (Page Node)) :
  forall fuel all after rest sent,
  forallb continues pages = true ->
  whileHasNext lastEdge (List.length pages + fuel) all after
    {| script := map respond pages ++ rest; log := sent |}
  = whileHasNext lastEdge fuel (all ++ flat_map pageNodes pages)
      (cursorAfter after pages)
      {| script := rest; log := sent ++ requestsFor after pages |}.
Proof.
  induction pages as [|p pages IH]; intros fuel all after rest sent H.
  - cbn. now rewrite !app_nil_r.
  - cbn in H. apply andb_prop in H as [Hp Hps].
    cbn [List.length Nat.add map app].
    rewrite whileHasNext_continue by exact Hp.
    rewrite IH by exact Hps.
    cbn [flat_map requestsFor cursorAfter fold_left].
    now rewrite <- !app_assoc.
Qed.

(** The bound [fetchAllProducts] starts from is never reached. *)
Lemma whileHasNext_total fuel :
  forall all after w,
  List.length (script w) < fuel ->
  fst (whileHasNext lastEdge fuel all after w) <> Diverged.
Proof.
  induction fuel as [|fuel IH]; intros all after [scr lg] H; [inversion H|].
  cbn [whileHasNext]. unfold bind, graphql. cbn in *.
  destruct scr as [|resp scr]; [discriminate|].
  destruct resp as [edges [|]| | |]; cbn; try discriminate.
  destruct (lastEdge edges); cbn; [|discriminate].
  apply IH. cbn in *. lia.
Qed.

Lemma fetchAllProducts_total w :
  fst (fetchAllProducts lastEdge w) <> Diverged.
Proof. unfold fetchAllProducts. apply whileHasNext_total. lia. Qed.

(** Reading a well-formed sequence of pages. *)
Lemma fetchAllProducts_pages (before : list (Page Node)) (final : Page Node) rest sent :
  forallb continues before = true ->
  page_hasNextPage final = false ->
  fetchAllProducts lastEdge
    {| script := map respond (before ++ [final]) ++ rest; log := sent |}
  = (Returned (flat_map pageNodes (before ++ [final])),
     {| script := rest; log := sent ++ requestsFor None (before ++ [final]) |}).
Proof.
  intros Hb Hf. unfold fetchAllProducts. cbn [script].
  rewrite map_app, <- app_assoc, !length_app, length_map.
  cbn [map app List.length].
  replace (S (List.length before + (1 + List.length rest)))
    with (List.length before + S (S (List.length rest))) by lia.
  rewrite whileHasNext_pages by exact Hb.
  rewrite whileHasNext_final by exact Hf.
  rewrite flat_map_app. cbn [flat_map]. rewrite app_nil_r. cbn [app].
  now rewrite requestsFor_app, app_assoc.
Qed.

(** Reading a sequence of pages that ends with a page announcing a next
    page without an edge. *)
Lemma fetchAllProducts_empty_page (before : list (Page Node)) rest sent :
  forallb continues before = true ->
  fetchAllProducts lastEdge
    {| script := map respond before ++ Products [] true :: rest; log := sent |}
  = (Thrown TypeError,
     {| script := rest;
        log := sent ++ requestsFor None before
                    ++ [AllProducts 250 (cursorAfter None before)] |}).
Proof.
  intros Hb. unfold fetchAllProducts. cbn [script].
  rewrite !length_app, length_map. cbn [List.length].
  replace (S (List.length before + S (List.length rest)))
    with (List.length before + S (S (List.length rest))) by lia.
  rewrite whileHasNext_pages by exact Hb.
  rewrite whileHasNext_empty. now rewrite <- app_assoc.
Qed.

End PaginationFacts.

(** ** The catalog reader returns every node of every page read *)

(** C1, as stated, fails: the pages below hold a page that reports
    [hasNextPage = false], yet the reader returns no accumulator at all in
    either route, because the first page announces a next page without
    having an edge to take the cursor from. *)
Lemma reader_empty_page_counterexample :
  let pagesA : list (Page Additional.Product) :=
    [ {| page_edges := []; page_hasNextPage := true |};
      AdditionalSamples.page 1 1 false ] in
  let pagesI : list (Page Index.Product) :=
    [ {| page_edges := []; page_hasNextPage := true |};
      IndexSamples.page 1 1 false ] in
  existsb (fun p => negb (page_hasNextPage p)) pagesA = true
  /\ existsb (fun p => negb (page_hasNextPage p)) pagesI = true
  /\ fst (Additional.loader {| script := map respond pagesA; log := [] |})
     = Thrown TypeError
  /\ fst (Index.loader {| script := map respond pagesI; log := [] |})
     = Thrown TypeError.
Proof. repeat split; reflexivity. Qed.

(** C1 (amended): for every finite sequence of page responses in which
    some page reports [hasNextPage = false] and every page before the first
    such page has at least one edge, the reader of either route returns,
    having requested the pages up to and including that first page and
    nothing after it; the accumulator holds every node of every page
    requested, once, in the order of the pages and of their edges, so its
    length is the sum of the sizes of those pages. *)
Theorem reader_accumulates_every_page :
  (forall (before : list (Page Additional.Product)) final rest sent,
     forallb continues before = true ->
     page_hasNextPage final = false ->
     exists all,
       Additional.loader
         {| script := map respond (before ++ [final]) ++ rest; log := sent |}
       = (Returned all,
          {| script := rest;
             log := sent ++ requestsFor None (before ++ [final]) |})
       /\ all = flat_map pageNodes (before ++ [final])
       /\ List.length all = list_sum (map pageSize (before ++ [final])))
  /\
  (forall (before : list (Page Index.Product)) final rest sent,
     forallb continues before = true ->
     page_hasNextPage final = false ->
     exists all,
       Index.loader
         {| script := map respond (before ++ [final]) ++ rest; log := sent |}
       = (Returned all,
          {| script := rest;
             log := sent ++ requestsFor None (before ++ [final]) |})
       /\ all = flat_map pageNodes (before ++ [final])
       /\ List.length all = list_sum (map pageSize (before ++ [final]))).
Proof.
  assert (Hlen : forall Node (pages : list (Page Node)),
             List.length (flat_map pageNodes pages) = list_sum (map pageSize pages)).
  { intros Node pages. induction pages as [|p ps IH]; [reflexivity|].
    cbn [flat_map map list_sum]. rewrite length_app, IH.
    unfold pageNodes, pageSize. now rewrite length_map. }
  split; intros before final rest sent Hb Hf; eexists; (split; [|split; [reflexivity|apply Hlen]]).
  - apply (fetchAllProducts_pages _ additional_lastEdge); assumption.
  - apply (fetchAllProducts_pages _ index_lastEdge); assumption.
Qed.

(** The scenario of the specification: two pages of sizes 250 and 10
    with [hasNextPage] true then false give 260 products. *)
Lemma reader_accumulates_every_page_witness :
  exists all,
    Additional.loader
      {| script := map respond ([AdditionalSamples.page 1 250 true]
                                ++ [AdditionalSamples.page 251 10 false]) ++ [];
         log := [] |}
    = (Returned all,
       {| script := [];
          log := [] ++ requestsFor None ([AdditionalSamples.page 1 250 true]
                                         ++ [AdditionalSamples.page 251 10 false]) |})
    /\ all = flat_map pageNodes ([AdditionalSamples.page 1 250 true]
                                 ++ [AdditionalSamples.page 251 10 false])
    /\ List.length all
       = list_sum (map pageSize ([AdditionalSamples.page 1 250 true]
                                 ++ [AdditionalSamples.page 251 10 false])).
Proof.
  apply (proj1 reader_accumulates_every_page
           [AdditionalSamples.page 1 250 true]
           (AdditionalSamples.page 251 10 false) [] []).
  - vm_compute. reflexivity.
  - reflexivity.
Defined.

Example reader_scenario_260 :
  match Additional.loader
          {| script := map respond [AdditionalSamples.page 1 250 true;
                                    AdditionalSamples.page 251 10 false];
             log := [] |} with
  | (Returned all, w) =>
      List.length all = 260
      /\ log w = [AllProducts 250 None; AllProducts 250 (Some "cursor-250")]
  | _ => False
  end.
Proof. vm_compute. split; reflexivity. Qed.

(** ** What a computation sends *)

Section Sends.

Context {Node : Type}.

Lemma sends_weaken {A} (P Q : Request -> Prop) (c : M Node A) :
  (forall r, P r -> Q r) -> sends P c -> sends Q c.
Proof.
  intros HPQ Hc w out w' H. destruct (Hc _ _ _ H) as (more & Hlog & Hall).
  exists more. split; [exact Hlog|]. revert Hall. apply Forall_impl. exact HPQ.
Qed.

Lemma sends_ret {A} P (a : A) : sends P (@ret Node A a).
Proof. intros w out w' H. inversion H. exists []. now rewrite app_nil_r. Qed.

Lemma sends_throw {A} P e : sends P (@throw Node A e).
Proof. intros w out w' H. inversion H. exists []. now rewrite app_nil_r. Qed.

Lemma sends_graphql (P : Request -> Prop) req : P req -> sends P (@graphql Node req).
Proof.
  intros HP w out w' H. unfold graphql in H.
  destruct (script w); inversion H; exists [req]; auto.
Qed.

Lemma sends_bind {A B} P (c : M Node A) (k : A -> M Node B) :
  sends P c -> (forall a, sends P (k a)) -> sends P (bind c k).
Proof.
  intros Hc Hk w out w' H. unfold bind in H.
  destruct (c w) as [o w1] eqn:E. destruct (Hc _ _ _ E) as (m1 & H1 & F1).
  destruct o.
  - destruct (Hk _ _ _ _ H) as (m2 & H2 & F2). exists (m1 ++ m2).
    split; [now rewrite H2, H1, app_assoc|]. apply Forall_app. now split.
  - inversion H; subst. now exists m1.
  - inversion H; subst. now exists m1.
Qed.

Lemma sends_data_products P resp : sends P (@data_products Node resp).
Proof. destruct resp; first [apply sends_ret | apply sends_throw]. Qed.

Lemma sends_data_productOptionsCreate P resp :
  sends P (@data_productOptionsCreate Node resp).
Proof. destruct resp; first [apply sends_ret | apply sends_throw]. Qed.

Lemma sends_data_productOptionUpdate P resp :
  sends P (@data_productOptionUpdate Node resp).
Proof. destruct resp; first [apply sends_ret | apply sends_throw]. Qed.

Lemma sends_data_productOptionsDelete P resp :
  sends P (@data_productOptionsDelete Node resp).
Proof. destruct resp; first [apply sends_ret | apply sends_throw]. Qed.

(** The pagination loop sends product listings only. *)
Lemma sends_whileHasNext (P : Request -> Prop) lastEdge fuel :
  (forall after, P (AllProducts 250 after)) ->
  forall all after, sends P (@whileHasNext Node lastEdge fuel all after).
Proof.
  intros HP. induction fuel as [|fuel IH]; intros all after.
  - intros w out w' H. inversion H. exists []. now rewrite app_nil_r.
  - cbn [whileHasNext]. apply sends_bind; [apply sends_graphql, HP|].
    intros resp. apply sends_bind; [apply sends_data_products|].
    intros [edges [|]]; [|apply sends_ret].
    destruct (lastEdge edges); [apply IH|apply sends_throw].
Qed.

Lemma sends_fetchAllProducts (P : Request -> Prop) lastEdge :
  (forall after, P (AllProducts 250 after)) ->
  sends P (@fetchAllProducts Node lastEdge).
Proof. intros HP w. unfold fetchAllProducts. now apply sends_whileHasNext. Qed.

Lemma sends_appends {A} P (c : M Node A) : sends P c -> appends c.
Proof.
  intros Hc w out w' H. destruct (Hc _ _ _ H) as (more & Hlog & _). now exists more.
Qed.

(** What follows a computation extends the log it left. *)
Lemma bind_log_prefix {A B} (c : M Node A) (k : A -> M Node B) w o1 w1 sent :
  (forall a, appends (k a)) ->
  c w = (o1, w1) ->
  (exists more, log w1 = sent ++ more) ->
  exists out w' more, bind c k w = (out, w') /\ log w' = sent ++ more.
Proof.
  intros Hk Hc [m1 H1]. unfold bind. rewrite Hc.
  destruct o1.
  - destruct (k a w1) as [out w'] eqn:E. destruct (Hk _ _ _ _ E) as [m2 H2].
    exists out, w', (m1 ++ m2). split; [reflexivity|].
    now rewrite H2, H1, app_assoc.
  - now exists (Thrown e), w1, m1.
  - now exists Diverged, w1, m1.
Qed.

(** A computation that throws ends what it is bound to. *)
Lemma bind_thrown {A B} (c : M Node A) (k : A -> M Node B) w e w1 :
  c w = (Thrown e, w1) -> bind c k w = (Thrown e, w1).
Proof. intros H. unfold bind. now rewrite H. Qed.

Lemma bind_returned {A B} (c : M Node A) (k : A -> M Node B) w a w1 :
  c w = (Returned a, w1) -> bind c k w = k a w1.
Proof. intros H. unfold bind. now rewrite H. Qed.

End Sends.

Lemma sends_mapValues P values : sends P (Additional.mapValues values).
Proof. destruct values; first [apply sends_ret | apply sends_throw]. Qed.

(** The add loop sends create-option requests only. *)
Lemma sends_addLoop (P : Request -> Prop) optionName values prods :
  (forall productId options, P (AddOption productId options)) ->
  forall errors, sends P (Additional.addLoop optionName values prods errors).
Proof.
  intros HP.
  induction prods as [|prod rest IH]; intros errors; cbn [Additional.addLoop].
  - apply sends_ret.
  - apply sends_bind; [apply sends_mapValues|]. intros vs.
    apply sends_bind; [apply sends_graphql, HP|]. intros resp.
    apply sends_bind; [apply sends_data_productOptionsCreate|]. intros ue.
    apply IH.
Qed.

(** One iteration of the remove loop sends, for the first matching option
    of its product, an update when the option has several values, or a
    delete. *)
Lemma sends_removeFrom (P : Request -> Prop) optionName prod errors :
  (forall opt, Index.findOption optionName prod = Some opt ->
     (1 <? List.length (Index.optionValues opt))%nat = true ->
     P (Index.updateRequest prod opt)) ->
  (forall opt, Index.findOption optionName prod = Some opt ->
     P (Index.deleteRequest prod opt)) ->
  sends P (Index.removeFrom optionName prod errors).
Proof.
  intros HU HD. unfold Index.removeFrom.
  destruct (Index.findOption optionName prod) as [opt|]; [|apply sends_ret].
  assert (Hdel : forall errs, sends P (Index.deleteOption prod opt errs)).
  { intros errs. unfold Index.deleteOption.
    apply sends_bind; [apply sends_graphql, HD; reflexivity|]. intros resp.
    apply sends_bind; [apply sends_data_productOptionsDelete|]. intros ue.
    destruct (0 <? _)%nat; apply sends_ret. }
  destruct (1 <? _)%nat eqn:Hk; [|apply Hdel].
  apply sends_bind; [apply sends_graphql, HU; [reflexivity|exact Hk]|]. intros resp.
  apply sends_bind; [apply sends_data_productOptionUpdate|]. intros ue.
  destruct (0 <? _)%nat; [apply sends_ret|apply Hdel].
Qed.

Lemma sends_removeLoop (P : Request -> Prop) optionName prods :
  (forall prod opt, In prod prods ->
     Index.findOption optionName prod = Some opt ->
     (1 <? List.length (Index.optionValues opt))%nat = true ->
     P (Index.updateRequest prod opt)) ->
  (forall prod opt, In prod prods ->
     Index.findOption optionName prod = Some opt ->
     P (Index.deleteRequest prod opt)) ->
  forall errors, sends P (Index.removeLoop optionName prods errors).
Proof.
  induction prods as [|prod rest IH]; intros HU HD errors; cbn [Index.removeLoop].
  - apply sends_ret.
  - apply sends_bind.
    + apply sends_removeFrom; intros opt; [apply HU|apply HD]; now left.
    + intros e'. apply IH; intros p o Hin; [apply HU|apply HD]; now right.
Qed.

Lemma appends_addLoop optionName values prods errors :
  appends (Additional.addLoop optionName values prods errors).
Proof. apply (sends_appends (fun _ => True)). now apply sends_addLoop. Qed.

Lemma appends_removeLoop optionName prods errors :
  appends (Index.removeLoop optionName prods errors).
Proof. apply (sends_appends (fun _ => True)). now apply sends_removeLoop. Qed.

(** ** Every loader and action ends *)

Section Terminates.

Context {Node : Type}.

Lemma terminates_ret {A} (a : A) : terminates (@ret Node A a).
Proof. intros w. discriminate. Qed.

Lemma terminates_throw {A} e : terminates (@throw Node A e).
Proof. intros w. discriminate. Qed.

Lemma terminates_graphql req : terminates (@graphql Node req).
Proof. intros w. unfold graphql. destruct (script w); discriminate. Qed.

Lemma terminates_bind {A B} (c : M Node A) (k : A -> M Node B) :
  terminates c -> (forall a, terminates (k a)) -> terminates (bind c k).
Proof.
  intros Hc Hk w. unfold bind. specialize (Hc w).
  destruct (c w) as [[a|e|] w1]; [apply Hk|discriminate|contradiction].
Qed.

Lemma terminates_fetchAllProducts lastEdge :
  terminates (@fetchAllProducts Node lastEdge).
Proof. intros w. apply fetchAllProducts_total. Qed.

End Terminates.

Lemma terminates_addLoop optionName values prods :
  forall errors, terminates (Additional.addLoop optionName values prods errors).
Proof.
  induction prods as [|prod prods IH]; intros errors; cbn [Additional.addLoop].
  - apply terminates_ret.
  - apply terminates_bind.
    { destruct values; first [apply terminates_ret | apply terminates_throw]. }
    intros vs. apply terminates_bind; [apply terminates_graphql|].
    intros resp. apply terminates_bind; [|intros ue; apply IH].
    destruct resp; first [apply terminates_ret | apply terminates_throw].
Qed.

Lemma terminates_removeLoop optionName prods :
  forall errors, terminates (Index.removeLoop optionName prods errors).
Proof.
  assert (Hdel : forall prod opt errs, terminates (Index.deleteOption prod opt errs)).
  { intros prod opt errs. unfold Index.deleteOption.
    apply terminates_bind; [apply terminates_graphql|]. intros resp.
    apply terminates_bind.
    - destruct resp; first [apply terminates_ret | apply terminates_throw].
    - intros ue. destruct (0 <? _)%nat; apply terminates_ret. }
  induction prods as [|prod prods IH]; intros errors; cbn [Index.removeLoop].
  - apply terminates_ret.
  - apply terminates_bind; [|intros e'; apply IH].
    unfold Index.removeFrom.
    destruct (Index.findOption optionName prod) as [opt|]; [|apply terminates_ret].
    destruct (1 <? _)%nat; [|apply Hdel].
    apply terminates_bind; [apply terminates_graphql|]. intros resp.
    apply terminates_bind.
    + destruct resp; first [apply terminates_ret | apply terminates_throw].
    + intros ue. destruct (0 <? _)%nat; [apply terminates_ret|apply Hdel].
Qed.

(** The loaders and the actions of both routes return or throw on every
    form and in every world: the bound of the pagination loop is never
    reached. *)
Lemma routes_terminate form :
  terminates Additional.loader
  /\ terminates (Additional.action form)
  /\ terminates Index.loader
  /\ terminates (Index.action form).
Proof.
  split; [apply terminates_fetchAllProducts|].
  split; [|split; [apply terminates_fetchAllProducts|]].
  - unfold Additional.action. destruct (negb _); [apply terminates_ret|].
    destruct (negb _); [apply terminates_ret|].
    destruct (JSON.parse _); [|apply terminates_ret].
    apply terminates_bind; [apply terminates_fetchAllProducts|]. intros all.
    apply terminates_bind; [apply terminates_addLoop|].
    intros errors. destruct (0 <? _)%nat; apply terminates_ret.
  - unfold Index.action. destruct (negb _); [apply terminates_ret|].
    apply terminates_bind; [apply terminates_fetchAllProducts|]. intros all.
    apply terminates_bind; [apply terminates_removeLoop|].
    intros errors. destruct (0 <? _)%nat; apply terminates_ret.
Qed.

(** The add action on a form that passes its checks. *)
Lemma additional_action_passes form optionName values :
  addFormPasses form optionName values ->
  Additional.action form
  = (all <- fetchAllProducts Additional.lastEdge ;;
     errors <- Additional.addLoop optionName values
                 (Additional.toAdd optionName all) [] ;;
     if (0 <? List.length errors)%nat then
       ret (Additional.failure (JS.join "; " errors))
     else
       ret {| success := true; error := None;
              addedCount := Some (List.length (Additional.toAdd optionName all)) |}).
Proof.
  intros (rawName & rawValues & Hn & Hv & -> & Ht & Htv & Hp).
  unfold Additional.action. rewrite Hn, Hv, Ht, Htv, Hp. reflexivity.
Qed.

(** The remove action on a form that passes its check. *)
Lemma index_action_passes form optionName :
  removeFormPasses form optionName ->
  Index.action form
  = (allProducts <- fetchAllProducts Index.lastEdge ;;
     errors <- Index.removeLoop optionName allProducts [] ;;
     if (0 <? List.length errors)%nat then
       ret (Index.failure (JS.join "; " errors))
     else
       ret {| success := true; error := None; addedCount := None |}).
Proof.
  intros (rawName & Hn & -> & Ht).
  unfold Index.action. rewrite Hn, Ht. reflexivity.
Qed.

(** ** The cursor is read from the last edge *)

Lemma cursorAfter_last {Node} (pages : list (Page Node)) p es e after :
  page_edges p = es ++ [e] ->
  cursorAfter after (pages ++ [p]) = Some (cursor e).
Proof.
  intros H. unfold cursorAfter. rewrite fold_left_app. cbn.
  now rewrite H, lastOf_app.
Qed.

Lemma continues_last {Node} (pages : list (Page Node)) p es e :
  forallb continues pages = true ->
  page_hasNextPage p = true ->
  page_edges p = es ++ [e] ->
  forallb continues (pages ++ [p]) = true.
Proof.
  intros Hb Hn He. rewrite forallb_app, Hb. cbn. unfold continues.
  rewrite Hn, He, length_app. cbn.
  replace (List.length es + 1) with (S (List.length es)) by lia. reflexivity.
Qed.

Section CursorFacts.

Context {Node : Type}.
Variable lastEdge : list (Edge Node) -> option (Edge Node).
Hypothesis lastEdge_spec : forall edges, lastEdge edges = lastOf edges.

Lemma fetchAllProducts_next_cursor (before : list (Page Node)) p es e rest sent :
  forallb continues before = true ->
  page_hasNextPage p = true ->
  page_edges p = es ++ [e] ->
  exists out w' more,
    fetchAllProducts lastEdge
      {| script := map respond (before ++ [p]) ++ rest; log := sent |} = (out, w')
    /\ log w' = (sent ++ requestsFor None (before ++ [p])
                      ++ [AllProducts 250 (Some (cursor e))]) ++ more.
Proof.
  intros Hb Hn He.
  pose proof (continues_last _ _ _ _ Hb Hn He) as Hall.
  unfold fetchAllProducts. cbn [script].
  rewrite length_app, length_map.
  replace (S (List.length (before ++ [p]) + List.length rest))
    with (List.length (before ++ [p]) + S (List.length rest)) by lia.
  rewrite (whileHasNext_pages lastEdge lastEdge_spec) by exact Hall.
  rewrite (cursorAfter_last _ _ _ _ _ He).
  cbn [whileHasNext].
  match goal with |- context [bind (graphql ?r) ?k ?w] =>
    destruct (bind_log_prefix (graphql r) k w
               (fst (graphql r w)) (snd (graphql r w))
               ((sent ++ requestsFor None (before ++ [p])) ++ [r]))
      as (out & w' & more & Hrun & Hlog)
  end.
  - intros resp. apply (sends_appends (fun _ => True)).
    apply sends_bind; [apply sends_data_products|].
    intros [edges [|]]; [|apply sends_ret].
    destruct (lastEdge edges); [now apply sends_whileHasNext|apply sends_throw].
  - apply surjective_pairing.
  - exists []. unfold graphql. cbn. destruct rest; cbn; now rewrite app_nil_r.
  - exists out, w', more. split; [exact Hrun|]. now rewrite Hlog, <- !app_assoc.
Qed.

Lemma cursorReadFromLastEdge_holds (k : list Node -> M Node ActionData) :
  (forall all, appends (k all)) ->
  cursorReadFromLastEdge (fetchAllProducts lastEdge)
                         (bind (fetchAllProducts lastEdge) k).
Proof.
  intros Hk before p es e rest sent Hb Hn He w requests.
  destruct (fetchAllProducts_next_cursor before p es e rest sent Hb Hn He)
    as (out & w' & more & Hrun & Hlog).
  split.
  - now exists out, w', more.
  - apply (bind_log_prefix _ k w out w'); [exact Hk|exact Hrun|].
    now exists more.
Qed.

Lemma emptyPageAborts_holds (k : list Node -> M Node ActionData) :
  emptyPageAborts (fetchAllProducts lastEdge)
                  (bind (fetchAllProducts lastEdge) k).
Proof.
  intros before rest sent Hb w w'.
  pose proof (fetchAllProducts_empty_page lastEdge lastEdge_spec before rest sent Hb) as H.
  split; [exact H|]. apply bind_thrown. exact H.
Qed.

End CursorFacts.

(** C9: in each of the four pagination loops (the loader and the re-fetch
    of the action, in either route, the actions being run on forms that
    pass their checks), the cursor sent after a page that reports
    [hasNextPage = true] is the cursor of the last edge of that page; and a
    response with [hasNextPage = true] and no edge makes the read of that
    cursor throw, which ends the loader or the action there. *)
Theorem pagination_cursor_needs_an_edge formA optionNameA valuesA formI optionNameI :
  addFormPasses formA optionNameA valuesA ->
  removeFormPasses formI optionNameI ->
  cursorReadFromLastEdge Additional.loader (Additional.action formA)
  /\ emptyPageAborts Additional.loader (Additional.action formA)
  /\ cursorReadFromLastEdge Index.loader (Index.action formI)
  /\ emptyPageAborts Index.loader (Index.action formI).
Proof.
  intros HA HI.
  rewrite (additional_action_passes _ _ _ HA), (index_action_passes _ _ HI).
  split; [|split; [|split]].
  - apply (cursorReadFromLastEdge_holds _ additional_lastEdge).
    intros all. apply (sends_appends (fun _ => True)).
    apply sends_bind; [now apply sends_addLoop|].
    intros errors. destruct (0 <? _)%nat; apply sends_ret.
  - apply (emptyPageAborts_holds _ additional_lastEdge).
  - apply (cursorReadFromLastEdge_holds _ index_lastEdge).
    intros all. apply (sends_appends (fun _ => True)).
    apply sends_bind; [now apply sends_removeLoop|].
    intros errors. destruct (0 <? _)%nat; apply sends_ret.
  - apply (emptyPageAborts_holds _ index_lastEdge).
Qed.

Lemma colorForm_passes : addFormPasses colorForm "Color" colorValues.
Proof. exists " Color ", redGreenYellow. repeat split; reflexivity. Defined.

Lemma packWeightForm_passes : removeFormPasses packWeightForm "pack weight".
Proof. exists "pack weight". repeat split; reflexivity. Defined.

Lemma pagination_cursor_needs_an_edge_witness :
  (exists out w' more,
     Additional.action colorForm
       {| script := map respond ([] ++ [AdditionalSamples.page 1 2 true]) ++ [];
          log := [] |} = (out, w')
     /\ log w' = ([] ++ requestsFor None ([] ++ [AdditionalSamples.page 1 2 true])
                     ++ [AllProducts 250 (Some "cursor-2")]) ++ more)
  /\ Index.action packWeightForm
       {| script := map respond [IndexSamples.page 1 2 true] ++ [Products [] true];
          log := [] |}
     = (Thrown TypeError,
        {| script := [];
           log := [] ++ requestsFor None [IndexSamples.page 1 2 true]
                     ++ [AllProducts 250 (cursorAfter None [IndexSamples.page 1 2 true])] |}).
Proof.
  destruct (pagination_cursor_needs_an_edge
              colorForm "Color" colorValues packWeightForm "pack weight"
              colorForm_passes packWeightForm_passes)
    as (HcurA & _ & _ & HabortI).
  split.
  - apply (HcurA [] (AdditionalSamples.page 1 2 true)
             [AdditionalSamples.edge 1 ["Size"]] (AdditionalSamples.edge 2 ["Size"])
             [] []); reflexivity.
  - apply (HabortI [IndexSamples.page 1 2 true] [] []). reflexivity.
Defined.

(** ** The add workflow *)

Lemma hasOption_spec optionName prod :
  Additional.hasOption optionName prod = true <-> hasOptionNamed optionName prod.
Proof.
  unfold Additional.hasOption, hasOptionNamed. rewrite existsb_exists.
  split; intros (o & Hin & H); exists o; (split; [exact Hin|]).
  - now apply String.eqb_eq.
  - now apply String.eqb_eq.
Qed.

(** A run of the add loop over [prods], the remote answering the create
    calls with [answers], one list of user errors per product. *)
Lemma addLoop_run optionName vs prods :
  forall answers errors rest sent,
  List.length answers = List.length prods ->
  Additional.addLoop optionName (JSON.Array vs) prods errors
    {| script := map ProductOptionsCreate answers ++ rest; log := sent |}
  = (Returned (errors ++ map message (List.concat answers)),
     {| script := rest; log := sent ++ map (createRequest optionName vs) prods |}).
Proof.
  induction prods as [|prod prods IH]; intros [|ue answers] errors rest sent Hlen;
    try discriminate.
  - cbn. now rewrite !app_nil_r.
  - cbn [Additional.addLoop Additional.mapValues map app List.concat].
    unfold bind at 1. cbn [ret].
    unfold bind at 1. unfold graphql at 1. cbn [script log].
    unfold bind at 1. cbn [data_productOptionsCreate ret].
    rewrite IH by (cbn in Hlen; lia).
    rewrite map_app, <- !app_assoc. cbn [app].
    destruct ue; cbn; [reflexivity|].
    now rewrite <- app_assoc.
Qed.

(** The add loop on a parsed value that is not an array throws at the
    first product, before any request. *)
Lemma addLoop_not_array optionName values prod prods errors w :
  (forall vs, values <> JSON.Array vs) ->
  Additional.addLoop optionName values (prod :: prods) errors w
  = (Thrown TypeError, w).
Proof.
  intros H. cbn [Additional.addLoop]. unfold bind.
  destruct values; try reflexivity. now destruct (H elements).
Qed.

(** C2: a fetched product is in [toAdd] exactly when none of its options
    has the trimmed option name, letter case aside; and the create-option
    requests of the add action are sent for the products of [toAdd], one
    each, in order, after the catalog has been read. *)
Theorem toAdd_iff_option_missing :
  (forall optionName all prod,
     In prod (Additional.toAdd optionName all)
     <-> In prod all /\ ~ hasOptionNamed optionName prod)
  /\
  (forall form optionName vs before final answers rest sent,
     addFormPasses form optionName (JSON.Array vs) ->
     forallb continues before = true ->
     page_hasNextPage final = false ->
     let missing :=
       Additional.toAdd optionName (flat_map pageNodes (before ++ [final])) in
     List.length answers = List.length missing ->
     exists result,
       Additional.action form
         {| script := map respond (before ++ [final])
                      ++ map ProductOptionsCreate answers ++ rest;
            log := sent |}
       = (Returned result,
          {| script := rest;
             log := sent ++ requestsFor None (before ++ [final])
                         ++ map (createRequest optionName vs) missing |})).
Proof.
  split.
  - intros optionName all prod. unfold Additional.toAdd.
    rewrite filter_In, negb_true_iff, <- hasOption_spec.
    now destruct (Additional.hasOption optionName prod); intuition.
  - intros form optionName vs before final answers rest sent HA Hb Hf missing Hlen.
    rewrite (additional_action_passes _ _ _ HA).
    rewrite (bind_returned _ _ _ _ _
               (fetchAllProducts_pages _ additional_lastEdge before final _ sent Hb Hf)).
    fold missing.
    rewrite (bind_returned _ _ _ _ _
               (addLoop_run optionName vs missing answers [] rest _ Hlen)).
    rewrite <- app_assoc.
    destruct (0 <? _)%nat; eexists; reflexivity.
Qed.

Lemma toAdd_iff_option_missing_witness :
  exists result,
    Additional.action colorForm
      {| script := map respond ([] ++ [threeProducts])
                   ++ map ProductOptionsCreate [[]; []] ++ [];
         log := [] |}
    = (Returned result,
       {| script := [];
          log := [] ++ requestsFor None ([] ++ [threeProducts])
                    ++ map (createRequest "Color"
                              [JSON.Str (JSON.codeUnits "Red");
                               JSON.Str (JSON.codeUnits "Green");
                               JSON.Str (JSON.codeUnits "Yellow")])
                         (Additional.toAdd "Color"
                            (flat_map pageNodes ([] ++ [threeProducts]))) |}).
Proof.
  apply (proj2 toAdd_iff_option_missing colorForm "Color" _ [] threeProducts
           [[]; []] [] [] colorForm_passes); reflexivity.
Defined.

(** The scenario of the specification: of three products two lack Color;
    the add action sends two create-option requests and reports success
    with count 2. *)
Example add_scenario :
  Additional.action colorForm
    {| script := [respond threeProducts; ProductOptionsCreate []; ProductOptionsCreate []];
       log := [] |}
  = (Returned {| success := true; error := None; addedCount := Some 2 |},
     {| script := [];
        log := [AllProducts 250 None;
                createRequest "Color" [JSON.Str (JSON.codeUnits "Red");
                                       JSON.Str (JSON.codeUnits "Green");
                                       JSON.Str (JSON.codeUnits "Yellow")]
                  (AdditionalSamples.product 1 ["Size"]);
                createRequest "Color" [JSON.Str (JSON.codeUnits "Red");
                                       JSON.Str (JSON.codeUnits "Green");
                                       JSON.Str (JSON.codeUnits "Yellow")]
                  (AdditionalSamples.product 3 [])] |}).
Proof. vm_compute. reflexivity. Qed.

(** ** Substring search *)

Lemma startsWith_spec s t :
  JS.startsWith s t = true <-> exists post, s = (t ++ post)%string.
Proof.
  revert s. induction t as [|b t IH]; intros s.
  - destruct s; cbn; split; eauto.
  - destruct s as [|a s]; cbn.
    + split; [discriminate|]. intros [post H]. discriminate.
    + rewrite andb_true_iff, IH, Ascii.eqb_eq. split.
      * intros [-> [post ->]]. now exists post.
      * intros [post H]. inversion H; subst. split; [reflexivity|now exists post].
Qed.

Lemma includes_spec s t :
  JS.includes s t = true <-> exists pre post, s = (pre ++ t ++ post)%string.
Proof.
  induction s as [|a s IH].
  - cbn [JS.includes]. rewrite orb_false_r, startsWith_spec. split.
    + intros [post H]. now exists EmptyString, post.
    + intros (pre & post & H). destruct pre; [now exists post|discriminate].
  - cbn [JS.includes]. rewrite orb_true_iff, startsWith_spec, IH. split.
    + intros [[post H]|(pre & post & H)].
      * now exists EmptyString, post.
      * exists (String a pre), post. cbn. now rewrite H.
    + intros (pre & post & H). destruct pre as [|c pre].
      * left. now exists post.
      * right. cbn in H. inversion H. now exists pre, post.
Qed.

Lemma matches_spec optionName o :
  Index.matches optionName o = true
  <-> containsIgnoringCase (Index.name o) optionName.
Proof. unfold Index.matches, containsIgnoringCase. apply includes_spec. Qed.


(** ** One iteration of the remove loop *)

(** The deletion step sends its request and consumes one response,
    however it ends. *)
Lemma deleteOption_world prod opt errors w :
  snd (Index.deleteOption prod opt errors w)
  = {| script := tl (script w); log := log w ++ [Index.deleteRequest prod opt] |}.
Proof.
  unfold Index.deleteOption, bind, graphql.
  destruct (script w) as [|resp rest]; [reflexivity|].
  destruct resp as [edges hn|ue|ue|ids ue]; try reflexivity.
  destruct ue; reflexivity.
Qed.

(** No matching option: nothing is sent, nothing recorded. *)
Lemma removeFrom_no_match optionName prod errors w :
  Index.findOption optionName prod = None ->
  Index.removeFrom optionName prod errors w = (Returned errors, w).
Proof. intros H. unfold Index.removeFrom. now rewrite H. Qed.

(** A matching option with one value or none: the deletion step alone. *)
Lemma removeFrom_single optionName prod opt errors :
  Index.findOption optionName prod = Some opt ->
  (1 <? List.length (Index.optionValues opt))%nat = false ->
  Index.removeFrom optionName prod errors = Index.deleteOption prod opt errors.
Proof. intros H Hk. unfold Index.removeFrom. now rewrite H, Hk. Qed.

(** A matching option with several values, the update answered with user
    errors: they are recorded and the iteration ends. *)
Lemma removeFrom_update_rejected optionName prod opt errors ue rest sent :
  Index.findOption optionName prod = Some opt ->
  (1 <? List.length (Index.optionValues opt))%nat = true ->
  (0 <? List.length ue)%nat = true ->
  Index.removeFrom optionName prod errors
    {| script := ProductOptionUpdate ue :: rest; log := sent |}
  = (Returned (errors ++ map message ue),
     {| script := rest; log := sent ++ [Index.updateRequest prod opt] |}).
Proof.
  intros H Hk Hue. unfold Index.removeFrom. rewrite H, Hk.
  destruct ue as [|u ue]; [discriminate|]. reflexivity.
Qed.

(** A matching option with several values, the update answered without
    user errors: the deletion step follows. *)
Lemma removeFrom_update_accepted optionName prod opt errors rest sent :
  Index.findOption optionName prod = Some opt ->
  (1 <? List.length (Index.optionValues opt))%nat = true ->
  Index.removeFrom optionName prod errors
    {| script := ProductOptionUpdate [] :: rest; log := sent |}
  = Index.deleteOption prod opt errors
      {| script := rest; log := sent ++ [Index.updateRequest prod opt] |}.
Proof.
  intros H Hk. unfold Index.removeFrom. rewrite H, Hk.
  unfold bind at 1. unfold graphql at 1. cbn [script log].
  unfold bind at 1. reflexivity.
Qed.

(** Whatever the remote answers, an iteration on a matching option sends
    the first request for it and then, at most, the deletion of it. *)
Lemma removeFrom_requests optionName prod opt errors w :
  Index.findOption optionName prod = Some opt ->
  exists out w' more,
    Index.removeFrom optionName prod errors w = (out, w')
    /\ log w' = log w ++ firstRequest prod opt :: more
    /\ (more = [] \/
        more = [Index.deleteRequest prod opt]
        /\ (1 <? List.length (Index.optionValues opt))%nat = true).
Proof.
  intros H. unfold firstRequest.
  destruct (1 <? List.length (Index.optionValues opt))%nat eqn:Hk.
  - destruct w as [[|resp rest] sent].
    + unfold Index.removeFrom. rewrite H, Hk. unfold bind, graphql. cbn.
      eexists _, _, []. split; [reflexivity|]. split; [reflexivity|now left].
    + destruct resp as [edges hn|ue|ue|ids ue];
        try (unfold Index.removeFrom; rewrite H, Hk; unfold bind, graphql; cbn;
             eexists _, _, []; split; [reflexivity|]; split; [reflexivity|now left]).
      destruct (0 <? List.length ue)%nat eqn:Hue.
      * rewrite (removeFrom_update_rejected _ _ _ _ _ _ _ H Hk Hue).
        eexists _, _, []. split; [reflexivity|]. split; [reflexivity|now left].
      * apply Nat.ltb_ge in Hue. destruct ue; [|cbn in Hue; lia].
        rewrite (removeFrom_update_accepted _ _ _ _ _ _ H Hk).
        eexists _, _, [Index.deleteRequest prod opt].
        split; [apply surjective_pairing|].
        rewrite deleteOption_world. cbn. rewrite <- app_assoc. now split; [|right].
  - rewrite (removeFrom_single _ _ _ _ H Hk).
    eexists _, _, []. split; [apply surjective_pairing|].
    rewrite deleteOption_world. now split; [|left].
Qed.

(** ** The value trim *)

Lemma toDelete_tail opt :
  Index.toDelete opt = map Index.valueId (tl (Index.optionValues opt))
  /\ List.length (Index.toDelete opt) = List.length (Index.optionValues opt) - 1.
Proof.
  unfold Index.toDelete, JS.slice1.
  destruct (Index.optionValues opt) as [|v vs]; [now split|].
  cbn. now rewrite length_map, Nat.sub_0_r.
Qed.

(** The scenario of the specification: one product whose Pack weight
    option has three values; the remove action sends one update deleting
    two value ids, then one delete-option request. *)
Example remove_scenario :
  Index.action packWeightForm
    {| script := [respond packPage; ProductOptionUpdate [];
                  ProductOptionsDelete [gid "ProductOption" 2] []];
       log := [] |}
  = (Returned {| success := true; error := None; addedCount := None |},
     {| script := [];
        log := [AllProducts 250 None;
                UpdateOptionValues (gid "Product" 1)
                  {| update_id := gid "ProductOption" 2;
                     update_name := "Pack Weight";
                     update_position := 2 |}
                  [gid "ProductOptionValue" 21; gid "ProductOptionValue" 22];
                DeleteOptions (gid "Product" 1) [gid "ProductOption" 2]] |}).
Proof. vm_compute. reflexivity. Qed.

(** ** Errors of the value trim *)

(** The deletion step keeps the errors recorded before it. *)
Lemma deleteOption_keeps prod opt errors w errs w' :
  Index.deleteOption prod opt errors w = (Returned errs, w') ->
  exists more, errs = errors ++ more.
Proof.
  unfold Index.deleteOption, bind, graphql.
  destruct (script w) as [|resp rest]; [discriminate|].
  destruct resp as [edges hn|ue|ue|ids ue]; try discriminate.
  destruct ue as [|u ue]; cbn; intros H; inversion H; subst.
  - exists []. now rewrite app_nil_r.
  - now exists (map message (u :: ue)).
Qed.

Lemma removeFrom_keeps optionName prod errors w errs w' :
  Index.removeFrom optionName prod errors w = (Returned errs, w') ->
  exists more, errs = errors ++ more.
Proof.
  unfold Index.removeFrom.
  destruct (Index.findOption optionName prod) as [opt|].
  - destruct (1 <? _)%nat; [|apply deleteOption_keeps].
    unfold bind at 1. unfold graphql at 1.
    destruct (script w) as [|resp rest]; [discriminate|].
    unfold bind at 1.
    destruct resp as [edges hn|ue|ue|ids ue]; try discriminate.
    cbn [data_productOptionUpdate ret].
    destruct ue as [|u ue]; [apply deleteOption_keeps|].
    intros H. inversion H; subst. now exists (map message (u :: ue)).
  - intros H. inversion H; subst. exists []. now rewrite app_nil_r.
Qed.

Lemma removeLoop_keeps optionName prods :
  forall errors w errs w',
  Index.removeLoop optionName prods errors w = (Returned errs, w') ->
  exists more, errs = errors ++ more.
Proof.
  induction prods as [|prod prods IH]; intros errors w errs w'; cbn [Index.removeLoop].
  - intros H. inversion H; subst. exists []. now rewrite app_nil_r.
  - unfold bind.
    destruct (Index.removeFrom optionName prod errors w) as [[e1| |] w1] eqn:E;
      try discriminate.
    intros H. destruct (removeFrom_keeps _ _ _ _ _ _ E) as [m1 ->].
    destruct (IH _ _ _ _ H) as [m2 ->]. exists (m1 ++ m2). now rewrite app_assoc.
Qed.

(** The scenario of a rejected trim: the action sends the listing and the
    update, no delete-option request, and reports the rejection. *)
Example rejected_update_scenario :
  Index.action packWeightForm
    {| script := [respond packPage; ProductOptionUpdate [rejection]]; log := [] |}
  = (Returned {| success := false; error := Some "Cannot delete option values";
                 addedCount := None |},
     {| script := [];
        log := [AllProducts 250 None; Index.updateRequest packProduct packWeight] |}).
Proof. vm_compute. reflexivity. Qed.

(** ** Aggregation of the user errors *)

Lemma reporting_cons ue answers :
  reporting (ue :: answers)
  = (match ue with [] => 0 | _ => 1 end) + reporting answers.
Proof. unfold reporting. cbn [filter]. now destruct ue. Qed.

Lemma aggregate_cons ue answers :
  aggregate (ue :: answers) = map message ue ++ aggregate answers.
Proof. unfold aggregate. cbn [List.concat]. now rewrite map_app. Qed.

Lemma aggregate_length answers :
  List.length (aggregate answers) = list_sum (map (@List.length UserError) answers).
Proof.
  induction answers as [|ue answers IH]; [reflexivity|].
  rewrite aggregate_cons, length_app, length_map, IH. reflexivity.
Qed.

Lemma reporting_le answers : reporting answers <= List.length (aggregate answers).
Proof.
  induction answers as [|ue answers IH]; [reflexivity|].
  rewrite reporting_cons, aggregate_cons, length_app, length_map.
  destruct ue; cbn [List.length]; lia.
Qed.

Lemma reporting_exact answers :
  Forall (fun ue => List.length ue <= 1) answers ->
  List.length (aggregate answers) = reporting answers.
Proof.
  induction 1 as [|ue answers Hue _ IH]; [reflexivity|].
  rewrite reporting_cons, aggregate_cons, length_app, length_map, IH.
  destruct ue as [|u [|u2 ue]]; cbn [List.length] in *; lia.
Qed.

Lemma reporting_zero answers :
  (0 <? List.length (aggregate answers))%nat = (0 <? reporting answers)%nat.
Proof.
  induction answers as [|ue answers IH]; [reflexivity|].
  rewrite reporting_cons, aggregate_cons, length_app, length_map.
  destruct ue; [exact IH|reflexivity].
Qed.

(** An iteration of the remove loop against a remote that answers every
    request with a response to its operation. *)
Lemma removeFrom_run remote optionName prod errors rest sent :
  (forall req, answersTo req (remote req) = true) ->
  Index.removeFrom optionName prod errors
    {| script := map remote (removalRequests remote optionName prod) ++ rest;
       log := sent |}
  = (Returned (errors ++ aggregate (answersOf remote (removalRequests remote optionName prod))),
     {| script := rest; log := sent ++ removalRequests remote optionName prod |}).
Proof.
  intros Hkind. unfold removalRequests, Index.removeFrom.
  destruct (Index.findOption optionName prod) as [opt|]; [|cbn; now rewrite !app_nil_r].
  assert (Hdel : forall errs rest' sent',
            Index.deleteOption prod opt errs
              {| script := remote (Index.deleteRequest prod opt) :: rest'; log := sent' |}
            = (Returned (errs ++ map message
                                   (userErrorsOf (remote (Index.deleteRequest prod opt)))),
               {| script := rest'; log := sent' ++ [Index.deleteRequest prod opt] |})).
  { intros errs rest' sent'. specialize (Hkind (Index.deleteRequest prod opt)).
    unfold Index.deleteOption, bind, graphql. cbn [script log].
    destruct (remote (Index.deleteRequest prod opt)) as [edges hn|ue|ue|ids ue];
      try discriminate.
    cbn. destruct ue; cbn; [now rewrite app_nil_r|reflexivity]. }
  destruct (1 <? _)%nat.
  - pose proof (Hkind (Index.updateRequest prod opt)) as Hupd.
    destruct (remote (Index.updateRequest prod opt)) as [edges hn|ue|ue|ids ue] eqn:E;
      try discriminate.
    cbn [userErrorsOf]. destruct ue as [|u ue].
    + cbn [List.length Nat.ltb Nat.leb map app].
      rewrite E. unfold bind at 1. unfold graphql at 1. cbn [script log].
      unfold bind at 1. cbn [data_productOptionUpdate ret List.length Nat.ltb Nat.leb].
      rewrite Hdel. unfold aggregate, answersOf. cbn [map List.concat].
      rewrite E. cbn [userErrorsOf app map].
      now rewrite app_nil_r, <- app_assoc.
    + cbn [List.length Nat.ltb Nat.leb map app].
      rewrite E. unfold aggregate, answersOf. cbn [map List.concat].
      rewrite E. cbn [userErrorsOf]. rewrite app_nil_r. reflexivity.
  - cbn [map app]. rewrite Hdel. unfold aggregate, answersOf. cbn [map List.concat].
    now rewrite app_nil_r.
Qed.

Lemma aggregate_app a b : aggregate (a ++ b) = aggregate a ++ aggregate b.
Proof. unfold aggregate. now rewrite concat_app, map_app. Qed.

(** A run of the remove loop against such a remote follows the removal
    protocol. *)
Lemma removeLoop_run remote optionName prods :
  (forall req, answersTo req (remote req) = true) ->
  forall errors rest sent,
  Index.removeLoop optionName prods errors
    {| script := map remote (removalPlan remote optionName prods) ++ rest;
       log := sent |}
  = (Returned (errors ++ aggregate (answersOf remote (removalPlan remote optionName prods))),
     {| script := rest; log := sent ++ removalPlan remote optionName prods |}).
Proof.
  intros Hkind. unfold removalPlan.
  induction prods as [|prod prods IH]; intros errors rest sent.
  - cbn. now rewrite !app_nil_r.
  - cbn [Index.removeLoop flat_map]. rewrite map_app, <- app_assoc.
    rewrite (bind_returned _ _ _ _ _
               (removeFrom_run remote optionName prod errors _ sent Hkind)).
    rewrite IH. unfold answersOf. rewrite map_app, aggregate_app.
    now rewrite <- !app_assoc.
Qed.

(** C6, as stated, fails: one create-option call that reports two user
    errors (m = 1 of n = 1) leaves two entries in the aggregate error
    list, not one. *)
Lemma aggregate_counts_errors_counterexample :
  let answers := [[invalidName; tooManyOptions]] in
  reporting answers = 1
  /\ Additional.addLoop "Color" colorValues [AdditionalSamples.product 1 ["Size"]] []
       {| script := map ProductOptionsCreate answers; log := [] |}
     = (Returned ["Option name is invalid"; "Cannot create more than 3 options"],
        {| script := [];
           log := [createRequest "Color"
                     [JSON.Str (JSON.codeUnits "Red");
                      JSON.Str (JSON.codeUnits "Green");
                      JSON.Str (JSON.codeUnits "Yellow")]
                     (AdditionalSamples.product 1 ["Size"])] |})
  /\ List.length ["Option name is invalid"; "Cannot create more than 3 options"]
     <> reporting answers.
Proof. repeat split; try reflexivity. discriminate. Qed.

(** C6 (amended): in both workflows the aggregate error list is the
    concatenation, in call order, of the messages of the user errors the
    per-product calls reported: one entry per user error, hence at least m
    entries when m calls report errors, and exactly m when none of them
    reports more than one.  The workflow reports failure exactly when
    m > 0.  No error stops the loop: the add loop sends its request for
    every product of [toAdd], and the remove loop sends for every product
    the requests of the removal protocol, whatever the calls before
    reported. *)
Theorem errors_aggregate_without_short_circuit :
  (forall answers,
     List.length (aggregate answers) = list_sum (map (@List.length UserError) answers)
     /\ reporting answers <= List.length (aggregate answers)
     /\ (Forall (fun ue => List.length ue <= 1) answers ->
         List.length (aggregate answers) = reporting answers))
  /\
  (forall optionName vs prods answers rest sent,
     List.length answers = List.length prods ->
     Additional.addLoop optionName (JSON.Array vs) prods []
       {| script := map ProductOptionsCreate answers ++ rest; log := sent |}
     = (Returned (aggregate answers),
        {| script := rest; log := sent ++ map (createRequest optionName vs) prods |}))
  /\
  (forall form optionName vs before final answers rest sent,
     addFormPasses form optionName (JSON.Array vs) ->
     forallb continues before = true ->
     page_hasNextPage final = false ->
     let missing :=
       Additional.toAdd optionName (flat_map pageNodes (before ++ [final])) in
     List.length answers = List.length missing ->
     Additional.action form
       {| script := map respond (before ++ [final])
                    ++ map ProductOptionsCreate answers ++ rest;
          log := sent |}
     = (Returned
          (if (0 <? reporting answers)%nat
           then {| success := false;
                   error := Some (JS.join "; " (aggregate answers));
                   addedCount := None |}
           else {| success := true; error := None;
                   addedCount := Some (List.length missing) |}),
        {| script := rest;
           log := sent ++ requestsFor None (before ++ [final])
                       ++ map (createRequest optionName vs) missing |}))
  /\
  (forall remote optionName prods rest sent,
     (forall req, answersTo req (remote req) = true) ->
     let plan := removalPlan remote optionName prods in
     Index.removeLoop optionName prods []
       {| script := map remote plan ++ rest; log := sent |}
     = (Returned (aggregate (answersOf remote plan)),
        {| script := rest; log := sent ++ plan |}))
  /\
  (forall form optionName remote before final rest sent,
     removeFormPasses form optionName ->
     (forall req, answersTo req (remote req) = true) ->
     forallb continues before = true ->
     page_hasNextPage final = false ->
     let plan :=
       removalPlan remote optionName (flat_map pageNodes (before ++ [final])) in
     Index.action form
       {| script := map respond (before ++ [final]) ++ map remote plan ++ rest;
          log := sent |}
     = (Returned
          (if (0 <? reporting (answersOf remote plan))%nat
           then {| success := false;
                   error := Some (JS.join "; " (aggregate (answersOf remote plan)));
                   addedCount := None |}
           else {| success := true; error := None; addedCount := None |}),
        {| script := rest;
           log := sent ++ requestsFor None (before ++ [final]) ++ plan |})).
Proof.
  split; [|split; [|split; [|split]]].
  - intros answers. split; [apply aggregate_length|].
    split; [apply reporting_le|apply reporting_exact].
  - intros optionName vs prods answers rest sent Hlen.
    now rewrite addLoop_run.
  - intros form optionName vs before final answers rest sent HA Hb Hf missing Hlen.
    rewrite (additional_action_passes _ _ _ HA).
    rewrite (bind_returned _ _ _ _ _
               (fetchAllProducts_pages _ additional_lastEdge before final _ sent Hb Hf)).
    fold missing.
    rewrite (bind_returned _ _ _ _ _
               (addLoop_run optionName vs missing answers [] rest _ Hlen)).
    cbn [app]. fold (aggregate answers). rewrite reporting_zero, <- app_assoc.
    now destruct (0 <? reporting answers)%nat.
  - intros remote optionName prods rest sent Hkind plan.
    unfold plan. now rewrite removeLoop_run.
  - intros form optionName remote before final rest sent HI Hkind Hb Hf plan.
    rewrite (index_action_passes _ _ HI).
    rewrite (bind_returned _ _ _ _ _
               (fetchAllProducts_pages _ index_lastEdge before final _ sent Hb Hf)).
    fold plan. unfold plan at 1.
    rewrite (bind_returned _ _ _ _ _
               (removeLoop_run remote optionName _ Hkind [] rest _)).
    fold plan. cbn [app]. rewrite reporting_zero, <- app_assoc.
    now destruct (0 <? reporting (answersOf remote plan))%nat.
Qed.

Lemma errors_aggregate_without_short_circuit_witness :
  Additional.action colorForm
    {| script := map respond ([] ++ [threeProducts])
                 ++ map ProductOptionsCreate [[invalidName; tooManyOptions]; []] ++ [];
       log := [] |}
  = (Returned
       (if (0 <? reporting [[invalidName; tooManyOptions]; []])%nat
        then {| success := false;
                error := Some (JS.join "; "
                                 (aggregate [[invalidName; tooManyOptions]; []]));
                addedCount := None |}
        else {| success := true; error := None;
                addedCount :=
                  Some (List.length
                          (Additional.toAdd "Color"
                             (flat_map pageNodes ([] ++ [threeProducts])))) |}),
     {| script := [];
        log := [] ++ requestsFor None ([] ++ [threeProducts])
                  ++ map (createRequest "Color"
                            [JSON.Str (JSON.codeUnits "Red");
                             JSON.Str (JSON.codeUnits "Green");
                             JSON.Str (JSON.codeUnits "Yellow")])
                       (Additional.toAdd "Color"
                          (flat_map pageNodes ([] ++ [threeProducts]))) |})
  /\ Index.action packWeightForm
       {| script := map respond ([] ++ [packPage])
                    ++ map rejectingRemote
                         (removalPlan rejectingRemote "pack weight"
                            (flat_map pageNodes ([] ++ [packPage]))) ++ [];
          log := [] |}
     = (Returned
          (if (0 <? reporting
                      (answersOf rejectingRemote
                         (removalPlan rejectingRemote "pack weight"
                            (flat_map pageNodes ([] ++ [packPage])))))%nat
           then {| success := false;
                   error := Some (JS.join "; "
                                    (aggregate
                                       (answersOf rejectingRemote
                                          (removalPlan rejectingRemote "pack weight"
                                             (flat_map pageNodes ([] ++ [packPage]))))));
                   addedCount := None |}
           else {| success := true; error := None; addedCount := None |}),
        {| script := [];
           log := [] ++ requestsFor None ([] ++ [packPage])
                     ++ removalPlan rejectingRemote "pack weight"
                          (flat_map pageNodes ([] ++ [packPage])) |}).
Proof.
  destruct errors_aggregate_without_short_circuit as (_ & _ & Hadd & _ & Hremove).
  split.
  - apply (Hadd colorForm "Color" _ [] threeProducts
             [[invalidName; tooManyOptions]; []] [] [] colorForm_passes);
      reflexivity.
  - apply (Hremove packWeightForm "pack weight" rejectingRemote [] packPage [] []
             packWeightForm_passes); [|reflexivity|reflexivity].
    intros []; reflexivity.
Defined.

Example aggregate_scenario :
  fst (Additional.action colorForm
         {| script := [respond threeProducts;
                       ProductOptionsCreate [invalidName; tooManyOptions];
                       ProductOptionsCreate []];
            log := [] |})
  = Returned {| success := false;
                error := Some "Option name is invalid; Cannot create more than 3 options";
                addedCount := None |}.
Proof. vm_compute. reflexivity. Qed.

(** ** The result of an action *)

(** C8, as stated, fails for the remove action: its success signal
    carries no count. *)
Lemma remove_success_without_count_counterexample :
  exists result w',
    Index.action packWeightForm removeWorld = (Returned result, w')
    /\ success result = true
    /\ addedCount result = None.
Proof. eexists _, _. split; [vm_compute; reflexivity|]. split; reflexivity. Qed.

(** C8 (amended): when the loop of a write action has ended with the
    aggregate error list [errors], the action reports success exactly when
    [errors] is empty.  On failure the result carries the messages of
    [errors] joined with "; ".  On success the add action carries the count
    of the products of [toAdd]; the remove action carries no count. *)
Theorem action_result_reflects_errors :
  (forall form optionName values w all w1 errors w2,
     addFormPasses form optionName values ->
     fetchAllProducts Additional.lastEdge w = (Returned all, w1) ->
     Additional.addLoop optionName values (Additional.toAdd optionName all) [] w1
       = (Returned errors, w2) ->
     exists result,
       Additional.action form w = (Returned result, w2)
       /\ (success result = true <-> errors = [])
       /\ (errors = [] ->
           result = {| success := true; error := None;
                       addedCount :=
                         Some (List.length (Additional.toAdd optionName all)) |})
       /\ (errors <> [] ->
           result = {| success := false; error := Some (JS.join "; " errors);
                       addedCount := None |}))
  /\
  (forall form optionName w all w1 errors w2,
     removeFormPasses form optionName ->
     fetchAllProducts Index.lastEdge w = (Returned all, w1) ->
     Index.removeLoop optionName all [] w1 = (Returned errors, w2) ->
     exists result,
       Index.action form w = (Returned result, w2)
       /\ (success result = true <-> errors = [])
       /\ (errors = [] ->
           result = {| success := true; error := None; addedCount := None |})
       /\ (errors <> [] ->
           result = {| success := false; error := Some (JS.join "; " errors);
                       addedCount := None |})).
Proof.
  split.
  - intros form optionName values w all w1 errors w2 HA Hfetch Hloop.
    rewrite (additional_action_passes _ _ _ HA).
    rewrite (bind_returned _ _ _ _ _ Hfetch), (bind_returned _ _ _ _ _ Hloop).
    destruct errors as [|e errors]; cbn [List.length Nat.ltb Nat.leb];
      eexists; (split; [reflexivity|]); cbn; repeat split;
      try discriminate; try reflexivity; try contradiction; intuition.
  - intros form optionName w all w1 errors w2 HI Hfetch Hloop.
    rewrite (index_action_passes _ _ HI).
    rewrite (bind_returned _ _ _ _ _ Hfetch), (bind_returned _ _ _ _ _ Hloop).
    destruct errors as [|e errors]; cbn [List.length Nat.ltb Nat.leb];
      eexists; (split; [reflexivity|]); cbn; repeat split;
      try discriminate; try reflexivity; try contradiction; intuition.
Qed.

Lemma action_result_reflects_errors_witness :
  (exists result,
     Additional.action colorForm addWorld
     = (Returned result,
        {| script := [];
           log := [AllProducts 250 None;
                   createRequest "Color" [JSON.Str (JSON.codeUnits "Red");
                                          JSON.Str (JSON.codeUnits "Green");
                                          JSON.Str (JSON.codeUnits "Yellow")]
                     (AdditionalSamples.product 1 ["Size"]);
                   createRequest "Color" [JSON.Str (JSON.codeUnits "Red");
                                          JSON.Str (JSON.codeUnits "Green");
                                          JSON.Str (JSON.codeUnits "Yellow")]
                     (AdditionalSamples.product 3 [])] |})
     /\ (success result = true <-> @nil string = [])
     /\ (@nil string = [] ->
         result = {| success := true; error := None;
                     addedCount :=
                       Some (List.length
                               (Additional.toAdd "Color" (pageNodes threeProducts))) |})
     /\ (@nil string <> [] ->
         result = {| success := false; error := Some (JS.join "; " []);
                     addedCount := None |}))
  /\
  (exists result,
     Index.action packWeightForm
       {| script := [respond packPage; ProductOptionUpdate [rejection]]; log := [] |}
     = (Returned result,
        {| script := [];
           log := [AllProducts 250 None; Index.updateRequest packProduct packWeight] |})
     /\ (success result = true <-> ["Cannot delete option values"] = [])
     /\ (["Cannot delete option values"] = [] ->
         result = {| success := true; error := None; addedCount := None |})
     /\ (["Cannot delete option values"] <> [] ->
         result = {| success := false;
                     error := Some (JS.join "; " ["Cannot delete option values"]);
                     addedCount := None |})).
Proof.
  split.
  - apply (proj1 action_result_reflects_errors colorForm "Color" colorValues addWorld
             (pageNodes threeProducts)
             {| script := [ProductOptionsCreate []; ProductOptionsCreate []];
                log := [AllProducts 250 None] |}
             []).
    + exact colorForm_passes.
    + reflexivity.
    + reflexivity.
  - apply (proj2 action_result_reflects_errors packWeightForm "pack weight"
             {| script := [respond packPage; ProductOptionUpdate [rejection]]; log := [] |}
             (pageNodes packPage)
             {| script := [ProductOptionUpdate [rejection]];
                log := [AllProducts 250 None] |}
             ["Cannot delete option values"]).
    + exact packWeightForm_passes.
    + reflexivity.
    + reflexivity.
Defined.

(** ** Validation of the form *)

(** C7, as stated, fails: a value list that is empty, [[]], passes the
    checks of the add action, which goes on to read the catalog and to
    send a create-option request with no value for each product lacking
    the option. *)
Lemma empty_value_list_counterexample :
  JSON.parse "[]" = Some (JSON.Array [])
  /\ Additional.action emptyListForm addWorld
     = (Returned {| success := true; error := None; addedCount := Some 2 |},
        {| script := [];
           log := [AllProducts 250 None;
                   createRequest "Color" [] (AdditionalSamples.product 1 ["Size"]);
                   createRequest "Color" [] (AdditionalSamples.product 3 [])] |}).
Proof. split; vm_compute; reflexivity. Qed.

(** C7 (amended): when the option name is absent or empty once trimmed,
    or the values field is absent or the empty string, or the values field
    does not parse as JSON, the add action returns a failure with a
    message for the user and the world is as it was: no request has been
    sent, neither the product listing nor a create-option mutation. *)
Theorem malformed_input_rejected_before_any_request form w :
  (forall raw, form_optionName form = Some raw -> JS.trim raw = EmptyString)
  \/ form_values form = None
  \/ form_values form = Some EmptyString
  \/ (exists raw, form_values form = Some raw /\ JSON.parse raw = None) ->
  exists msg,
    Additional.action form w
    = (Returned {| success := false; error := Some msg; addedCount := None |}, w).
Proof.
  intros H. unfold Additional.action.
  destruct (form_optionName form) as [rawName|] eqn:En.
  2: { eexists; reflexivity. }
  destruct (JS.truthy (JS.trim rawName)) eqn:Et; cbn [negb].
  2: { eexists; reflexivity. }
  destruct H as [H|[H|[H|(raw & H & Hp)]]].
  - rewrite (H rawName eq_refl) in Et. discriminate.
  - rewrite H. eexists; reflexivity.
  - rewrite H. eexists; reflexivity.
  - rewrite H. destruct (JS.truthy raw); cbn [negb]; [|eexists; reflexivity].
    rewrite Hp. eexists; reflexivity.
Qed.

Lemma malformed_input_rejected_before_any_request_witness :
  (exists msg,
     Additional.action blankNameForm addWorld
     = (Returned {| success := false; error := Some msg; addedCount := None |}, addWorld))
  /\ (exists msg,
        Additional.action noValuesForm addWorld
        = (Returned {| success := false; error := Some msg; addedCount := None |}, addWorld))
  /\ (exists msg,
        Additional.action unparseableForm addWorld
        = (Returned {| success := false; error := Some msg; addedCount := None |}, addWorld)).
Proof.
  split; [|split].
  - apply (malformed_input_rejected_before_any_request blankNameForm addWorld).
    left. intros raw H. inversion H. reflexivity.
  - apply (malformed_input_rejected_before_any_request noValuesForm addWorld).
    right. left. reflexivity.
  - apply (malformed_input_rejected_before_any_request unparseableForm addWorld).
    right. right. right. exists "Red, Green, Yellow". split; reflexivity.
Defined.

Example validation_messages :
  fst (Additional.action blankNameForm addWorld)
    = Returned (Additional.failure "Please enter an option name.")
  /\ fst (Additional.action noValuesForm addWorld)
    = Returned (Additional.failure "Please provide three values.")
  /\ fst (Additional.action unparseableForm addWorld)
    = Returned (Additional.failure "Invalid values format.").
Proof. repeat split; reflexivity. Qed.

(** C10: a values field that parses as JSON to something other than
    an array passes the checks of the add action; the catalog is read, and
    when some product lacks the option, building the option input for the
    first of them throws a [TypeError], which ends the action: no failure
    is returned to the user and no create-option request is sent. *)
Theorem non_array_values_abort_the_add form optionName values before final rest sent :
  addFormPasses form optionName values ->
  (forall vs, values <> JSON.Array vs) ->
  forallb continues before = true ->
  page_hasNextPage final = false ->
  Additional.toAdd optionName (flat_map pageNodes (before ++ [final])) <> [] ->
  Additional.action form
    {| script := map respond (before ++ [final]) ++ rest; log := sent |}
  = (Thrown TypeError,
     {| script := rest; log := sent ++ requestsFor None (before ++ [final]) |}).
Proof.
  intros HA Hv Hb Hf Hmissing.
  rewrite (additional_action_passes _ _ _ HA).
  rewrite (bind_returned _ _ _ _ _
             (fetchAllProducts_pages _ additional_lastEdge before final _ sent Hb Hf)).
  destruct (Additional.toAdd optionName (flat_map pageNodes (before ++ [final])))
    as [|prod prods]; [contradiction|].
  apply bind_thrown. now apply addLoop_not_array.
Qed.

(** The value string "5": it parses to a number, and the add action
    throws once the catalog is read. *)
Lemma non_array_values_abort_the_add_witness :
  JSON.parse "5" = Some (JSON.Number false 5 0)
  /\ Additional.action fiveForm
       {| script := map respond ([] ++ [threeProducts])
                    ++ [ProductOptionsCreate []; ProductOptionsCreate []];
          log := [] |}
     = (Thrown TypeError,
        {| script := [ProductOptionsCreate []; ProductOptionsCreate []];
           log := [] ++ requestsFor None ([] ++ [threeProducts]) |}).
Proof.
  split; [reflexivity|].
  apply (non_array_values_abort_the_add fiveForm "Color" (JSON.Number false 5 0)
           [] threeProducts).
  - exists "Color", "5". repeat split; reflexivity.
  - discriminate.
  - reflexivity.
  - reflexivity.
  - discriminate.
Defined.

(** * Beyond the loaders and the actions *)

(** ** Strings: append, trim and lower case *)

Lemma append_assoc (a b c : string) : ((a ++ b) ++ c)%string = (a ++ b ++ c)%string.
Proof. induction a as [|x a IH]; [reflexivity|]. cbn. now rewrite IH. Qed.

Lemma append_nil_r (a : string) : (a ++ EmptyString)%string = a.
Proof. induction a as [|x a IH]; [reflexivity|]. cbn. now rewrite IH. Qed.

Lemma length_append (a b : string) :
  String.length (a ++ b)%string = String.length a + String.length b.
Proof. induction a as [|x a IH]; [reflexivity|]. cbn. now rewrite IH. Qed.

Lemma toLowerCase_append (a b : string) :
  JS.toLowerCase (a ++ b)%string = (JS.toLowerCase a ++ JS.toLowerCase b)%string.
Proof. induction a as [|x a IH]; [reflexivity|]. cbn. now rewrite IH. Qed.

Lemma toLowerCase_length (s : string) :
  String.length (JS.toLowerCase s) = String.length s.
Proof. induction s as [|x s IH]; [reflexivity|]. cbn. now rewrite IH. Qed.

(** Lower-casing neither makes nor unmakes white space. *)
Lemma isWhiteSpace_lowerChar c : JS.isWhiteSpace (JS.lowerChar c) = JS.isWhiteSpace c.
Proof. destruct c as [[] [] [] [] [] [] [] []]; reflexivity. Qed.

Lemma trimStart_toLowerCase s :
  JS.trimStart (JS.toLowerCase s) = JS.toLowerCase (JS.trimStart s).
Proof.
  induction s as [|c s IH]; [reflexivity|].
  cbn [JS.toLowerCase JS.trimStart]. rewrite isWhiteSpace_lowerChar.
  destruct (JS.isWhiteSpace c); [exact IH|reflexivity].
Qed.

Lemma trimEnd_toLowerCase s :
  JS.trimEnd (JS.toLowerCase s) = JS.toLowerCase (JS.trimEnd s).
Proof.
  induction s as [|c s IH]; [reflexivity|].
  cbn [JS.toLowerCase JS.trimEnd]. rewrite IH, isWhiteSpace_lowerChar.
  destruct (JS.trimEnd s); cbn [JS.toLowerCase];
    [destruct (JS.isWhiteSpace c)|]; reflexivity.
Qed.

Lemma trim_toLowerCase s : JS.trim (JS.toLowerCase s) = JS.toLowerCase (JS.trim s).
Proof. unfold JS.trim. now rewrite trimStart_toLowerCase, trimEnd_toLowerCase. Qed.

(** What [trim] strips: the string is its trimmed form between two
    runs of characters. *)
Lemma trimStart_factor s : exists a, s = (a ++ JS.trimStart s)%string.
Proof.
  induction s as [|c s [a IH]]; [now exists EmptyString|].
  cbn [JS.trimStart]. destruct (JS.isWhiteSpace c).
  - exists (String c a). cbn. now rewrite <- IH.
  - now exists EmptyString.
Qed.

Lemma trimEnd_factor s : exists b, s = (JS.trimEnd s ++ b)%string.
Proof.
  induction s as [|c s [b IH]]; [now exists EmptyString|].
  cbn [JS.trimEnd]. destruct (JS.trimEnd s) as [|d t] eqn:E.
  - destruct (JS.isWhiteSpace c).
    + exists (String c s). reflexivity.
    + exists b. cbn. now rewrite IH at 1.
  - exists b. cbn. now rewrite IH at 1.
Qed.

Lemma trim_factor s : exists a b, s = (a ++ JS.trim s ++ b)%string.
Proof.
  destruct (trimStart_factor s) as [a Ha].
  destruct (trimEnd_factor (JS.trimStart s)) as [b Hb].
  exists a, b. unfold JS.trim. now rewrite <- Hb.
Qed.

Lemma trimEnd_idempotent s : JS.trimEnd (JS.trimEnd s) = JS.trimEnd s.
Proof.
  induction s as [|c s IH]; [reflexivity|].
  cbn [JS.trimEnd]. destruct (JS.trimEnd s) as [|d t] eqn:E.
  - destruct (JS.isWhiteSpace c) eqn:W; [reflexivity|].
    cbn [JS.trimEnd]. now rewrite W.
  - cbn [JS.trimEnd]. cbn [JS.trimEnd] in IH. now rewrite IH.
Qed.

(** A string that starts with a character that is not white space keeps
    that start through [trimEnd] and [trimStart]. *)
Lemma trimStart_trimEnd_clean s :
  JS.trimStart s = s -> JS.trimStart (JS.trimEnd s) = JS.trimEnd s.
Proof.
  destruct s as [|c s]; [reflexivity|].
  cbn [JS.trimStart]. destruct (JS.isWhiteSpace c) eqn:W.
  - intros H. exfalso. destruct (trimStart_factor s) as [a Ha].
    rewrite H in Ha. apply (f_equal String.length) in Ha.
    rewrite length_append in Ha. cbn in Ha. lia.
  - intros _. cbn [JS.trimEnd]. destruct (JS.trimEnd s); rewrite ?W;
      cbn [JS.trimStart]; now rewrite W.
Qed.

Lemma trimStart_idempotent s : JS.trimStart (JS.trimStart s) = JS.trimStart s.
Proof.
  induction s as [|c s IH]; [reflexivity|].
  cbn [JS.trimStart]. destruct (JS.isWhiteSpace c) eqn:W; [exact IH|].
  cbn [JS.trimStart]. now rewrite W.
Qed.

Lemma trim_idempotent s : JS.trim (JS.trim s) = JS.trim s.
Proof.
  unfold JS.trim.
  rewrite (trimStart_trimEnd_clean _ (trimStart_idempotent s)).
  apply trimEnd_idempotent.
Qed.

Lemma trimStart_length s : String.length (JS.trimStart s) <= String.length s.
Proof.
  destruct (trimStart_factor s) as [a Ha].
  rewrite Ha at 2. rewrite length_append. lia.
Qed.

Lemma trimEnd_length s : String.length (JS.trimEnd s) <= String.length s.
Proof.
  destruct (trimEnd_factor s) as [b Hb].
  rewrite Hb at 2. rewrite length_append. lia.
Qed.

Lemma append_length_eq (a s : string) :
  String.length (a ++ s)%string = String.length s -> a = EmptyString.
Proof. rewrite length_append. destruct a; [reflexivity|cbn; lia]. Qed.

(** A string as long as its trimmed form has nothing to trim. *)
Lemma trim_same_length s :
  String.length (JS.trim s) = String.length s -> JS.trim s = s.
Proof.
  unfold JS.trim. intros H.
  pose proof (trimStart_length s) as H1.
  pose proof (trimEnd_length (JS.trimStart s)) as H2.
  destruct (trimStart_factor s) as [a Ha].
  destruct (trimEnd_factor (JS.trimStart s)) as [b Hb].
  assert (Hs : String.length (JS.trimStart s) = String.length s) by lia.
  assert (He : String.length (JS.trimEnd (JS.trimStart s))
               = String.length (JS.trimStart s)) by lia.
  assert (a = EmptyString) as ->.
  { apply (append_length_eq a (JS.trimStart s)). now rewrite <- Ha. }
  cbn in Ha. rewrite <- Ha in *.
  assert (b = EmptyString) as ->.
  { apply (f_equal String.length) in Hb. rewrite length_append in Hb.
    destruct b; [reflexivity|cbn in Hb; lia]. }
  now rewrite append_nil_r in Hb.
Qed.

Lemma truthy_trim_nonempty s : JS.truthy (JS.trim s) = true -> JS.truthy s = true.
Proof. destruct s; [discriminate|reflexivity]. Qed.

(** Each string of a joined list occurs in the result. *)
Lemma join_includes sep l x : In x l -> JS.includes (JS.join sep l) x = true.
Proof.
  induction l as [|y l IH]; [contradiction|].
  intros [->|Hin].
  - apply includes_spec. exists EmptyString. destruct l as [|z l].
    + exists EmptyString. cbn. now rewrite append_nil_r.
    + now exists (sep ++ JS.join sep (z :: l))%string.
  - specialize (IH Hin). apply includes_spec in IH as (pre & post & H).
    apply includes_spec. destruct l as [|z l]; [contradiction|].
    exists (y ++ sep ++ pre)%string, post.
    change (JS.join sep (y :: z :: l))
      with (y ++ sep ++ JS.join sep (z :: l))%string.
    now rewrite H, !append_assoc.
Qed.

(** ** What the add page sends is what the add action parses *)

Lemma stringBody_quoteChar c rest :
  JSON.stringBody (Stringify.quoteChar c ++ rest)%string
  = JSON.consUnit (N_of_ascii c) (JSON.stringBody rest).
Proof. destruct c as [[] [] [] [] [] [] [] []]; reflexivity. Qed.

Lemma stringBody_quoteBody s rest :
  JSON.stringBody (Stringify.quoteBody s ++ String "034" rest)%string
  = JSON.Parsed (JSON.codeUnits s) rest.
Proof.
  induction s as [|c s IH]; [reflexivity|].
  cbn [Stringify.quoteBody]. rewrite append_assoc, stringBody_quoteChar, IH.
  reflexivity.
Qed.

Lemma parseValue_quote fuel v rest :
  JSON.parseValue (S fuel) (Stringify.quote v ++ rest)%string
  = JSON.Parsed (JSON.Str (JSON.codeUnits v)) rest.
Proof.
  unfold Stringify.quote. cbn [append]. rewrite append_assoc. cbn [append].
  cbn [JSON.parseValue JSON.skipWs].
  change (JSON.isWs "034") with false. cbv iota.
  change (Ascii.eqb "034" "[") with false.
  change (Ascii.eqb "034" "{") with false.
  change (Ascii.eqb "034" "034") with true. cbv iota.
  now rewrite stringBody_quoteBody.
Qed.

Lemma parseElements_quoted vs :
  forall fuel acc tail,
  vs <> [] ->
  List.length vs < fuel ->
  JSON.parseElements fuel
    (JS.join "," (map Stringify.quote vs) ++ String "]" tail)%string acc
  = JSON.Parsed
      (JSON.Array (rev acc ++ map (fun v => JSON.Str (JSON.codeUnits v)) vs))
      tail.
Proof.
  induction vs as [|v vs IH]; intros fuel acc tail Hne Hlen; [contradiction|].
  destruct fuel as [|fuel]; [cbn in Hlen; lia|].
  assert (Hv : forall rest,
             JSON.parseValue fuel (Stringify.quote v ++ rest)%string
             = JSON.Parsed (JSON.Str (JSON.codeUnits v)) rest).
  { intros rest. destruct fuel; [cbn in Hlen; lia|]. apply parseValue_quote. }
  destruct vs as [|v2 vs].
  - cbn [map JS.join JSON.parseElements]. rewrite Hv. reflexivity.
  - change (JS.join "," (map Stringify.quote (v :: v2 :: vs)))
      with (Stringify.quote v ++ "," ++ JS.join "," (map Stringify.quote (v2 :: vs)))%string.
    rewrite !append_assoc. cbn [JSON.parseElements]. rewrite Hv.
    change (JSON.expect "," ("," ++ ?x)%string) with (Some x).
    cbv match. rewrite IH; [|discriminate|cbn in *; lia].
    cbn [rev map]. now rewrite <- app_assoc.
Qed.

Lemma join_quoted_length vs :
  List.length vs <= String.length (JS.join "," (map Stringify.quote vs)).
Proof.
  induction vs as [|v vs IH]; [reflexivity|].
  destruct vs as [|v2 vs].
  - cbn. lia.
  - change (JS.join "," (map Stringify.quote (v :: v2 :: vs)))
      with (Stringify.quote v ++ "," ++ JS.join "," (map Stringify.quote (v2 :: vs)))%string.
    rewrite !length_append. cbn [List.length] in *. cbn [String.length]. lia.
Qed.

(** [JSON.parse] undoes [JSON.stringify] on an array of strings. *)
Lemma parse_stringify_strings (values : list string) :
  JSON.parse (Stringify.strings values)
  = Some (JSON.Array (map (fun v => JSON.Str (JSON.codeUnits v)) values)).
Proof.
  unfold JSON.parse, Stringify.strings.
  replace (2 * String.length ("[" ++ JS.join "," (map Stringify.quote values) ++ "]")%string + 1)
    with (S (2 * String.length ("[" ++ JS.join "," (map Stringify.quote values) ++ "]")%string))
    by lia.
  cbn [append JSON.parseValue JSON.skipWs].
  change (JSON.isWs "[") with false. cbv iota.
  change (Ascii.eqb "[" "[") with true. cbv iota.
  destruct values as [|v vs].
  - reflexivity.
  - assert (Hexp : JSON.expect "]"
                     (JS.join "," (map Stringify.quote (v :: vs)) ++ "]")%string = None).
    { destruct vs; reflexivity. }
    rewrite Hexp.
    rewrite parseElements_quoted; [reflexivity|discriminate|].
    pose proof (join_quoted_length (v :: vs)) as H.
    cbn [String.length]. rewrite length_append. cbn [String.length]. lia.
Qed.

(** X1: what the add page sends for its values, [JSON.stringify(values)],
    is never the empty string and is parsed by the add action back into the
    array of those strings, whatever characters they hold (quotes,
    backslashes, control characters); the action then builds from it one
    value input per string, in order, without throwing. *)
Theorem page_values_round_trip (values : list string) (w : World Additional.Product) :
  JS.truthy (Stringify.strings values) = true
  /\ JSON.parse (Stringify.strings values)
     = Some (JSON.Array (map (fun v => JSON.Str (JSON.codeUnits v)) values))
  /\ (forall parsed,
        JSON.parse (Stringify.strings values) = Some parsed ->
        Additional.mapValues parsed w
        = (Returned (map (fun v => {| value_name := JSON.Str (JSON.codeUnits v) |})
                         values), w)).
Proof.
  split; [reflexivity|]. split; [apply parse_stringify_strings|].
  intros parsed H. rewrite parse_stringify_strings in H. inversion H; subst.
  cbn [Additional.mapValues]. now rewrite map_map.
Qed.

Lemma page_values_round_trip_witness :
  Additional.mapValues colorValues addWorld
  = (Returned (map (fun v => {| value_name := JSON.Str (JSON.codeUnits v) |})
                   ["Red"; "Green"; "Yellow"]), addWorld).
Proof.
  apply (proj2 (proj2 (page_values_round_trip ["Red"; "Green"; "Yellow"] addWorld))).
  reflexivity.
Defined.

(** What the add page submits passes the checks of the add action as soon
    as the name typed is not blank. *)
Lemma page_submission_passes st :
  JS.truthy (JS.trim (AdditionalPage.optionName st)) = true ->
  addFormPasses (AdditionalPage.submit st)
    (JS.trim (AdditionalPage.optionName st))
    (JSON.Array (map (fun v => JSON.Str (JSON.codeUnits v)) (AdditionalPage.values st))).
Proof.
  intros Ht.
  exists (AdditionalPage.optionName st), (Stringify.strings (AdditionalPage.values st)).
  repeat split; [exact Ht|apply parse_stringify_strings].
Qed.

(** ** The add page *)

Lemma canSubmit_name products submitting st :
  AdditionalPage.canSubmit products submitting st = true ->
  JS.truthy (JS.trim (AdditionalPage.optionName st)) = true.
Proof.
  unfold AdditionalPage.canSubmit, AdditionalPage.buttonShown, AdditionalPage.missing.
  destruct (JS.truthy (JS.trim (AdditionalPage.optionName st))); [reflexivity|].
  discriminate.
Qed.

Lemma canSubmit_values products submitting st :
  AdditionalPage.canSubmit products submitting st = true ->
  Forall (fun v => JS.truthy v = true) (AdditionalPage.values st).
Proof.
  unfold AdditionalPage.canSubmit, AdditionalPage.buttonDisabled.
  intros H. apply andb_prop in H as [_ H]. apply negb_true_iff in H.
  apply orb_false_elim in H as [_ H].
  apply Forall_forall. intros v Hin.
  destruct (JS.truthy v) eqn:E; [reflexivity|].
  assert (existsb (fun v => negb (JS.truthy v)) (AdditionalPage.values st) = true).
  { apply existsb_exists. exists v. now rewrite E. }
  congruence.
Qed.

(** X2: whenever the add page lets the button be clicked, what it
    submits passes every check of the add action: the option name is not
    blank and the values parse to the array of the strings typed, none of
    them empty.  On a well-formed catalog the action then sends, for each
    product lacking the trimmed name, a create-option request with exactly
    those values. *)
Theorem add_page_submission_passes products submitting st :
  AdditionalPage.canSubmit products submitting st = true ->
  let optionName := JS.trim (AdditionalPage.optionName st) in
  let vs := map (fun v => JSON.Str (JSON.codeUnits v)) (AdditionalPage.values st) in
  addFormPasses (AdditionalPage.submit st) optionName (JSON.Array vs)
  /\ Forall (fun v => JS.truthy v = true) (AdditionalPage.values st)
  /\ forall before final answers rest sent,
       forallb continues before = true ->
       page_hasNextPage final = false ->
       List.length answers
       = List.length (Additional.toAdd optionName
                        (flat_map pageNodes (before ++ [final]))) ->
       exists result,
         Additional.action (AdditionalPage.submit st)
           {| script := map respond (before ++ [final])
                        ++ map ProductOptionsCreate answers ++ rest;
              log := sent |}
         = (Returned result,
            {| script := rest;
               log := sent ++ requestsFor None (before ++ [final])
                           ++ map (createRequest optionName vs)
                                (Additional.toAdd optionName
                                   (flat_map pageNodes (before ++ [final]))) |}).
Proof.
  intros Hcan optionName vs.
  assert (HA : addFormPasses (AdditionalPage.submit st) optionName (JSON.Array vs)).
  { exists (AdditionalPage.optionName st), (Stringify.strings (AdditionalPage.values st)).
    repeat split.
    - exact (canSubmit_name _ _ _ Hcan).
    - apply parse_stringify_strings. }
  split; [exact HA|]. split; [exact (canSubmit_values _ _ _ Hcan)|].
  intros before final answers rest sent Hb Hf Hlen.
  rewrite (additional_action_passes _ _ _ HA).
  rewrite (bind_returned _ _ _ _ _
             (fetchAllProducts_pages _ additional_lastEdge before final _ sent Hb Hf)).
  rewrite (bind_returned _ _ _ _ _
             (addLoop_run optionName vs _ answers [] rest _ Hlen)).
  rewrite <- app_assoc.
  destruct (0 <? _)%nat; eexists; reflexivity.
Qed.

Lemma add_page_submission_passes_witness :
  addFormPasses (AdditionalPage.submit typedColor)
    (JS.trim (AdditionalPage.optionName typedColor))
    (JSON.Array (map (fun v => JSON.Str (JSON.codeUnits v))
                     (AdditionalPage.values typedColor)))
  /\ Forall (fun v => JS.truthy v = true) (AdditionalPage.values typedColor).
Proof.
  destruct (add_page_submission_passes (pageNodes threeProducts) false typedColor)
    as (H1 & H2 & _); [reflexivity|].
  split; [exact H1|exact H2].
Defined.

Lemma assign_within arr :
  forall i v, i < List.length arr ->
  exists next, AdditionalPage.assign arr i v = Some next
               /\ List.length next = List.length arr.
Proof.
  induction arr as [|x arr IH]; intros i v Hi; [cbn in Hi; lia|].
  destruct i as [|i]; cbn [AdditionalPage.assign].
  - now exists (v :: arr).
  - destruct (IH i v) as (next & -> & Hlen); [cbn in Hi; lia|].
    exists (x :: next). cbn. now rewrite Hlen.
Qed.

(** X3: in every state the add page goes through, the values array has
    exactly three entries, and every event the page can raise there is
    handled without leaving a hole in the array; so a submission always
    carries three values. *)
Theorem add_page_keeps_three_values st :
  AdditionalPage.reachable st ->
  List.length (AdditionalPage.values st) = 3
  /\ (forall ev, AdditionalPage.allowed ev = true ->
        exists st', AdditionalPage.handle st ev = Some st'
                    /\ List.length (AdditionalPage.values st') = 3)
  /\ exists a b c,
       form_values (AdditionalPage.submit st) = Some (Stringify.strings [a; b; c])
       /\ JSON.parse (Stringify.strings [a; b; c])
          = Some (JSON.Array [JSON.Str (JSON.codeUnits a);
                              JSON.Str (JSON.codeUnits b);
                              JSON.Str (JSON.codeUnits c)]).
Proof.
  assert (Hstep : forall s ev, List.length (AdditionalPage.values s) = 3 ->
            AdditionalPage.allowed ev = true ->
            exists s', AdditionalPage.handle s ev = Some s'
                       /\ List.length (AdditionalPage.values s') = 3).
  { intros s ev Hlen Hev. destruct ev as [v| |i v|]; cbn [AdditionalPage.handle].
    - now eexists.
    - now eexists.
    - destruct (assign_within (AdditionalPage.values s) i v) as (next & -> & Hn).
      + cbn in Hev. rewrite Hlen.
        destruct i as [|[|[|i]]]; [lia|lia|lia|discriminate].
      + eexists. split; [reflexivity|]. cbn. congruence.
    - now eexists. }
  intros Hreach.
  assert (Hlen : List.length (AdditionalPage.values st) = 3).
  { induction Hreach as [|s ev s' _ IH Hev Hh]; [reflexivity|].
    destruct (Hstep s ev IH Hev) as (s'' & Hh' & Hl). congruence. }
  split; [exact Hlen|]. split; [intros ev; now apply Hstep|].
  destruct (AdditionalPage.values st) as [|a [|b [|c [|d l]]]] eqn:E;
    try discriminate.
  exists a, b, c. unfold AdditionalPage.submit. rewrite E.
  split; [reflexivity|apply parse_stringify_strings].
Qed.

Lemma typedColor_reachable : AdditionalPage.reachable typedColor.
Proof.
  apply (AdditionalPage.reachable_handle
           {| AdditionalPage.optionName := "Color";
              AdditionalPage.values := ["Red"; "Green"; EmptyString] |}
           (AdditionalPage.ValueChanged 2 "Yellow")); [|reflexivity|reflexivity].
  apply (AdditionalPage.reachable_handle
           {| AdditionalPage.optionName := "Color";
              AdditionalPage.values := ["Red"; EmptyString; EmptyString] |}
           (AdditionalPage.ValueChanged 1 "Green")); [|reflexivity|reflexivity].
  apply (AdditionalPage.reachable_handle
           {| AdditionalPage.optionName := "Color";
              AdditionalPage.values := [EmptyString; EmptyString; EmptyString] |}
           (AdditionalPage.ValueChanged 0 "Red")); [|reflexivity|reflexivity].
  apply (AdditionalPage.reachable_handle AdditionalPage.initial
           (AdditionalPage.OptionNameChanged "Color")); [|reflexivity|reflexivity].
  apply AdditionalPage.reachable_initial.
Defined.

Lemma add_page_keeps_three_values_witness :
  List.length (AdditionalPage.values typedColor) = 3
  /\ exists st', AdditionalPage.handle typedColor (AdditionalPage.ValueChanged 1 "Blue")
                 = Some st'
                 /\ List.length (AdditionalPage.values st') = 3.
Proof.
  destruct (add_page_keeps_three_values typedColor typedColor_reachable)
    as (H1 & H2 & _).
  split; [exact H1|]. apply H2. reflexivity.
Defined.

(** A name with white space around it equals no trimmed name, letter case
    aside. *)
Lemma padded_name_matches_no_trimmed_name name optionName :
  JS.trim name = name ->
  JS.trim optionName <> optionName ->
  JS.toLowerCase name <> JS.toLowerCase optionName.
Proof.
  intros Hn Hp Heq. apply Hp. apply trim_same_length.
  assert (H : JS.trim (JS.toLowerCase optionName) = JS.toLowerCase optionName).
  { rewrite <- Heq, trim_toLowerCase. now rewrite Hn. }
  rewrite trim_toLowerCase in H. apply (f_equal String.length) in H.
  now rewrite !toLowerCase_length in H.
Qed.

(** X4: the products the add page counts as missing against the
    products the add action adds the option to, on the same catalog whose
    option names carry no white space around them.  When the name typed has
    none either, the two agree.  When it has, the page counts every product
    as missing, while the action adds to those lacking the trimmed name
    only; in both cases the action adds to no product the page did not
    list. *)
Theorem page_missing_against_action_toAdd products st :
  namesTrimmed products ->
  JS.truthy (JS.trim (AdditionalPage.optionName st)) = true ->
  let typed := AdditionalPage.optionName st in
  (JS.trim typed = typed ->
     AdditionalPage.missing products st = Additional.toAdd (JS.trim typed) products)
  /\ (JS.trim typed <> typed -> AdditionalPage.missing products st = products)
  /\ incl (Additional.toAdd (JS.trim typed) products)
          (AdditionalPage.missing products st).
Proof.
  intros Hnames Ht typed. subst typed.
  set (typed := AdditionalPage.optionName st) in *.
  assert (Hclean : JS.trim typed = typed ->
            AdditionalPage.missing products st
            = Additional.toAdd (JS.trim typed) products).
  { intros E. unfold AdditionalPage.missing. fold typed. rewrite Ht, E. reflexivity. }
  assert (Hpadded : JS.trim typed <> typed ->
            AdditionalPage.missing products st = products).
  { intros Hp. unfold AdditionalPage.missing. fold typed. rewrite Ht. cbn [negb].
    apply forallb_filter_id. apply forallb_forall. intros p Hin.
    apply negb_true_iff.
    destruct (Additional.hasOption typed p) eqn:E; [|reflexivity].
    apply hasOption_spec in E as (o & Ho & Heq).
    exfalso. now apply (padded_name_matches_no_trimmed_name
                          (Additional.name o) typed (Hnames p o Hin Ho) Hp). }
  split; [exact Hclean|]. split; [exact Hpadded|].
  destruct (String.string_dec (JS.trim typed) typed) as [E|E].
  - rewrite (Hclean E). apply incl_refl.
  - rewrite (Hpadded E). intros p Hin. unfold Additional.toAdd in Hin.
    now apply filter_In in Hin.
Qed.

Lemma page_missing_against_action_toAdd_witness :
  AdditionalPage.missing (pageNodes threeProducts) typedPaddedColor
  = pageNodes threeProducts
  /\ incl (Additional.toAdd (JS.trim (AdditionalPage.optionName typedPaddedColor))
                            (pageNodes threeProducts))
          (AdditionalPage.missing (pageNodes threeProducts) typedPaddedColor).
Proof.
  destruct (page_missing_against_action_toAdd (pageNodes threeProducts) typedPaddedColor)
    as (_ & H2 & H3).
  - intros p o Hp Ho. cbn in Hp.
    destruct Hp as [<-|[<-|[<-|[]]]]; cbn in Ho;
      repeat (destruct Ho as [<-|Ho]; [reflexivity|]); contradiction.
  - reflexivity.
  - split; [apply H2; discriminate|exact H3].
Defined.

(** ** The remove page *)

(** The reader always sends the first listing, with no cursor. *)
Lemma fetchAllProducts_first_request {Node} lastEdge (w : World Node) :
  exists out w' more,
    fetchAllProducts lastEdge w = (out, w')
    /\ log w' = log w ++ AllProducts 250 None :: more.
Proof.
  unfold fetchAllProducts. cbn [whileHasNext].
  match goal with |- context [bind (graphql ?r) ?k w] =>
    destruct (bind_log_prefix (graphql r) k w
               (fst (graphql r w)) (snd (graphql r w)) (log w ++ [r]))
      as (out & w' & more & Hrun & Hlog)
  end.
  - intros resp. apply (sends_appends (fun _ => True)).
    apply sends_bind; [apply sends_data_products|].
    intros [edges [|]]; [|apply sends_ret].
    destruct (lastEdge edges); [now apply sends_whileHasNext|apply sends_throw].
  - apply surjective_pairing.
  - exists []. unfold graphql. destruct (script w); cbn; now rewrite app_nil_r.
  - exists out, w', more. split; [exact Hrun|]. now rewrite Hlog, <- app_assoc.
Qed.

(** A remove action on a form that passes its check reads the catalog. *)
Lemma index_action_first_request form optionName w :
  removeFormPasses form optionName ->
  exists out w' more,
    Index.action form w = (out, w')
    /\ log w' = log w ++ AllProducts 250 None :: more.
Proof.
  intros HI. rewrite (index_action_passes _ _ HI).
  destruct (fetchAllProducts_first_request Index.lastEdge w)
    as (o1 & w1 & m1 & Hrun & Hlog).
  destruct (bind_log_prefix (fetchAllProducts Index.lastEdge)
              (fun allProducts =>
                 errors <- Index.removeLoop optionName allProducts [] ;;
                 if (0 <? List.length errors)%nat
                 then ret (Index.failure (JS.join "; " errors))
                 else ret {| success := true; error := None; addedCount := None |})
              w o1 w1 (log w ++ [AllProducts 250 None]))
    as (out & w' & more & Hact & Hlog').
  - intros all. apply (sends_appends (fun _ => True)).
    apply sends_bind; [now apply sends_removeLoop|].
    intros errors. destruct (0 <? _)%nat; apply sends_ret.
  - exact Hrun.
  - exists m1. now rewrite Hlog, <- app_assoc.
  - exists out, w', more. split; [exact Hact|]. now rewrite Hlog', <- app_assoc.
Qed.

(** X5: a click on the button of the remove page submits exactly when
    the search term is not blank; it then submits the trimmed term and keeps
    it as the last term, and the remove action accepts the submission: it
    goes on to read the catalog instead of answering that the name is
    missing.  On a blank term the click shows a toast and changes nothing. *)
Theorem remove_click_submits_trimmed_term st :
  match snd (IndexPage.onClick st) with
  | IndexPage.Submitted form =>
      JS.truthy (JS.trim (IndexPage.searchTerm st)) = true
      /\ form = {| form_optionName := Some (JS.trim (IndexPage.searchTerm st));
                   form_values := None |}
      /\ removeFormPasses form (JS.trim (IndexPage.searchTerm st))
      /\ IndexPage.lastTerm (fst (IndexPage.onClick st))
         = JS.trim (IndexPage.searchTerm st)
      /\ forall w, exists out w' more,
           Index.action form w = (out, w')
           /\ log w' = log w ++ AllProducts 250 None :: more
  | IndexPage.ToastError _ =>
      JS.truthy (JS.trim (IndexPage.searchTerm st)) = false
      /\ fst (IndexPage.onClick st) = st
  end.
Proof.
  unfold IndexPage.onClick.
  destruct (JS.truthy (JS.trim (IndexPage.searchTerm st))) eqn:Ht; cbn.
  - assert (HI : removeFormPasses
                   {| form_optionName := Some (JS.trim (IndexPage.searchTerm st));
                      form_values := None |}
                   (JS.trim (IndexPage.searchTerm st))).
    { exists (JS.trim (IndexPage.searchTerm st)). cbn.
      rewrite trim_idempotent. now repeat split. }
    repeat split; try exact HI.
    intros w. now apply index_action_first_request with (optionName := JS.trim (IndexPage.searchTerm st)).
  - now split.
Qed.

Lemma hasMatch_findOption term p :
  IndexPage.hasMatch term p = true
  <-> exists opt, Index.findOption term p = Some opt.
Proof.
  unfold IndexPage.hasMatch, Index.findOption. rewrite existsb_exists. split.
  - intros (o & Hin & Hm).
    destruct (find (Index.matches term) (Index.options p)) as [opt|] eqn:E;
      [now exists opt|].
    rewrite (find_none _ _ E o Hin) in Hm. discriminate.
  - intros [opt H]. apply find_some in H. now exists opt.
Qed.

(** An option that matches a term matches the trimmed term. *)
Lemma matches_trim term o :
  Index.matches term o = true -> Index.matches (JS.trim term) o = true.
Proof.
  rewrite !matches_spec. unfold containsIgnoringCase.
  intros (pre & post & H).
  destruct (trim_factor term) as (a & b & Hterm).
  rewrite Hterm in H at 1. rewrite !toLowerCase_append in H.
  exists (pre ++ JS.toLowerCase a)%string, (JS.toLowerCase b ++ post)%string.
  now rewrite H, !append_assoc.
Qed.

(** X6: the products the remove page counts for a search term are all
    targets of the remove action, which works on the trimmed term: each of
    them has an option the action will find.  When the term has no white
    space around it, the products counted are exactly the targets. *)
Theorem page_filtered_within_action_targets st p :
  JS.truthy (JS.trim (IndexPage.searchTerm st)) = true ->
  (In p (IndexPage.filtered st) ->
     In p (IndexPage.localProducts st)
     /\ exists opt, Index.findOption (JS.trim (IndexPage.searchTerm st)) p = Some opt)
  /\ (JS.trim (IndexPage.searchTerm st) = IndexPage.searchTerm st ->
      (In p (IndexPage.filtered st)
       <-> In p (IndexPage.localProducts st)
           /\ exists opt, Index.findOption (JS.trim (IndexPage.searchTerm st)) p = Some opt)).
Proof.
  intros Ht. unfold IndexPage.filtered. rewrite Ht. cbn [negb]. split.
  - intros Hin. apply filter_In in Hin as [Hin Hm]. split; [exact Hin|].
    apply hasMatch_findOption. unfold IndexPage.hasMatch in *.
    apply existsb_exists in Hm as (o & Ho & Hm). apply existsb_exists.
    exists o. split; [exact Ho|now apply matches_trim].
  - intros E. rewrite E, filter_In, hasMatch_findOption. reflexivity.
Qed.

Lemma page_filtered_within_action_targets_witness :
  In packProduct (IndexPage.localProducts searchingPack)
  /\ exists opt,
       Index.findOption (JS.trim (IndexPage.searchTerm searchingPack)) packProduct
       = Some opt.
Proof.
  apply (proj1 (page_filtered_within_action_targets searchingPack packProduct
                  eq_refl)).
  left. reflexivity.
Defined.

Lemma filter_none {A} (f : A -> bool) (l : list A) :
  (forall x, In x l -> f x = false) -> filter f l = [].
Proof.
  induction l as [|x l IH]; intros H; [reflexivity|].
  cbn [filter]. rewrite (H x (or_introl eq_refl)).
  apply IH. intros y Hy. apply H. now right.
Qed.

Lemma withoutOption_no_match term p :
  IndexPage.hasMatch term (IndexPage.withoutOption term p) = false.
Proof.
  unfold IndexPage.hasMatch, IndexPage.withoutOption. cbn [Index.options].
  destruct (existsb _ _) eqn:E; [|reflexivity].
  apply existsb_exists in E as (o & Hin & Hm).
  apply filter_In in Hin as [_ Hn]. rewrite Hm in Hn. discriminate.
Qed.

Lemma withoutOption_idempotent term p :
  IndexPage.withoutOption term (IndexPage.withoutOption term p)
  = IndexPage.withoutOption term p.
Proof.
  unfold IndexPage.withoutOption. cbn [Index.id Index.title Index.options].
  f_equal. induction (Index.options p) as [|o l IH]; [reflexivity|].
  cbn [filter]. destruct (negb (Index.matches term o)) eqn:E; [|exact IH].
  cbn [filter]. now rewrite E, IH.
Qed.

(** X7: after a successful removal the page keeps every product, with
    its id and title, and drops from each of them every option whose name
    contains the term removed, keeping the others in order; no product then
    matches that term, so searching for it again shows nothing, and running
    the effect again changes nothing.  The search term is reset, so a click
    on the button then sends nothing until a term is typed. *)
Theorem local_removal_drops_every_match st :
  let st' := IndexPage.onSuccess st in
  let term := IndexPage.lastTerm st in
  map Index.id (IndexPage.localProducts st')
    = map Index.id (IndexPage.localProducts st)
  /\ map Index.title (IndexPage.localProducts st')
     = map Index.title (IndexPage.localProducts st)
  /\ map Index.options (IndexPage.localProducts st')
     = map (fun p => filter (fun o => negb (Index.matches term o)) (Index.options p))
           (IndexPage.localProducts st)
  /\ (forall p, In p (IndexPage.localProducts st') ->
        Index.findOption term p = None)
  /\ (JS.truthy (JS.trim term) = true ->
      IndexPage.filtered
        {| IndexPage.localProducts := IndexPage.localProducts st';
           IndexPage.searchTerm := term;
           IndexPage.lastTerm := term |} = [])
  /\ IndexPage.onSuccess st' = st'
  /\ IndexPage.onClick st' = (st', IndexPage.ToastError "Enter an option name first").
Proof.
  intros st' term. unfold st', IndexPage.onSuccess. cbn [IndexPage.localProducts].
  assert (Hnone : forall p, In p (map (IndexPage.withoutOption term)
                                      (IndexPage.localProducts st)) ->
                    IndexPage.hasMatch term p = false).
  { intros p Hin. apply in_map_iff in Hin as (q & <- & _).
    apply withoutOption_no_match. }
  split; [now rewrite map_map|]. split; [now rewrite map_map|].
  split; [now rewrite map_map|]. split; [|split; [|split; [|reflexivity]]].
  - intros p Hin. specialize (Hnone p Hin).
    destruct (Index.findOption term p) as [opt|] eqn:E; [|reflexivity].
    assert (IndexPage.hasMatch term p = true)
      by (apply hasMatch_findOption; now exists opt).
    congruence.
  - intros Ht. unfold IndexPage.filtered.
    cbn [IndexPage.searchTerm IndexPage.localProducts]. rewrite Ht. cbn [negb].
    apply filter_none. exact Hnone.
  - cbn [IndexPage.lastTerm IndexPage.searchTerm]. f_equal.
    rewrite map_map. apply map_ext. intros p. apply withoutOption_idempotent.
Qed.

Lemma local_removal_drops_every_match_witness :
  (forall p, In p (IndexPage.localProducts (IndexPage.onSuccess removedPack)) ->
     Index.findOption (IndexPage.lastTerm removedPack) p = None)
  /\ IndexPage.filtered
       {| IndexPage.localProducts :=
            IndexPage.localProducts (IndexPage.onSuccess removedPack);
          IndexPage.searchTerm := IndexPage.lastTerm removedPack;
          IndexPage.lastTerm := IndexPage.lastTerm removedPack |} = [].
Proof.
  destruct (local_removal_drops_every_match removedPack)
    as (_ & _ & _ & H4 & H5 & _ & _).
  split; [exact H4|]. apply H5. reflexivity.
Defined.

(** X8: for a product with two options that match the term, the remove
    action sends requests about the first of them only, whatever the remote
    answers, while the page, after a success, drops both: the second option,
    which no request names, is gone from the page. *)
Theorem page_drops_more_than_action_deletes term prod first second errors w :
  Index.findOption term prod = Some first ->
  In second (Index.options prod) ->
  Index.matches term second = true ->
  Index.optionId second <> Index.optionId first ->
  ~ In second (Index.options (IndexPage.withoutOption term prod))
  /\ ~ In first (Index.options (IndexPage.withoutOption term prod))
  /\ exists out w' more,
       Index.removeFrom term prod errors w = (out, w')
       /\ log w' = log w ++ more
       /\ more <> []
       /\ Forall (mentionsOption (Index.optionId first)) more
       /\ Forall (fun r => ~ mentionsOption (Index.optionId second) r) more.
Proof.
  intros Hfirst Hin Hm Hid.
  assert (Hmf : Index.matches term first = true).
  { unfold Index.findOption in Hfirst. now apply find_some in Hfirst. }
  split; [|split].
  - cbn. rewrite filter_In, Hm. now intros [_ H].
  - cbn. rewrite filter_In, Hmf. now intros [_ H].
  - destruct (removeFrom_requests term prod first errors w Hfirst)
      as (out & w' & more & Hrun & Hlog & Hmore).
    exists out, w', (firstRequest prod first :: more).
    split; [exact Hrun|]. split; [exact Hlog|]. split; [discriminate|].
    assert (Hreq : mentionsOption (Index.optionId first) (firstRequest prod first)
                   /\ ~ mentionsOption (Index.optionId second) (firstRequest prod first)).
    { unfold firstRequest. destruct (1 <? _)%nat; cbn.
      - split; [reflexivity|]. intros H. now apply Hid.
      - split; [now left|]. intros [H|[]]. now apply Hid. }
    destruct Hmore as [->|[-> _]].
    + split; constructor; try apply Hreq; constructor.
    + split; (constructor; [apply Hreq|constructor; [|constructor]]).
      * cbn. now left.
      * cbn. intros [H|[]]. now apply Hid.
Qed.

Lemma page_drops_more_than_action_deletes_witness :
  ~ In giftPackWeight (Index.options (IndexPage.withoutOption "pack weight" packProduct))
  /\ ~ In packWeight (Index.options (IndexPage.withoutOption "pack weight" packProduct))
  /\ exists out w' more,
       Index.removeFrom "pack weight" packProduct [] removeWorld = (out, w')
       /\ log w' = log removeWorld ++ more
       /\ more <> []
       /\ Forall (mentionsOption (Index.optionId packWeight)) more
       /\ Forall (fun r => ~ mentionsOption (Index.optionId giftPackWeight) r) more.
Proof.
  apply (page_drops_more_than_action_deletes "pack weight" packProduct
           packWeight giftPackWeight [] removeWorld).
  - reflexivity.
  - right. right. left. reflexivity.
  - reflexivity.
  - discriminate.
Defined.

(** ** What the loaders and the actions send, in any world *)

Lemma whileHasNext_requests {Node} lastEdge fuel :
  forall all after (w : World Node) out w',
  whileHasNext lastEdge (S fuel) all after w = (out, w') ->
  exists more,
    log w' = log w ++ AllProducts 250 after :: more
    /\ Forall (fun r => exists c, r = AllProducts 250 (Some c)) more.
Proof.
  induction fuel as [|fuel IH]; intros all after [scr lg] out w';
    cbn [whileHasNext]; unfold bind, graphql; cbn [script log];
    (destruct scr as [|resp scr];
     [intros H; inversion H; now exists []|]);
    (destruct resp as [edges [|]| | |]; cbn;
     try (intros H; inversion H; now exists []));
    (destruct (lastEdge edges) as [e|];
     [|intros H; inversion H; now exists []]).
  - intros H. inversion H. now exists [].
  - intros H. apply IH in H as (more & Hlog & Hall). cbn [log] in Hlog.
    exists (AllProducts 250 (Some (cursor e)) :: more).
    split; [now rewrite Hlog, <- app_assoc|].
    constructor; [now exists (cursor e)|exact Hall].
Qed.

(** X9: in any world a loader sends product listings only, 250 products
    a page: the first without a cursor, every later one with a cursor; it
    sends no mutation, and it ends by returning or throwing. *)
Theorem loaders_only_list_products :
  (forall w, exists out w' more,
     Additional.loader w = (out, w')
     /\ out <> Diverged
     /\ log w' = log w ++ AllProducts 250 None :: more
     /\ Forall (fun r => exists c, r = AllProducts 250 (Some c)) more)
  /\ (forall w, exists out w' more,
        Index.loader w = (out, w')
        /\ out <> Diverged
        /\ log w' = log w ++ AllProducts 250 None :: more
        /\ Forall (fun r => exists c, r = AllProducts 250 (Some c)) more).
Proof.
  split; intros w.
  - destruct (Additional.loader w) as [out w'] eqn:E.
    pose proof (fetchAllProducts_total Additional.lastEdge w) as Ht.
    unfold Additional.loader in E. rewrite E in Ht. cbn in Ht.
    apply whileHasNext_requests in E as (more & Hlog & Hall).
    now exists out, w', more.
  - destruct (Index.loader w) as [out w'] eqn:E.
    pose proof (fetchAllProducts_total Index.lastEdge w) as Ht.
    unfold Index.loader in E. rewrite E in Ht. cbn in Ht.
    apply whileHasNext_requests in E as (more & Hlog & Hall).
    now exists out, w', more.
Qed.

Lemma sends_then {Node A B} (P Q : Request -> Prop)
    (c : M Node A) (k : A -> M Node B) w out w' :
  sends P c -> (forall a, sends Q (k a)) ->
  bind c k w = (out, w') ->
  exists first second,
    log w' = log w ++ first ++ second /\ Forall P first /\ Forall Q second.
Proof.
  intros Hc Hk H. unfold bind in H.
  destruct (c w) as [o w1] eqn:E. destruct (Hc _ _ _ E) as (m1 & H1 & F1).
  destruct o.
  - destruct (Hk _ _ _ _ H) as (m2 & H2 & F2). exists m1, m2.
    split; [now rewrite H2, H1, app_assoc|now split].
  - inversion H; subst. exists m1, []. rewrite app_nil_r. now repeat split.
  - inversion H; subst. exists m1, []. rewrite app_nil_r. now repeat split.
Qed.

Lemma sends_addLoop_creates optionName values prods :
  forall errors,
  sends (createsOption optionName)
        (Additional.addLoop optionName values prods errors).
Proof.
  induction prods as [|prod rest IH]; intros errors; cbn [Additional.addLoop].
  - apply sends_ret.
  - apply sends_bind; [apply sends_mapValues|]. intros vs.
    apply sends_bind.
    { apply sends_graphql. now exists (Additional.id prod), vs. }
    intros resp. apply sends_bind; [apply sends_data_productOptionsCreate|].
    intros ue. apply IH.
Qed.

Lemma sends_listings {Node} lastEdge :
  sends isListing (@fetchAllProducts Node lastEdge).
Proof. apply sends_fetchAllProducts. intros after. now exists after. Qed.

(** X10: in any world and for any form, an action sends its product
    listings before its first mutation: the catalog is read to the end
    before anything is changed.  The mutations of the add action are
    create-option requests for the trimmed name only; those of the remove
    action are updates and deletions of one option. *)
Theorem actions_list_before_they_mutate form :
  (forall w, exists out w' listings creates,
     Additional.action form w = (out, w')
     /\ log w' = log w ++ listings ++ creates
     /\ Forall isListing listings
     /\ Forall (createsOption (trimmedName form)) creates)
  /\ (forall w, exists out w' listings mutations,
        Index.action form w = (out, w')
        /\ log w' = log w ++ listings ++ mutations
        /\ Forall isListing listings
        /\ Forall trimsOrDeletes mutations).
Proof.
  assert (Hnothing : forall Node (w : World Node),
            log w = log w ++ [] ++ []) by (intros; now rewrite !app_nil_r).
  split; intros w.
  - unfold Additional.action. fold (trimmedName form).
    destruct (negb (JS.truthy (trimmedName form)));
      [eexists _, _, [], []; now repeat split|].
    destruct (negb _); [eexists _, _, [], []; now repeat split|].
    destruct (JSON.parse _) as [values|];
      [|eexists _, _, [], []; now repeat split].
    match goal with |- context [bind ?c ?k w] =>
      destruct (bind c k w) as [out w'] eqn:E;
      destruct (sends_then isListing (createsOption (trimmedName form)) c k w out w')
        as (first & second & Hlog & H1 & H2);
      [apply sends_listings| |exact E|]
    end.
    + intros all. apply sends_bind; [apply sends_addLoop_creates|].
      intros errors. destruct (0 <? _)%nat; apply sends_ret.
    + now exists out, w', first, second.
  - unfold Index.action. fold (trimmedName form).
    destruct (negb (JS.truthy (trimmedName form)));
      [eexists _, _, [], []; now repeat split|].
    match goal with |- context [bind ?c ?k w] =>
      destruct (bind c k w) as [out w'] eqn:E;
      destruct (sends_then isListing trimsOrDeletes c k w out w')
        as (first & second & Hlog & H1 & H2);
      [apply sends_listings| |exact E|]
    end.
    + intros all. apply sends_bind.
      * apply sends_removeLoop; intros; exact I.
      * intros errors. destruct (0 <? _)%nat; apply sends_ret.
    + now exists out, w', first, second.
Qed.

(** ** How many requests a loop sends *)

Section SendsAtMost.

Context {Node : Type}.

Lemma sendsAtMost_ret {A} n (a : A) : sendsAtMost n (@ret Node A a).
Proof.
  intros w out w' H. inversion H. exists []. rewrite app_nil_r.
  split; [reflexivity|cbn; lia].
Qed.

Lemma sendsAtMost_throw {A} n e : sendsAtMost n (@throw Node A e).
Proof.
  intros w out w' H. inversion H. exists []. rewrite app_nil_r.
  split; [reflexivity|cbn; lia].
Qed.

Lemma sendsAtMost_graphql req : sendsAtMost 1 (@graphql Node req).
Proof.
  intros w out w' H. unfold graphql in H.
  destruct (script w); inversion H; exists [req]; now split.
Qed.

Lemma sendsAtMost_bind {A B} n m (c : M Node A) (k : A -> M Node B) :
  sendsAtMost n c -> (forall a, sendsAtMost m (k a)) ->
  sendsAtMost (n + m) (bind c k).
Proof.
  intros Hc Hk w out w' H. unfold bind in H.
  destruct (c w) as [o w1] eqn:E. destruct (Hc _ _ _ E) as (m1 & H1 & L1).
  destruct o.
  - destruct (Hk _ _ _ _ H) as (m2 & H2 & L2). exists (m1 ++ m2).
    split; [now rewrite H2, H1, app_assoc|]. rewrite length_app. lia.
  - inversion H; subst. exists m1. split; [exact H1|lia].
  - inversion H; subst. exists m1. split; [exact H1|lia].
Qed.

Lemma sendsAtMost_weaken {A} n m (c : M Node A) :
  n <= m -> sendsAtMost n c -> sendsAtMost m c.
Proof.
  intros Hle Hc w out w' H. destruct (Hc _ _ _ H) as (more & Hlog & Hl).
  exists more. split; [exact Hlog|lia].
Qed.

End SendsAtMost.

Lemma sendsAtMost_addLoop optionName values prods :
  forall errors,
  sendsAtMost (List.length prods)
              (Additional.addLoop optionName values prods errors).
Proof.
  induction prods as [|prod rest IH]; intros errors; cbn [Additional.addLoop List.length].
  - apply sendsAtMost_ret.
  - apply (sendsAtMost_bind 0 (S (List.length rest))).
    { destruct values; first [apply sendsAtMost_ret | apply sendsAtMost_throw]. }
    intros vs. apply (sendsAtMost_bind 1 (List.length rest));
      [apply sendsAtMost_graphql|].
    intros resp. apply (sendsAtMost_bind 0 (List.length rest)).
    { destruct resp; first [apply sendsAtMost_ret | apply sendsAtMost_throw]. }
    intros ue. apply IH.
Qed.

Lemma sendsAtMost_deleteOption prod opt errors :
  sendsAtMost 1 (Index.deleteOption prod opt errors).
Proof.
  unfold Index.deleteOption.
  apply (sendsAtMost_bind 1 0); [apply sendsAtMost_graphql|]. intros resp.
  apply (sendsAtMost_bind 0 0).
  { destruct resp; first [apply sendsAtMost_ret | apply sendsAtMost_throw]. }
  intros ue. destruct (0 <? _)%nat; apply sendsAtMost_ret.
Qed.

Lemma sendsAtMost_removeFrom optionName prod errors :
  sendsAtMost 2 (Index.removeFrom optionName prod errors).
Proof.
  unfold Index.removeFrom.
  destruct (Index.findOption optionName prod) as [opt|]; [|apply sendsAtMost_ret].
  destruct (1 <? _)%nat.
  - apply (sendsAtMost_bind 1 1); [apply sendsAtMost_graphql|]. intros resp.
    apply (sendsAtMost_bind 0 1).
    { destruct resp; first [apply sendsAtMost_ret | apply sendsAtMost_throw]. }
    intros ue. destruct (0 <? _)%nat;
      [apply sendsAtMost_ret|apply sendsAtMost_deleteOption].
  - apply (sendsAtMost_weaken 1 2); [lia|apply sendsAtMost_deleteOption].
Qed.

Lemma sendsAtMost_removeLoop optionName prods :
  forall errors,
  sendsAtMost (2 * List.length prods)
              (Index.removeLoop optionName prods errors).
Proof.
  induction prods as [|prod rest IH]; intros errors; cbn [Index.removeLoop].
  - apply sendsAtMost_ret.
  - apply (sendsAtMost_weaken (2 + 2 * List.length rest)); [cbn; lia|].
    apply sendsAtMost_bind; [apply sendsAtMost_removeFrom|].
    intros e'. apply IH.
Qed.

Lemma toAdd_length optionName all :
  List.length (Additional.toAdd optionName all) <= List.length all.
Proof. unfold Additional.toAdd. apply filter_length_le. Qed.

(** X11: once the catalog is read, whatever the remote answers and
    however the action ends, the add action sends at most one mutation per
    product lacking the option, hence at most one per product of the
    catalog, and the remove action at most two per product of the
    catalog. *)
Theorem mutations_bounded_by_catalog :
  (forall form optionName values w all w1,
     addFormPasses form optionName values ->
     fetchAllProducts Additional.lastEdge w = (Returned all, w1) ->
     exists out w' more,
       Additional.action form w = (out, w')
       /\ log w' = log w1 ++ more
       /\ List.length more <= List.length (Additional.toAdd optionName all)
       /\ List.length more <= List.length all)
  /\ (forall form optionName w all w1,
        removeFormPasses form optionName ->
        fetchAllProducts Index.lastEdge w = (Returned all, w1) ->
        exists out w' more,
          Index.action form w = (out, w')
          /\ log w' = log w1 ++ more
          /\ List.length more <= 2 * List.length all).
Proof.
  split.
  - intros form optionName values w all w1 HA Hfetch.
    rewrite (additional_action_passes _ _ _ HA), (bind_returned _ _ _ _ _ Hfetch).
    match goal with |- context [bind ?c ?k w1] =>
      destruct (bind c k w1) as [out w'] eqn:E;
      destruct (sendsAtMost_bind (List.length (Additional.toAdd optionName all)) 0
                  c k (sendsAtMost_addLoop _ _ _ _)) with (w := w1) (out := out) (w' := w')
        as (more & Hlog & Hl); [|exact E|]
    end.
    + intros errors. destruct (0 <? _)%nat; apply sendsAtMost_ret.
    + exists out, w', more. split; [reflexivity|]. split; [exact Hlog|].
      pose proof (toAdd_length optionName all). lia.
  - intros form optionName w all w1 HI Hfetch.
    rewrite (index_action_passes _ _ HI), (bind_returned _ _ _ _ _ Hfetch).
    match goal with |- context [bind ?c ?k w1] =>
      destruct (bind c k w1) as [out w'] eqn:E;
      destruct (sendsAtMost_bind (2 * List.length all) 0
                  c k (sendsAtMost_removeLoop _ _ _)) with (w := w1) (out := out) (w' := w')
        as (more & Hlog & Hl); [|exact E|]
    end.
    + intros errors. destruct (0 <? _)%nat; apply sendsAtMost_ret.
    + exists out, w', more. split; [reflexivity|]. split; [exact Hlog|]. lia.
Qed.

Lemma mutations_bounded_by_catalog_witness :
  (exists out w' more,
     Additional.action colorForm addWorld = (out, w')
     /\ log w' = [AllProducts 250 None] ++ more
     /\ List.length more
        <= List.length (Additional.toAdd "Color" (pageNodes threeProducts))
     /\ List.length more <= List.length (pageNodes threeProducts))
  /\ exists out w' more,
       Index.action packWeightForm removeWorld = (out, w')
       /\ log w' = [AllProducts 250 None] ++ more
       /\ List.length more <= 2 * List.length (pageNodes packPage).
Proof.
  split.
  - apply (proj1 mutations_bounded_by_catalog colorForm "Color" colorValues addWorld
             (pageNodes threeProducts)
             {| script := [ProductOptionsCreate []; ProductOptionsCreate []];
                log := [AllProducts 250 None] |}).
    + exact colorForm_passes.
    + reflexivity.
  - apply (proj2 mutations_bounded_by_catalog packWeightForm "pack weight" removeWorld
             (pageNodes packPage)
             {| script := [ProductOptionUpdate [];
                           ProductOptionsDelete [gid "ProductOption" 2] []];
                log := [AllProducts 250 None] |}).
    + exact packWeightForm_passes.
    + reflexivity.
Defined.

(** ** Validation, the other way round *)

Lemma log_grew {A} (l more : list A) x : l <> l ++ x :: more.
Proof.
  intros H. apply (f_equal (@List.length A)) in H.
  rewrite length_app in H. cbn in H. lia.
Qed.

(** An add action on a form that passes its checks reads the catalog. *)
Lemma additional_action_first_request form optionName values w :
  addFormPasses form optionName values ->
  exists out w' more,
    Additional.action form w = (out, w')
    /\ log w' = log w ++ AllProducts 250 None :: more.
Proof.
  intros HA. rewrite (additional_action_passes _ _ _ HA).
  destruct (fetchAllProducts_first_request Additional.lastEdge w)
    as (o1 & w1 & m1 & Hrun & Hlog).
  match goal with |- context [bind ?c ?k w] =>
    destruct (bind_log_prefix c k w o1 w1 (log w ++ [AllProducts 250 None]))
      as (out & w' & more & Hact & Hlog')
  end.
  - intros all. apply (sends_appends (fun _ => True)).
    apply sends_bind; [now apply sends_addLoop|].
    intros errors. destruct (0 <? _)%nat; apply sends_ret.
  - exact Hrun.
  - exists m1. now rewrite Hlog, <- app_assoc.
  - exists out, w', more. split; [exact Hact|]. now rewrite Hlog', <- app_assoc.
Qed.

(** X12: an action answers with a failure and an untouched world, no
    request sent, exactly when its form fails a check: for the remove
    action, when the option name is absent or blank; for the add action,
    when the name is absent or blank, or the values field is absent, empty
    or not JSON.  Every other form makes the action send the first
    product listing. *)
Theorem actions_reject_exactly_malformed_forms form
    (wI : World Index.Product) (wA : World Additional.Product) :
  ((exists msg, Index.action form wI = (Returned (Index.failure msg), wI))
   <-> JS.truthy (trimmedName form) = false)
  /\ ((exists msg, Additional.action form wA = (Returned (Additional.failure msg), wA))
      <-> (JS.truthy (trimmedName form) = false
           \/ form_values form = None
           \/ form_values form = Some EmptyString
           \/ exists raw, form_values form = Some raw /\ JSON.parse raw = None))
  /\ (JS.truthy (trimmedName form) = true ->
      exists out w' more,
        Index.action form wI = (out, w')
        /\ log w' = log wI ++ AllProducts 250 None :: more)
  /\ (~ (JS.truthy (trimmedName form) = false
         \/ form_values form = None
         \/ form_values form = Some EmptyString
         \/ exists raw, form_values form = Some raw /\ JSON.parse raw = None) ->
      exists out w' more,
        Additional.action form wA = (out, w')
        /\ log w' = log wA ++ AllProducts 250 None :: more).
Proof.
  assert (Hname : JS.truthy (trimmedName form) = true ->
            exists raw, form_optionName form = Some raw
                        /\ trimmedName form = JS.trim raw).
  { unfold trimmedName. destruct (form_optionName form) as [raw|]; [|discriminate].
    intros _. now exists raw. }
  split; [|split; [|split]]; [split|split| |].
  - intros [msg H]. destruct (JS.truthy (trimmedName form)) eqn:Ht; [|reflexivity].
    destruct (Hname eq_refl) as (raw & Hn & Heq).
    destruct (index_action_first_request form (trimmedName form) wI)
      as (out & w' & more & Hrun & Hlog).
    { exists raw. rewrite <- Heq. now repeat split. }
    rewrite H in Hrun. inversion Hrun; subst. now apply log_grew in Hlog.
  - intros Ht. unfold Index.action. fold (trimmedName form). rewrite Ht.
    now eexists.
  - intros [msg H].
    destruct (JS.truthy (trimmedName form)) eqn:Ht; [|now left].
    destruct (form_values form) as [rawValues|] eqn:Ev; [|now right; left].
    destruct (JS.truthy rawValues) eqn:Etv;
      [|destruct rawValues; [now right; right; left|discriminate]].
    destruct (JSON.parse rawValues) as [values|] eqn:Ep;
      [|right; right; right; now exists rawValues].
    exfalso. destruct (Hname eq_refl) as (raw & Hn & Heq).
    destruct (additional_action_first_request form (trimmedName form) values wA)
      as (out & w' & more & Hrun & Hlog).
    { exists raw, rawValues. rewrite <- Heq. now repeat split. }
    rewrite H in Hrun. inversion Hrun; subst. now apply log_grew in Hlog.
  - intros H. unfold Additional.action. fold (trimmedName form).
    destruct (JS.truthy (trimmedName form)) eqn:Ht; cbn [negb]; [|now eexists].
    destruct H as [H|[H|[H|(raw & H & Hp)]]]; [discriminate| | |]; rewrite H.
    + now eexists.
    + now eexists.
    + destruct (JS.truthy raw); cbn [negb]; [|now eexists].
      rewrite Hp. now eexists.
  - intros Ht. destruct (Hname Ht) as (raw & Hn & Heq).
    apply (index_action_first_request form (trimmedName form) wI).
    exists raw. rewrite <- Heq. now repeat split.
  - intros Hok.
    destruct (JS.truthy (trimmedName form)) eqn:Ht; [|now destruct Hok; left].
    destruct (form_values form) as [rawValues|] eqn:Ev;
      [|now destruct Hok; right; left].
    destruct (JS.truthy rawValues) eqn:Etv;
      [|destruct rawValues; [now destruct Hok; right; right; left|discriminate]].
    destruct (JSON.parse rawValues) as [values|] eqn:Ep;
      [|destruct Hok; right; right; right; now exists rawValues].
    destruct (Hname eq_refl) as (raw & Hn & Heq).
    apply (additional_action_first_request form (trimmedName form) values wA).
    exists raw, rawValues. rewrite <- Heq. now repeat split.
Qed.

(** The add form of the scenario passes the check of the remove action and
    the checks of the add action: either action sends the first listing. *)
Lemma actions_reject_exactly_malformed_forms_witness :
  (exists out w' more,
     Index.action colorForm {| script := []; log := [] |} = (out, w')
     /\ log w' = [] ++ AllProducts 250 None :: more)
  /\ (exists out w' more,
        Additional.action colorForm {| script := []; log := [] |} = (out, w')
        /\ log w' = [] ++ AllProducts 250 None :: more).
Proof.
  destruct (actions_reject_exactly_malformed_forms colorForm
              {| script := []; log := [] |} {| script := []; log := [] |})
    as (_ & _ & HI & HA).
  split.
  - apply HI. reflexivity.
  - apply HA. intros [H|[H|[H|(raw & H & Hp)]]]; try discriminate.
    inversion H; subst raw. vm_compute in Hp. discriminate.
Defined.

(** ** Nothing to do *)

Lemma removeLoop_no_targets optionName prods :
  (forall p, In p prods -> Index.findOption optionName p = None) ->
  forall errors w,
  Index.removeLoop optionName prods errors w = (Returned errors, w).
Proof.
  induction prods as [|prod prods IH]; intros H errors w; [reflexivity|].
  cbn [Index.removeLoop].
  rewrite (bind_returned _ _ _ _ _
             (removeFrom_no_match optionName prod errors w (H prod (or_introl eq_refl)))).
  apply IH. intros p Hp. apply H. now right.
Qed.

(** X13: when no product of the catalog needs the change, an empty
    catalog included, the action reads the catalog, sends no mutation and
    reports success: the add action with count 0, and that whatever the
    values parsed to, array or not; the remove action without further
    request. *)
Theorem nothing_to_change_is_success :
  (forall form optionName values before final rest sent,
     addFormPasses form optionName values ->
     forallb continues before = true ->
     page_hasNextPage final = false ->
     Additional.toAdd optionName (flat_map pageNodes (before ++ [final])) = [] ->
     Additional.action form
       {| script := map respond (before ++ [final]) ++ rest; log := sent |}
     = (Returned {| success := true; error := None; addedCount := Some 0 |},
        {| script := rest; log := sent ++ requestsFor None (before ++ [final]) |}))
  /\ (forall form optionName before final rest sent,
        removeFormPasses form optionName ->
        forallb continues before = true ->
        page_hasNextPage final = false ->
        (forall p, In p (flat_map pageNodes (before ++ [final])) ->
           Index.findOption optionName p = None) ->
        Index.action form
          {| script := map respond (before ++ [final]) ++ rest; log := sent |}
        = (Returned {| success := true; error := None; addedCount := None |},
           {| script := rest; log := sent ++ requestsFor None (before ++ [final]) |})).
Proof.
  split.
  - intros form optionName values before final rest sent HA Hb Hf Hnone.
    rewrite (additional_action_passes _ _ _ HA).
    rewrite (bind_returned _ _ _ _ _
               (fetchAllProducts_pages _ additional_lastEdge before final _ sent Hb Hf)).
    rewrite Hnone. reflexivity.
  - intros form optionName before final rest sent HI Hb Hf Hnone.
    rewrite (index_action_passes _ _ HI).
    rewrite (bind_returned _ _ _ _ _
               (fetchAllProducts_pages _ index_lastEdge before final _ sent Hb Hf)).
    rewrite (bind_returned _ _ _ _ _ (removeLoop_no_targets optionName _ Hnone [] _)).
    reflexivity.
Qed.

Lemma nothing_to_change_is_success_witness :
  Additional.action fiveForm
    {| script := map respond ([] ++ [emptyPage]) ++ []; log := [] |}
  = (Returned {| success := true; error := None; addedCount := Some 0 |},
     {| script := [];
        log := [] ++ requestsFor None ([] ++ [@emptyPage Additional.Product]) |})
  /\ Index.action packWeightForm
       {| script := map respond ([] ++ [emptyPage]) ++ []; log := [] |}
     = (Returned {| success := true; error := None; addedCount := None |},
        {| script := [];
           log := [] ++ requestsFor None ([] ++ [@emptyPage Index.Product]) |}).
Proof.
  split.
  - apply (proj1 nothing_to_change_is_success fiveForm "Color" (JSON.Number false 5 0)
             [] emptyPage [] []); try reflexivity.
    exists "Color", "5". repeat split; reflexivity.
  - apply (proj2 nothing_to_change_is_success packWeightForm "pack weight"
             [] emptyPage [] []); try reflexivity.
    + exact packWeightForm_passes.
    + intros p [].
Defined.

(** ** The deletion step *)

Lemma deleteOption_answered prod opt errors ids ue rest sent :
  Index.deleteOption prod opt errors
    {| script := ProductOptionsDelete ids ue :: rest; log := sent |}
  = (Returned (errors ++ map message ue),
     {| script := rest; log := sent ++ [Index.deleteRequest prod opt] |}).
Proof.
  unfold Index.deleteOption, bind, graphql. cbn.
  destruct ue; cbn; [now rewrite app_nil_r|reflexivity].
Qed.

(** X14: when the value trim of a product is accepted and the deletion
    of its option is then rejected, the iteration records the messages of
    the deletion and ends having sent the update and the delete, nothing to
    restore the values deleted; the loop goes on with the next product, and
    the list it returns in the end is not empty, so the action reports
    failure. *)
Theorem rejected_delete_after_accepted_trim
    optionName prod prods opt errors ids ue rest sent :
  Index.findOption optionName prod = Some opt ->
  1 < List.length (Index.optionValues opt) ->
  ue <> [] ->
  let w := {| script := ProductOptionUpdate [] :: ProductOptionsDelete ids ue :: rest;
              log := sent |} in
  let w2 := {| script := rest;
               log := sent ++ [Index.updateRequest prod opt;
                               Index.deleteRequest prod opt] |} in
  Index.removeFrom optionName prod errors w
  = (Returned (errors ++ map message ue), w2)
  /\ Index.removeLoop optionName (prod :: prods) errors w
     = Index.removeLoop optionName prods (errors ++ map message ue) w2
  /\ forall errs w',
       Index.removeLoop optionName (prod :: prods) errors w = (Returned errs, w') ->
       errs <> [].
Proof.
  intros H Hk Hue w w2.
  assert (Hrun : Index.removeFrom optionName prod errors w
                 = (Returned (errors ++ map message ue), w2)).
  { unfold w. rewrite (removeFrom_update_accepted _ _ _ _ _ _ H);
      [|now apply Nat.ltb_lt].
    rewrite deleteOption_answered. unfold w2. now rewrite <- app_assoc. }
  assert (Hloop : Index.removeLoop optionName (prod :: prods) errors w
                  = Index.removeLoop optionName prods (errors ++ map message ue) w2).
  { cbn [Index.removeLoop]. now apply bind_returned. }
  split; [exact Hrun|]. split; [exact Hloop|].
  intros errs w' Hret. rewrite Hloop in Hret.
  destruct (removeLoop_keeps _ _ _ _ _ _ Hret) as [more ->].
  destruct ue; [contradiction|]. destruct errors; discriminate.
Qed.

Lemma rejected_delete_after_accepted_trim_witness :
  Index.removeFrom "pack weight" packProduct []
    {| script := ProductOptionUpdate [] :: ProductOptionsDelete [] [rejection] :: [];
       log := [] |}
  = (Returned ([] ++ map message [rejection]),
     {| script := [];
        log := [] ++ [Index.updateRequest packProduct packWeight;
                      Index.deleteRequest packProduct packWeight] |}).
Proof.
  apply (rejected_delete_after_accepted_trim "pack weight" packProduct []
           packWeight [] [] [rejection] [] []).
  - reflexivity.
  - cbn. lia.
  - discriminate.
Defined.

(** X15: a matched option with one value, or with none, is deleted
    directly: the iteration sends the delete-option request for that option
    and no update, consumes one response, and records the user errors of the
    deletion when it is answered. *)
Theorem single_valued_option_is_deleted_directly
    optionName prod opt errors resp rest sent :
  Index.findOption optionName prod = Some opt ->
  List.length (Index.optionValues opt) <= 1 ->
  snd (Index.removeFrom optionName prod errors
         {| script := resp :: rest; log := sent |})
  = {| script := rest;
       log := sent ++ [DeleteOptions (Index.id prod) [Index.optionId opt]] |}
  /\ forall ids ue,
       resp = ProductOptionsDelete ids ue ->
       fst (Index.removeFrom optionName prod errors
              {| script := resp :: rest; log := sent |})
       = Returned (errors ++ map message ue).
Proof.
  intros H Hk.
  rewrite (removeFrom_single _ _ _ _ H) by (apply Nat.ltb_ge; lia).
  split; [now rewrite deleteOption_world|].
  intros ids ue ->. now rewrite deleteOption_answered.
Qed.

Lemma single_valued_option_is_deleted_directly_witness :
  snd (Index.removeFrom "gift" packProduct []
         {| script := ProductOptionsDelete [] [] :: []; log := [] |})
  = {| script := [];
       log := [] ++ [DeleteOptions (Index.id packProduct)
                       [Index.optionId giftPackWeight]] |}
  /\ forall ids ue,
       @ProductOptionsDelete Index.Product [] [] = ProductOptionsDelete ids ue ->
       fst (Index.removeFrom "gift" packProduct []
              {| script := ProductOptionsDelete [] [] :: []; log := [] |})
       = Returned ([] ++ map message ue).
Proof.
  apply (single_valued_option_is_deleted_directly "gift" packProduct giftPackWeight).
  - reflexivity.
  - cbn. lia.
Defined.

(** ** An exception in the middle of the loop *)

Lemma addLoop_exhausted optionName vs prods :
  forall answers errors sent,
  List.length answers < List.length prods ->
  Additional.addLoop optionName (JSON.Array vs) prods errors
    {| script := map ProductOptionsCreate answers; log := sent |}
  = (Thrown FetchError,
     {| script := [];
        log := sent ++ map (createRequest optionName vs)
                         (firstn (S (List.length answers)) prods) |}).
Proof.
  induction prods as [|prod prods IH]; intros answers errors sent Hlen;
    [cbn in Hlen; lia|].
  destruct answers as [|ue answers].
  - reflexivity.
  - cbn [Additional.addLoop Additional.mapValues map].
    unfold bind at 1. cbn [ret].
    unfold bind at 1. unfold graphql at 1. cbn [script log].
    unfold bind at 1. cbn [data_productOptionsCreate ret].
    rewrite IH by (cbn in Hlen; lia).
    cbn [List.length firstn map]. now rewrite <- app_assoc.
Qed.

(** X16: if the remote stops answering in the middle of the add loop,
    after [k] create-option calls have been answered, the rejection of the
    next call is not caught: the action throws, having sent [k + 1]
    create-option requests, and reports neither the count nor the user
    errors of the calls that were answered. *)
Theorem unanswered_call_aborts_the_add
    form optionName vs before final answers sent :
  addFormPasses form optionName (JSON.Array vs) ->
  forallb continues before = true ->
  page_hasNextPage final = false ->
  let missing :=
    Additional.toAdd optionName (flat_map pageNodes (before ++ [final])) in
  List.length answers < List.length missing ->
  Additional.action form
    {| script := map respond (before ++ [final]) ++ map ProductOptionsCreate answers;
       log := sent |}
  = (Thrown FetchError,
     {| script := [];
        log := sent ++ requestsFor None (before ++ [final])
                    ++ map (createRequest optionName vs)
                         (firstn (S (List.length answers)) missing) |}).
Proof.
  intros HA Hb Hf missing Hlen.
  rewrite (additional_action_passes _ _ _ HA).
  pose proof (fetchAllProducts_pages _ additional_lastEdge before final
                (map ProductOptionsCreate answers) sent Hb Hf) as Hfetch.
  rewrite (bind_returned _ _ _ _ _ Hfetch). fold missing.
  rewrite (bind_thrown _ _ _ _ _ (addLoop_exhausted optionName vs missing answers [] _ Hlen)).
  now rewrite <- app_assoc.
Qed.

Lemma unanswered_call_aborts_the_add_witness :
  Additional.action colorForm
    {| script := map respond ([] ++ [threeProducts])
                 ++ map ProductOptionsCreate [[invalidName]];
       log := [] |}
  = (Thrown FetchError,
     {| script := [];
        log := [] ++ requestsFor None ([] ++ [threeProducts])
                  ++ map (createRequest "Color"
                            [JSON.Str (JSON.codeUnits "Red");
                             JSON.Str (JSON.codeUnits "Green");
                             JSON.Str (JSON.codeUnits "Yellow")])
                       (firstn (S (List.length [[invalidName]]))
                          (Additional.toAdd "Color"
                             (flat_map pageNodes ([] ++ [threeProducts])))) |}).
Proof.
  apply (unanswered_call_aborts_the_add colorForm "Color" _ [] threeProducts
           [[invalidName]] [] colorForm_passes); try reflexivity.
  vm_compute. lia.
Defined.

(** ** The error report *)

(** X17: when the loop of an action ends with errors recorded, the one
    message the action reports holds every recorded message: each of them
    occurs in it, so none is lost in the joining. *)
Theorem report_holds_every_message :
  (forall form optionName values w all w1 errors w2,
     addFormPasses form optionName values ->
     fetchAllProducts Additional.lastEdge w = (Returned all, w1) ->
     Additional.addLoop optionName values (Additional.toAdd optionName all) [] w1
       = (Returned errors, w2) ->
     errors <> [] ->
     exists report,
       Additional.action form w
       = (Returned {| success := false; error := Some report; addedCount := None |}, w2)
       /\ forall e, In e errors -> JS.includes report e = true)
  /\ (forall form optionName w all w1 errors w2,
        removeFormPasses form optionName ->
        fetchAllProducts Index.lastEdge w = (Returned all, w1) ->
        Index.removeLoop optionName all [] w1 = (Returned errors, w2) ->
        errors <> [] ->
        exists report,
          Index.action form w
          = (Returned {| success := false; error := Some report; addedCount := None |}, w2)
          /\ forall e, In e errors -> JS.includes report e = true).
Proof.
  split.
  - intros form optionName values w all w1 errors w2 HA Hfetch Hloop Hne.
    exists (JS.join "; " errors). split; [|intros e; apply join_includes].
    rewrite (additional_action_passes _ _ _ HA).
    rewrite (bind_returned _ _ _ _ _ Hfetch), (bind_returned _ _ _ _ _ Hloop).
    destruct errors; [contradiction|reflexivity].
  - intros form optionName w all w1 errors w2 HI Hfetch Hloop Hne.
    exists (JS.join "; " errors). split; [|intros e; apply join_includes].
    rewrite (index_action_passes _ _ HI).
    rewrite (bind_returned _ _ _ _ _ Hfetch), (bind_returned _ _ _ _ _ Hloop).
    destruct errors; [contradiction|reflexivity].
Qed.

Lemma report_holds_every_message_witness :
  exists report,
    Additional.action colorForm
      {| script := [respond threeProducts;
                    ProductOptionsCreate [invalidName; tooManyOptions];
                    ProductOptionsCreate []];
         log := [] |}
    = (Returned {| success := false; error := Some report; addedCount := None |},
       {| script := [];
          log := [AllProducts 250 None;
                  createRequest "Color" [JSON.Str (JSON.codeUnits "Red");
                                         JSON.Str (JSON.codeUnits "Green");
                                         JSON.Str (JSON.codeUnits "Yellow")]
                    (AdditionalSamples.product 1 ["Size"]);
                  createRequest "Color" [JSON.Str (JSON.codeUnits "Red");
                                         JSON.Str (JSON.codeUnits "Green");
                                         JSON.Str (JSON.codeUnits "Yellow")]
                    (AdditionalSamples.product 3 [])] |})
    /\ forall e,
         In e ["Option name is invalid"; "Cannot create more than 3 options"] ->
         JS.includes report e = true.
Proof.
  apply (proj1 report_holds_every_message colorForm "Color" colorValues _
           (pageNodes threeProducts)
           {| script := [ProductOptionsCreate [invalidName; tooManyOptions];
                         ProductOptionsCreate []];
              log := [AllProducts 250 None] |}).
  - exact colorForm_passes.
  - reflexivity.
  - reflexivity.
  - discriminate.
Defined.

(** ** The count of the toast against the count of the banner *)

Lemma filter_length_implies {A} (f g : A -> bool) (l : list A) :
  (forall x, In x l -> f x = true -> g x = true) ->
  List.length (filter f l) <= List.length (filter g l).
Proof.
  induction l as [|x l IH]; intros H; [reflexivity|].
  cbn [filter].
  assert (IH' : List.length (filter f l) <= List.length (filter g l)).
  { apply IH. intros y Hy. apply H. now right. }
  destruct (f x) eqn:Ef.
  - rewrite (H x (or_introl eq_refl) Ef). cbn. lia.
  - destruct (g x); cbn; lia.
Qed.

Lemma addLoop_accepted optionName vs prods :
  forall rest sent,
  Additional.addLoop optionName (JSON.Array vs) prods []
    {| script := map ProductOptionsCreate (repeat [] (List.length prods)) ++ rest;
       log := sent |}
  = (Returned [],
     {| script := rest; log := sent ++ map (createRequest optionName vs) prods |}).
Proof.
  intros rest sent.
  rewrite addLoop_run by (now rewrite repeat_length).
  cbn [app]. do 2 f_equal.
  induction (List.length prods) as [|n IH]; [reflexivity|exact IH].
Qed.

(** X18: when the add page lets the button be clicked and the action
    re-reads the catalog the page was showing, its option names free of
    white space around them, and every create-option call is accepted, the
    action reports success with a count that is never more than the count
    the page showed; the two are equal when the name typed has no white
    space around it. *)
Theorem toast_count_against_banner_count submitting st before final rest sent :
  let all := flat_map pageNodes (before ++ [final]) in
  let added := List.length (Additional.toAdd (JS.trim (AdditionalPage.optionName st)) all) in
  AdditionalPage.canSubmit all submitting st = true ->
  namesTrimmed all ->
  forallb continues before = true ->
  page_hasNextPage final = false ->
  (exists w',
     Additional.action (AdditionalPage.submit st)
       {| script := map respond (before ++ [final])
                    ++ map ProductOptionsCreate (repeat [] added) ++ rest;
          log := sent |}
     = (Returned {| success := true; error := None; addedCount := Some added |}, w'))
  /\ added <= List.length (AdditionalPage.missing all st)
  /\ (JS.trim (AdditionalPage.optionName st) = AdditionalPage.optionName st ->
      added = List.length (AdditionalPage.missing all st)).
Proof.
  intros all added Hcan Hnames Hb Hf.
  pose proof (canSubmit_name _ _ _ Hcan) as Ht.
  split; [|split].
  - rewrite (additional_action_passes _ _ _ (page_submission_passes st Ht)).
    rewrite (bind_returned _ _ _ _ _
               (fetchAllProducts_pages _ additional_lastEdge before final _ sent Hb Hf)).
    fold all. unfold added.
    rewrite (bind_returned _ _ _ _ _ (addLoop_accepted _ _ _ rest _)).
    eexists. reflexivity.
  - unfold added, AdditionalPage.missing, Additional.toAdd. rewrite Ht. cbn [negb].
    apply filter_length_implies. intros p Hin Hp.
    apply negb_true_iff in Hp. apply negb_true_iff.
    destruct (Additional.hasOption (AdditionalPage.optionName st) p) eqn:E;
      [|reflexivity].
    destruct (String.string_dec (JS.trim (AdditionalPage.optionName st))
                                (AdditionalPage.optionName st)) as [Eq|Ne].
    + rewrite Eq in Hp. congruence.
    + apply hasOption_spec in E as (o & Ho & Heq). exfalso.
      now apply (padded_name_matches_no_trimmed_name
                   (Additional.name o) (AdditionalPage.optionName st)
                   (Hnames p o Hin Ho) Ne).
  - intros Eq. unfold added, AdditionalPage.missing, Additional.toAdd.
    rewrite Ht, Eq. reflexivity.
Qed.

Lemma toast_count_against_banner_count_witness :
  (exists w',
     Additional.action (AdditionalPage.submit typedPaddedColor)
       {| script := map respond ([] ++ [threeProducts])
                    ++ map ProductOptionsCreate
                         (repeat [] (List.length
                                       (Additional.toAdd
                                          (JS.trim (AdditionalPage.optionName typedPaddedColor))
                                          (flat_map pageNodes ([] ++ [threeProducts])))))
                    ++ [];
          log := [] |}
     = (Returned {| success := true; error := None;
                    addedCount :=
                      Some (List.length
                              (Additional.toAdd
                                 (JS.trim (AdditionalPage.optionName typedPaddedColor))
                                 (flat_map pageNodes ([] ++ [threeProducts])))) |}, w'))
  /\ List.length (Additional.toAdd
                    (JS.trim (AdditionalPage.optionName typedPaddedColor))
                    (flat_map pageNodes ([] ++ [threeProducts])))
     <= List.length (AdditionalPage.missing
                       (flat_map pageNodes ([] ++ [threeProducts])) typedPaddedColor).
Proof.
  destruct (toast_count_against_banner_count false typedPaddedColor [] threeProducts [] [])
    as (H1 & H2 & _).
  - reflexivity.
  - intros p o Hp Ho. cbn in Hp.
    destruct Hp as [<-|[<-|[<-|[]]]]; cbn in Ho;
      repeat (destruct Ho as [<-|Ho]; [reflexivity|]); contradiction.
  - reflexivity.
  - reflexivity.
  - split; [exact H1|exact H2].
Defined.

(** * The remove workflow, from the form to the requests *)

(** ** The option the workflow finds *)





Lemma removalPlan_split remote optionName pre prod post :
  removalPlan remote optionName (pre ++ prod :: post)
  = removalPlan remote optionName pre
    ++ removalRequests remote optionName prod
    ++ removalPlan remote optionName post.
Proof. unfold removalPlan. now rewrite flat_map_app. Qed.

(** A run of the remove action on a well-formed catalog, against a remote
    that answers every request with a response to its operation. *)
Lemma index_action_run form optionName remote before final rest sent :
  removeFormPasses form optionName ->
  (forall req, answersTo req (remote req) = true) ->
  forallb continues before = true ->
  page_hasNextPage final = false ->
  let plan := removalPlan remote optionName (flat_map pageNodes (before ++ [final])) in
  let errors := aggregate (answersOf remote plan) in
  Index.action form
    {| script := map respond (before ++ [final]) ++ map remote plan ++ rest;
       log := sent |}
  = (Returned
       (match errors with
        | [] => {| success := true; error := None; addedCount := None |}
        | _ => {| success := false; error := Some (JS.join "; " errors);
                  addedCount := None |}
        end),
     {| script := rest;
        log := sent ++ requestsFor None (before ++ [final]) ++ plan |}).
Proof.
  intros HI Hkind Hb Hf plan errors.
  rewrite (index_action_passes _ _ HI).
  rewrite (bind_returned _ _ _ _ _
             (fetchAllProducts_pages _ index_lastEdge before final _ sent Hb Hf)).
  fold plan. unfold plan at 1.
  rewrite (bind_returned _ _ _ _ _
             (removeLoop_run remote optionName _ Hkind [] rest _)).
  fold plan. cbn [app]. fold errors. rewrite <- app_assoc.
  now destruct errors.
Qed.


(** ** The value trim, from the form to the request *)

Lemma leavesAValue_update catalog optionName prod opt :
  In prod catalog ->
  Index.findOption optionName prod = Some opt ->
  (1 <? List.length (Index.optionValues opt))%nat = true ->
  leavesAValue catalog (Index.updateRequest prod opt).
Proof.
  intros Hp H Hk. apply Nat.ltb_lt in Hk.
  unfold Index.updateRequest, leavesAValue.
  exists prod, opt. apply find_some in H as [Hin _].
  destruct (toDelete_tail opt) as [Htl Hlen].
  split; [exact Hp|]. split; [exact Hin|]. split; [reflexivity|].
  split; [reflexivity|]. split; [exact Htl|]. rewrite Hlen. lia.
Qed.

Lemma sends_deletesNoValue_additional form :
  sends deletesNoValue (Additional.action form).
Proof.
  unfold Additional.action. destruct (negb _); [apply sends_ret|].
  destruct (negb _); [apply sends_ret|].
  destruct (JSON.parse _) as [values|]; [|apply sends_ret].
  apply sends_bind; [now apply sends_fetchAllProducts|]. intros all.
  apply sends_bind; [now apply sends_addLoop|].
  intros errors. destruct (0 <? _)%nat; apply sends_ret.
Qed.

(** The requests of the remove action are listings, then mutations that
    each leave a value to the option of the listed catalog they trim. *)
Lemma index_action_leavesAValue form w :
  exists out w' listings mutations,
    Index.action form w = (out, w')
    /\ log w' = log w ++ listings ++ mutations
    /\ Forall isListing listings
    /\ (forall catalog w1,
          fetchAllProducts Index.lastEdge w = (Returned catalog, w1) ->
          Forall (leavesAValue catalog) mutations)
    /\ ((forall catalog w1,
           fetchAllProducts Index.lastEdge w <> (Returned catalog, w1)) ->
        mutations = []).
Proof.
  unfold Index.action. destruct (negb _).
  - exists (Returned (Index.failure "Please enter an option name.")), w, [], [].
    split; [reflexivity|]. split; [now rewrite app_nil_r|].
    split; [constructor|]. split; [constructor|reflexivity].
  - match goal with |- context [bind _ ?k0 w] => set (k := k0) end.
    destruct (fetchAllProducts Index.lastEdge w) as [o w1] eqn:E.
    destruct (sends_listings Index.lastEdge _ _ _ E) as (l & Hl & Fl).
    destruct o as [all|e|].
    + assert (Hk : sends (leavesAValue all) (k all)).
      { unfold k. apply sends_bind.
        - apply sends_removeLoop.
          + intros prod opt Hin. now apply leavesAValue_update.
          + now intros prod opt _ _.
        - intros errors. destruct (0 <? _)%nat; apply sends_ret. }
      destruct (k all w1) as [out w'] eqn:K.
      destruct (Hk _ _ _ K) as (m & Hm & Fm).
      exists out, w', l, m. split; [unfold bind; now rewrite E|].
      split; [now rewrite Hm, Hl, app_assoc|]. split; [exact Fl|]. split.
      * intros catalog w1' H. now inversion H; subst.
      * intros H. now destruct (H all w1).
    + exists (Thrown e), w1, l, []. split; [unfold bind; now rewrite E|].
      split; [now rewrite app_nil_r|]. split; [exact Fl|].
      split; [constructor|reflexivity].
    + exists Diverged, w1, l, []. split; [unfold bind; now rewrite E|].
      split; [now rewrite app_nil_r|]. split; [exact Fl|].
      split; [constructor|reflexivity].
Qed.

(** The requests of a product whose first match has several values begin
    with the trim of that option. *)
Lemma removalRequests_trim remote optionName prod opt :
  Index.findOption optionName prod = Some opt ->
  1 < List.length (Index.optionValues opt) ->
  exists more,
    removalRequests remote optionName prod = Index.updateRequest prod opt :: more
    /\ (more = [] /\ userErrorsOf (remote (Index.updateRequest prod opt)) <> []
        \/ more = [Index.deleteRequest prod opt]
           /\ userErrorsOf (remote (Index.updateRequest prod opt)) = []).
Proof.
  intros H Hk. apply Nat.ltb_lt in Hk. unfold removalRequests. rewrite H, Hk.
  destruct (userErrorsOf (remote (Index.updateRequest prod opt))) as [|u ue].
  - exists [Index.deleteRequest prod opt]. split; [reflexivity|]. now right.
  - exists []. split; [reflexivity|]. left. now split.
Qed.

(** C4: for a matched option with k > 1 values, the iteration of the
    remove loop sends one update-option request, first, whose delete list
    is the ids of the values but the first, in their order, k - 1 ids;
    after it comes at most the deletion of the option.  The remove action,
    run on a well-formed catalog that holds such a product, sends that
    request for it, between the requests of the products before and after.
    In any world the remove action sends listings and then mutations, and
    every update among them is of an option of a listed product and lists
    the ids of its values but the first, fewer ids than the option has
    values; the add action and the loaders send no update-option request.
    When the value ids are distinct, the id of the first value is not in the
    delete list. *)
Theorem update_deletes_all_but_first_value :
  (forall optionName prod opt errors w,
     Index.findOption optionName prod = Some opt ->
     1 < List.length (Index.optionValues opt) ->
     Index.toDelete opt = map Index.valueId (tl (Index.optionValues opt))
     /\ List.length (Index.toDelete opt) = List.length (Index.optionValues opt) - 1
     /\ exists out w' more,
          Index.removeFrom optionName prod errors w = (out, w')
          /\ log w'
             = log w
               ++ UpdateOptionValues (Index.id prod)
                    {| update_id := Index.optionId opt;
                       update_name := Index.name opt;
                       update_position := Index.position opt |}
                    (map Index.valueId (tl (Index.optionValues opt)))
               :: more
          /\ (more = [] \/ more = [Index.deleteRequest prod opt]))
  /\
  (forall form optionName remote before final pre prod post opt rest sent,
     removeFormPasses form optionName ->
     (forall req, answersTo req (remote req) = true) ->
     forallb continues before = true ->
     page_hasNextPage final = false ->
     flat_map pageNodes (before ++ [final]) = pre ++ prod :: post ->
     Index.findOption optionName prod = Some opt ->
     1 < List.length (Index.optionValues opt) ->
     exists result more,
       Index.action form
         {| script := map respond (before ++ [final])
                      ++ map remote (removalPlan remote optionName (pre ++ prod :: post))
                      ++ rest;
            log := sent |}
       = (Returned result,
          {| script := rest;
             log := sent ++ requestsFor None (before ++ [final])
                         ++ removalPlan remote optionName pre
                         ++ (UpdateOptionValues (Index.id prod)
                               {| update_id := Index.optionId opt;
                                  update_name := Index.name opt;
                                  update_position := Index.position opt |}
                               (map Index.valueId (tl (Index.optionValues opt)))
                             :: more)
                         ++ removalPlan remote optionName post |})
       /\ (more = [] \/ more = [Index.deleteRequest prod opt])
       /\ List.length (map Index.valueId (tl (Index.optionValues opt)))
          = List.length (Index.optionValues opt) - 1)
  /\
  (forall form w,
     exists out w' listings mutations,
       Index.action form w = (out, w')
       /\ log w' = log w ++ listings ++ mutations
       /\ Forall isListing listings
       /\ (forall catalog w1,
             fetchAllProducts Index.lastEdge w = (Returned catalog, w1) ->
             Forall (leavesAValue catalog) mutations)
       /\ ((forall catalog w1,
              fetchAllProducts Index.lastEdge w <> (Returned catalog, w1)) ->
           mutations = []))
  /\ (forall form, sends deletesNoValue (Additional.action form))
  /\ sends deletesNoValue Index.loader
  /\ sends deletesNoValue Additional.loader
  /\ (forall opt v vs,
        Index.optionValues opt = v :: vs ->
        NoDup (map Index.valueId (v :: vs)) ->
        ~ In (Index.valueId v) (Index.toDelete opt)).
Proof.
  split; [|split; [|split; [|split; [|split; [|split]]]]].
  - intros optionName prod opt errors w H Hk.
    destruct (toDelete_tail opt) as [Htl Hlen].
    split; [exact Htl|]. split; [exact Hlen|].
    destruct (removeFrom_requests optionName prod opt errors w H)
      as (out & w' & more & Hrun & Hlog & Hmore).
    exists out, w', more. split; [exact Hrun|]. split.
    + rewrite Hlog. unfold firstRequest.
      apply Nat.ltb_lt in Hk. rewrite Hk.
      unfold Index.updateRequest. now rewrite Htl.
    + destruct Hmore as [->|[-> _]]; [now left|now right].
  - intros form optionName remote before final pre prod post opt rest sent
      HI Hkind Hb Hf Hall H Hk.
    destruct (toDelete_tail opt) as [Htl Hlen].
    destruct (removalRequests_trim remote optionName prod opt H Hk)
      as (more & Hreq & Hmore).
    pose proof (index_action_run form optionName remote before final rest sent
                  HI Hkind Hb Hf) as Hrun.
    cbv zeta in Hrun. rewrite Hall in Hrun.
    eexists _, more. split; [|split].
    + rewrite Hrun. f_equal. f_equal. f_equal. f_equal.
      rewrite removalPlan_split, Hreq.
      unfold Index.updateRequest. now rewrite Htl.
    + destruct Hmore as [[-> _]|[-> _]]; [now left|now right].
    + now rewrite <- Htl.
  - apply index_action_leavesAValue.
  - apply sends_deletesNoValue_additional.
  - now apply sends_fetchAllProducts.
  - now apply sends_fetchAllProducts.
  - intros opt v vs Hv Hnd Hin.
    rewrite (proj1 (toDelete_tail opt)), Hv in Hin. cbn in Hin, Hnd.
    now inversion Hnd.
Qed.

Lemma update_deletes_all_but_first_value_witness :
  (Index.toDelete packWeight = map Index.valueId (tl (Index.optionValues packWeight))
   /\ List.length (Index.toDelete packWeight)
      = List.length (Index.optionValues packWeight) - 1
   /\ exists out w' more,
        Index.removeFrom "pack weight" packProduct []
          {| script := [ProductOptionUpdate []; ProductOptionsDelete [] []];
             log := [] |} = (out, w')
        /\ log w'
           = [] ++ UpdateOptionValues (Index.id packProduct)
                     {| update_id := Index.optionId packWeight;
                        update_name := Index.name packWeight;
                        update_position := Index.position packWeight |}
                     (map Index.valueId (tl (Index.optionValues packWeight)))
                :: more
        /\ (more = [] \/ more = [Index.deleteRequest packProduct packWeight]))
  /\ (exists result more,
        Index.action packWeightForm
          {| script := map respond ([] ++ [packPage])
                       ++ map acceptingRemote
                            (removalPlan acceptingRemote "pack weight"
                               ([] ++ packProduct :: []))
                       ++ [];
             log := [] |}
        = (Returned result,
           {| script := [];
              log := [] ++ requestsFor None ([] ++ [packPage])
                        ++ removalPlan acceptingRemote "pack weight" []
                        ++ (UpdateOptionValues (Index.id packProduct)
                              {| update_id := Index.optionId packWeight;
                                 update_name := Index.name packWeight;
                                 update_position := Index.position packWeight |}
                              (map Index.valueId (tl (Index.optionValues packWeight)))
                            :: more)
                        ++ removalPlan acceptingRemote "pack weight" [] |})
        /\ (more = [] \/ more = [Index.deleteRequest packProduct packWeight])
        /\ List.length (map Index.valueId (tl (Index.optionValues packWeight)))
           = List.length (Index.optionValues packWeight) - 1)
  /\ ~ In (Index.valueId (IndexSamples.value 20 "1 kg")) (Index.toDelete packWeight).
Proof.
  split; [|split].
  - apply (proj1 update_deletes_all_but_first_value "pack weight" packProduct packWeight []
             {| script := [ProductOptionUpdate []; ProductOptionsDelete [] []];
                log := [] |}).
    + reflexivity.
    + cbn. lia.
  - apply (proj1 (proj2 update_deletes_all_but_first_value)
             packWeightForm "pack weight" acceptingRemote [] packPage
             [] packProduct [] packWeight [] []).
    + exact packWeightForm_passes.
    + intros []; reflexivity.
    + reflexivity.
    + reflexivity.
    + reflexivity.
    + reflexivity.
    + cbn. lia.
  - apply (proj2 (proj2 (proj2 (proj2 (proj2 (proj2 update_deletes_all_but_first_value)))))
             packWeight (IndexSamples.value 20 "1 kg")
             [IndexSamples.value 21 "2 kg"; IndexSamples.value 22 "5 kg"]).
    + reflexivity.
    + cbn. repeat constructor; cbn; intuition discriminate.
Defined.

(** The remove action on the scenario's catalog, against a remote that
    accepts every mutation: the trim of Pack weight to its first value,
    then the deletion of the option. *)
Example trim_scenario_requests :
  removalPlan acceptingRemote "pack weight" [packProduct]
  = [UpdateOptionValues (gid "Product" 1)
       {| update_id := gid "ProductOption" 2;
          update_name := "Pack Weight";
          update_position := 2 |}
       [gid "ProductOptionValue" 21; gid "ProductOptionValue" 22];
     DeleteOptions (gid "Product" 1) [gid "ProductOption" 2]].
Proof. reflexivity. Qed.


(** ** A rejected trim, from the form to the report *)







